(** * TimeAxis: the horizontal time axis of the timeline

    A shallow embedding of [src/timeline/component/TimeAxis.js].

    - JavaScript numbers are modelled by exact rationals ([Q]); a property
      that may be [undefined] is an [option].  Where the rounding of the
      arithmetic matters, in the round trip between screen and time, the
      two conversions are given in binary64 as well.
    - A [Date] is its time value, a whole number of milliseconds;
      [new Date(v)] truncates [v] towards zero (ECMAScript TimeClip).
    - The document is a store of elements addressed by handles, with the
      ordered child lists of the axis frame and of the parent's container.
      The text node of a label ([childNodes[0]]) is kept as the field
      [nodeValue] of the label itself.
    - Methods of [TimeAxis] are computations in a state-and-exception monad
      over the component and the document; a thrown error carries the state
      at the point of the throw.
    - The tick-step generator ([TimeStep]), [util] and [Range.conversion]
      live in other files of the repository and are taken as an interface. *)

From Stdlib Require Import ZArith QArith Qround Qabs String Lia Lqa.
From stdpp Require Import base list strings.

(** ** JavaScript values *)

Definition Date := Z.

(** [new Date(v)] for a number [v]: ToInteger, i.e. sign(v) * floor(|v|). *)
Definition Date_new (v : Q) : Date :=
  if Qle_bool 0 v then Qfloor v else Qceiling v.

(** [d.valueOf()] *)
Definition valueOf (d : Date) : Q := inject_Z d.

Inductive value :=
| undefined
| null
| boolean (b : bool)
| number (n : Q)
| NaN
| str (s : string)
| date (d : Date).

(** ToBoolean: what [!v] and [v || w] test. *)
Definition truthy (v : value) : bool :=
  match v with
  | undefined | null | NaN => false
  | boolean b => b
  | number n => negb (Qeq_bool n 0)
  | str s => negb (String.eqb s EmptyString)
  | date _ => true
  end.

(** [a || b] on numbers that may be undefined. *)
Definition num_or (a : option Q) (b : Q) : Q :=
  match a with
  | Some n => if Qeq_bool n 0 then b else n
  | None => b
  end.

Definition num_add (a b : option Q) : option Q :=
  match a, b with
  | Some x, Some y => Some (x + y)%Q
  | _, _ => None
  end.

(** The conversion between screen and time. *)
Record Conversion := { scale : Q; offset : Q }.

(** What [setRange] may be handed: a value without properties of its own
    interest, or an object with optional [start], [end] and [conversion]
    properties, which may or may not be an instance of [Range]. *)
Module RangeObj.
Record t := {
  instanceofRange : bool;
  start : option value;
  end_ : option value;
  conversion : option (option Q -> Conversion)
}.
End RangeObj.

Inductive arg :=
| plain (v : value)
| object (o : RangeObj.t).

Definition instanceof_Range (range : arg) : bool :=
  match range with
  | plain _ => false
  | object o => RangeObj.instanceofRange o
  end.

Definition arg_truthy (range : arg) : bool :=
  match range with
  | plain v => truthy v
  | object _ => true
  end.

Definition prop (p : RangeObj.t -> option value) (range : arg) : value :=
  match range with
  | plain _ => undefined
  | object o => match p o with Some v => v | None => undefined end
  end.

Definition exposes (p : RangeObj.t -> option value) (range : arg) : bool :=
  match range with
  | plain _ => false
  | object o => match p o with Some _ => true | None => false end
  end.

Definition conversion_method (range : arg) : option (option Q -> Conversion) :=
  match range with
  | plain _ => None
  | object o => RangeObj.conversion o
  end.

(** ** The document *)

Abbreviation handle := nat (only parsing).

Inductive css :=
| css_empty
| css_lit (s : string)
| css_px (n : Q).

(** [n + 'px'] *)
Definition px (n : option Q) : css :=
  match n with
  | Some q => css_px q
  | None => css_lit "undefinedpx"
  end.

Module Style.
Record t := {
  top : css;
  bottom : css;
  left : css;
  width : css;
  height : css
}.

Definition none : t :=
  {| top := css_empty; bottom := css_empty; left := css_empty;
     width := css_empty; height := css_empty |}.

Definition with_top (v : css) (st : t) : t :=
  {| top := v; bottom := bottom st; left := left st; width := width st; height := height st |}.
Definition with_bottom (v : css) (st : t) : t :=
  {| top := top st; bottom := v; left := left st; width := width st; height := height st |}.
Definition with_left (v : css) (st : t) : t :=
  {| top := top st; bottom := bottom st; left := v; width := width st; height := height st |}.
Definition with_width (v : css) (st : t) : t :=
  {| top := top st; bottom := bottom st; left := left st; width := v; height := height st |}.
Definition with_height (v : css) (st : t) : t :=
  {| top := top st; bottom := bottom st; left := left st; width := width st; height := v |}.
End Style.

Record Element := {
  className : string;
  nodeValue : string;
  style : Style.t
}.

(** A node fresh from [document.createElement]. *)
Definition blank : Element :=
  {| className := EmptyString; nodeValue := EmptyString; style := Style.none |}.

Definition with_className (c : string) (e : Element) : Element :=
  {| className := c; nodeValue := nodeValue e; style := style e |}.
Definition with_nodeValue (t : string) (e : Element) : Element :=
  {| className := className e; nodeValue := t; style := style e |}.
Definition with_style (f : Style.t -> Style.t) (e : Element) : Element :=
  {| className := className e; nodeValue := nodeValue e; style := f (style e) |}.

(** Child lists.  [appendChild] moves a node that is already a child to the
    end; [removeChild] takes it out. *)
Fixpoint without (h : handle) (l : list handle) : list handle :=
  match l with
  | [] => []
  | x :: r => if Nat.eqb x h then r else x :: without h r
  end.

Definition member (h : handle) (l : list handle) : bool :=
  existsb (Nat.eqb h) l.

Definition appended (h : handle) (l : list handle) : list handle :=
  without h l ++ [h].

Fixpoint nextSibling (h : handle) (l : list handle) : option handle :=
  match l with
  | [] => None
  | x :: r => if Nat.eqb x h then head r else nextSibling h r
  end.

Fixpoint insertedBefore (h before : handle) (l : list handle) : list handle :=
  match l with
  | [] => [h]
  | x :: r => if Nat.eqb x before then h :: x :: r else x :: insertedBefore h before r
  end.

(** ** The component *)

Record Options := {
  orientation : option string;
  showMinorLabels : option bool;
  showMajorLabels : option bool;
  optWidth : option value
}.

Definition noOptions : Options :=
  {| orientation := None; showMinorLabels := None; showMajorLabels := None;
     optWidth := None |}.

Definition defaultOptions : Options :=
  {| orientation := Some "bottom"%string;
     showMinorLabels := Some true;
     showMajorLabels := Some true;
     optWidth := None |}.

Definition flag (o : option bool) : bool :=
  match o with Some b => b | None => false end.

(** [options[name]], or the default when that is undefined. *)
Definition option_of {A} (name : Options -> option A) (options : Options) : option A :=
  match name options with
  | Some v => Some v
  | None => name defaultOptions
  end.

Module redundant.
Record t := {
  majorLines : list handle;
  majorTexts : list handle;
  minorLines : list handle;
  minorTexts : list handle
}.
End redundant.

Record Dom := {
  majorLines : list handle;
  majorTexts : list handle;
  minorLines : list handle;
  minorTexts : list handle;
  redundant : redundant.t;
  line : option handle
}.

Record Props := {
  lineTop : Q;
  minorCharHeight : option Q;
  minorCharWidth : option Q;
  majorCharHeight : option Q;
  majorCharWidth : option Q;
  minorLabelHeight : option Q;
  majorLabelHeight : option Q;
  minorLineHeight : option Q;
  minorLineWidth : option Q;
  majorLineHeight : option Q;
  majorLineWidth : option Q
}.

Inductive error :=
| TypeError (msg : string)
| Error (msg : string)
| NotFoundError.

(** The four pools of [this.dom], and the retired lists of
    [this.dom.redundant], addressed by kind. *)
Inductive kind := MajorLine | MajorText | MinorLine | MinorText.

Definition active (k : kind) (d : Dom) : list handle :=
  match k with
  | MajorLine => majorLines d
  | MajorText => majorTexts d
  | MinorLine => minorLines d
  | MinorText => minorTexts d
  end.

Definition retired (k : kind) (d : Dom) : list handle :=
  match k with
  | MajorLine => redundant.majorLines (redundant d)
  | MajorText => redundant.majorTexts (redundant d)
  | MinorLine => redundant.minorLines (redundant d)
  | MinorText => redundant.minorTexts (redundant d)
  end.

Definition set_active (k : kind) (v : list handle) (d : Dom) : Dom :=
  {| majorLines := match k with MajorLine => v | _ => majorLines d end;
     majorTexts := match k with MajorText => v | _ => majorTexts d end;
     minorLines := match k with MinorLine => v | _ => minorLines d end;
     minorTexts := match k with MinorText => v | _ => minorTexts d end;
     redundant := redundant d;
     line := line d |}.

Definition set_retired (k : kind) (v : list handle) (d : Dom) : Dom :=
  {| majorLines := majorLines d;
     majorTexts := majorTexts d;
     minorLines := minorLines d;
     minorTexts := minorTexts d;
     redundant :=
       {| redundant.majorLines :=
            match k with MajorLine => v | _ => redundant.majorLines (redundant d) end;
          redundant.majorTexts :=
            match k with MajorText => v | _ => redundant.majorTexts (redundant d) end;
          redundant.minorLines :=
            match k with MinorLine => v | _ => redundant.minorLines (redundant d) end;
          redundant.minorTexts :=
            match k with MinorText => v | _ => redundant.minorTexts (redundant d) end |};
     line := line d |}.

Definition set_line (v : option handle) (d : Dom) : Dom :=
  {| majorLines := majorLines d;
     majorTexts := majorTexts d;
     minorLines := minorLines d;
     minorTexts := minorTexts d;
     redundant := redundant d;
     line := v |}.

(** What the host reports when a repaint reads it. *)
Record Host := {
  offsetWidth : Q;
  getContainer : bool;
  parentHeight : Q;
  clientHeight : string -> Q;
  clientWidth : string -> Q
}.

(** The tick-step generator: a cursor over the ticks of a range. *)
Class TimeStepOps (S : Type) := {
  TimeStep : Date -> Date -> Q -> S;
  first : S -> S;
  hasNext : S -> bool;
  next : S -> S;
  getCurrent : S -> Date;
  isMajor : S -> bool;
  getLabelMinor : S -> string;
  getLabelMajor : S -> option Date -> string;
  snapTo : S -> Date -> Date
}.

(** [util.convert(_, 'Number')], [util.option.asSize] and the static
    [Range.conversion]. *)
Class Util := {
  convert_Number : value -> Q;
  asSize : option value -> string -> css;
  Range_conversion : value -> value -> option Q -> Conversion
}.

(** Assignments to the fields of [this.props]. *)
Definition set_minorCharHeight (v : option Q) (p : Props) : Props :=
  {| lineTop := lineTop p;
     minorCharHeight := v;
     minorCharWidth := minorCharWidth p;
     majorCharHeight := majorCharHeight p;
     majorCharWidth := majorCharWidth p;
     minorLabelHeight := minorLabelHeight p;
     majorLabelHeight := majorLabelHeight p;
     minorLineHeight := minorLineHeight p;
     minorLineWidth := minorLineWidth p;
     majorLineHeight := majorLineHeight p;
     majorLineWidth := majorLineWidth p |}.
Definition set_minorCharWidth (v : option Q) (p : Props) : Props :=
  {| lineTop := lineTop p;
     minorCharHeight := minorCharHeight p;
     minorCharWidth := v;
     majorCharHeight := majorCharHeight p;
     majorCharWidth := majorCharWidth p;
     minorLabelHeight := minorLabelHeight p;
     majorLabelHeight := majorLabelHeight p;
     minorLineHeight := minorLineHeight p;
     minorLineWidth := minorLineWidth p;
     majorLineHeight := majorLineHeight p;
     majorLineWidth := majorLineWidth p |}.
Definition set_majorCharHeight (v : option Q) (p : Props) : Props :=
  {| lineTop := lineTop p;
     minorCharHeight := minorCharHeight p;
     minorCharWidth := minorCharWidth p;
     majorCharHeight := v;
     majorCharWidth := majorCharWidth p;
     minorLabelHeight := minorLabelHeight p;
     majorLabelHeight := majorLabelHeight p;
     minorLineHeight := minorLineHeight p;
     minorLineWidth := minorLineWidth p;
     majorLineHeight := majorLineHeight p;
     majorLineWidth := majorLineWidth p |}.
Definition set_majorCharWidth (v : option Q) (p : Props) : Props :=
  {| lineTop := lineTop p;
     minorCharHeight := minorCharHeight p;
     minorCharWidth := minorCharWidth p;
     majorCharHeight := majorCharHeight p;
     majorCharWidth := v;
     minorLabelHeight := minorLabelHeight p;
     majorLabelHeight := majorLabelHeight p;
     minorLineHeight := minorLineHeight p;
     minorLineWidth := minorLineWidth p;
     majorLineHeight := majorLineHeight p;
     majorLineWidth := majorLineWidth p |}.
Definition set_minorLabelHeight (v : option Q) (p : Props) : Props :=
  {| lineTop := lineTop p;
     minorCharHeight := minorCharHeight p;
     minorCharWidth := minorCharWidth p;
     majorCharHeight := majorCharHeight p;
     majorCharWidth := majorCharWidth p;
     minorLabelHeight := v;
     majorLabelHeight := majorLabelHeight p;
     minorLineHeight := minorLineHeight p;
     minorLineWidth := minorLineWidth p;
     majorLineHeight := majorLineHeight p;
     majorLineWidth := majorLineWidth p |}.
Definition set_majorLabelHeight (v : option Q) (p : Props) : Props :=
  {| lineTop := lineTop p;
     minorCharHeight := minorCharHeight p;
     minorCharWidth := minorCharWidth p;
     majorCharHeight := majorCharHeight p;
     majorCharWidth := majorCharWidth p;
     minorLabelHeight := minorLabelHeight p;
     majorLabelHeight := v;
     minorLineHeight := minorLineHeight p;
     minorLineWidth := minorLineWidth p;
     majorLineHeight := majorLineHeight p;
     majorLineWidth := majorLineWidth p |}.
Definition set_minorLineHeight (v : option Q) (p : Props) : Props :=
  {| lineTop := lineTop p;
     minorCharHeight := minorCharHeight p;
     minorCharWidth := minorCharWidth p;
     majorCharHeight := majorCharHeight p;
     majorCharWidth := majorCharWidth p;
     minorLabelHeight := minorLabelHeight p;
     majorLabelHeight := majorLabelHeight p;
     minorLineHeight := v;
     minorLineWidth := minorLineWidth p;
     majorLineHeight := majorLineHeight p;
     majorLineWidth := majorLineWidth p |}.
Definition set_minorLineWidth (v : option Q) (p : Props) : Props :=
  {| lineTop := lineTop p;
     minorCharHeight := minorCharHeight p;
     minorCharWidth := minorCharWidth p;
     majorCharHeight := majorCharHeight p;
     majorCharWidth := majorCharWidth p;
     minorLabelHeight := minorLabelHeight p;
     majorLabelHeight := majorLabelHeight p;
     minorLineHeight := minorLineHeight p;
     minorLineWidth := v;
     majorLineHeight := majorLineHeight p;
     majorLineWidth := majorLineWidth p |}.
Definition set_majorLineHeight (v : option Q) (p : Props) : Props :=
  {| lineTop := lineTop p;
     minorCharHeight := minorCharHeight p;
     minorCharWidth := minorCharWidth p;
     majorCharHeight := majorCharHeight p;
     majorCharWidth := majorCharWidth p;
     minorLabelHeight := minorLabelHeight p;
     majorLabelHeight := majorLabelHeight p;
     minorLineHeight := minorLineHeight p;
     minorLineWidth := minorLineWidth p;
     majorLineHeight := v;
     majorLineWidth := majorLineWidth p |}.
Definition set_majorLineWidth (v : option Q) (p : Props) : Props :=
  {| lineTop := lineTop p;
     minorCharHeight := minorCharHeight p;
     minorCharWidth := minorCharWidth p;
     majorCharHeight := majorCharHeight p;
     majorCharWidth := majorCharWidth p;
     minorLabelHeight := minorLabelHeight p;
     majorLabelHeight := majorLabelHeight p;
     minorLineHeight := minorLineHeight p;
     minorLineWidth := minorLineWidth p;
     majorLineHeight := majorLineHeight p;
     majorLineWidth := v |}.

Section Component.

Context {Step : Type} `{StepOps : TimeStepOps Step} `{U : Util}.

(** The document (element store and the two child lists the axis touches)
    together with the fields of the [TimeAxis] object. *)
Record State := {
  elems : list Element;
  frameChildren : list handle;
  containerChildren : list handle;
  parent : bool;
  frame : option handle;
  dom : Dom;
  props : Props;
  options : Options;
  conversion : option Conversion;
  range : option arg;
  step : option Step;
  width : option Q;
  height : option Q
}.

Definition set_elems (v : list Element) (s : State) : State :=
  {| elems := v;
     frameChildren := frameChildren s;
     containerChildren := containerChildren s;
     parent := parent s;
     frame := frame s;
     dom := dom s;
     props := props s;
     options := options s;
     conversion := conversion s;
     range := range s;
     step := step s;
     width := width s;
     height := height s |}.
Definition set_frameChildren (v : list handle) (s : State) : State :=
  {| elems := elems s;
     frameChildren := v;
     containerChildren := containerChildren s;
     parent := parent s;
     frame := frame s;
     dom := dom s;
     props := props s;
     options := options s;
     conversion := conversion s;
     range := range s;
     step := step s;
     width := width s;
     height := height s |}.
Definition set_containerChildren (v : list handle) (s : State) : State :=
  {| elems := elems s;
     frameChildren := frameChildren s;
     containerChildren := v;
     parent := parent s;
     frame := frame s;
     dom := dom s;
     props := props s;
     options := options s;
     conversion := conversion s;
     range := range s;
     step := step s;
     width := width s;
     height := height s |}.
Definition set_frame (v : option handle) (s : State) : State :=
  {| elems := elems s;
     frameChildren := frameChildren s;
     containerChildren := containerChildren s;
     parent := parent s;
     frame := v;
     dom := dom s;
     props := props s;
     options := options s;
     conversion := conversion s;
     range := range s;
     step := step s;
     width := width s;
     height := height s |}.
Definition set_dom (v : Dom) (s : State) : State :=
  {| elems := elems s;
     frameChildren := frameChildren s;
     containerChildren := containerChildren s;
     parent := parent s;
     frame := frame s;
     dom := v;
     props := props s;
     options := options s;
     conversion := conversion s;
     range := range s;
     step := step s;
     width := width s;
     height := height s |}.
Definition set_props (v : Props) (s : State) : State :=
  {| elems := elems s;
     frameChildren := frameChildren s;
     containerChildren := containerChildren s;
     parent := parent s;
     frame := frame s;
     dom := dom s;
     props := v;
     options := options s;
     conversion := conversion s;
     range := range s;
     step := step s;
     width := width s;
     height := height s |}.
Definition set_options (v : Options) (s : State) : State :=
  {| elems := elems s;
     frameChildren := frameChildren s;
     containerChildren := containerChildren s;
     parent := parent s;
     frame := frame s;
     dom := dom s;
     props := props s;
     options := v;
     conversion := conversion s;
     range := range s;
     step := step s;
     width := width s;
     height := height s |}.
Definition set_conversion (v : option Conversion) (s : State) : State :=
  {| elems := elems s;
     frameChildren := frameChildren s;
     containerChildren := containerChildren s;
     parent := parent s;
     frame := frame s;
     dom := dom s;
     props := props s;
     options := options s;
     conversion := v;
     range := range s;
     step := step s;
     width := width s;
     height := height s |}.
Definition set_range (v : option arg) (s : State) : State :=
  {| elems := elems s;
     frameChildren := frameChildren s;
     containerChildren := containerChildren s;
     parent := parent s;
     frame := frame s;
     dom := dom s;
     props := props s;
     options := options s;
     conversion := conversion s;
     range := v;
     step := step s;
     width := width s;
     height := height s |}.
Definition set_step (v : option Step) (s : State) : State :=
  {| elems := elems s;
     frameChildren := frameChildren s;
     containerChildren := containerChildren s;
     parent := parent s;
     frame := frame s;
     dom := dom s;
     props := props s;
     options := options s;
     conversion := conversion s;
     range := range s;
     step := v;
     width := width s;
     height := height s |}.
Definition set_width (v : option Q) (s : State) : State :=
  {| elems := elems s;
     frameChildren := frameChildren s;
     containerChildren := containerChildren s;
     parent := parent s;
     frame := frame s;
     dom := dom s;
     props := props s;
     options := options s;
     conversion := conversion s;
     range := range s;
     step := step s;
     width := v;
     height := height s |}.
Definition set_height (v : option Q) (s : State) : State :=
  {| elems := elems s;
     frameChildren := frameChildren s;
     containerChildren := containerChildren s;
     parent := parent s;
     frame := frame s;
     dom := dom s;
     props := props s;
     options := options s;
     conversion := conversion s;
     range := range s;
     step := step s;
     width := width s;
     height := v |}.

(** ** Computations *)

Inductive result (A : Type) :=
| Ok (a : A) (s : State)
| Throw (e : error) (s : State).
Arguments Ok {A} a s.
Arguments Throw {A} e s.

Definition M (A : Type) := State -> result A.

Definition ret {A} (a : A) : M A := fun s => Ok a s.
Definition bind {A B} (m : M A) (k : A -> M B) : M B :=
  fun s => match m s with
           | Ok a s' => k a s'
           | Throw e s' => Throw e s'
           end.
Definition throw {A} (e : error) : M A := fun s => Throw e s.
Definition gets {A} (f : State -> A) : M A := fun s => Ok (f s) s.
Definition modify (f : State -> State) : M unit := fun s => Ok tt (f s).

Notation "x <- m ;; k" := (bind m (fun x => k))
  (at level 100, m at next level, right associativity).
Notation "m ;; k" := (bind m (fun _ => k))
  (at level 100, right associativity).

Definition final {A} (r : result A) : State :=
  match r with Ok _ s => s | Throw _ s => s end.

(** *** Document operations *)

(** [document.createElement(..)] *)
Definition createElement : M handle :=
  fun s => Ok (length (elems s)) (set_elems (elems s ++ [blank]) s).

(** An assignment to a property of the node [h]. *)
Definition update (h : handle) (f : Element -> Element) : M unit :=
  modify (fun s => set_elems (alter f h (elems s)) s).

Definition no_frame : error :=
  TypeError "Cannot read property of undefined".

(** [this.frame.appendChild(child)] *)
Definition frame_appendChild (child : handle) : M unit :=
  f <- gets frame ;;
  match f with
  | None => throw no_frame
  | Some _ => modify (fun s => set_frameChildren (appended child (frameChildren s)) s)
  end.

(** [this.frame.removeChild(child)]; [child] is [None] when the argument
    is not a node. *)
Definition frame_removeChild (child : option handle) : M unit :=
  f <- gets frame ;;
  match f with
  | None => throw no_frame
  | Some _ =>
      match child with
      | None => throw (TypeError "parameter 1 is not of type 'Node'")
      | Some c =>
          isChild <- gets (fun s => member c (frameChildren s)) ;;
          if isChild
          then modify (fun s => set_frameChildren (without c (frameChildren s)) s)
          else throw NotFoundError
      end
  end.

(** A DOM element has no property [line]: [elem.line] is [undefined]. *)
Definition Element_line (elem : handle) : option handle := None.

(** *** Options *)

(** Modelled from the spec: [Component.prototype.getOption] is not in this
    file; the recognised options default to [defaultOptions]. *)
Definition getOption {A} (name : Options -> option A) : M (option A) :=
  gets (fun s => option_of name (options s)).

Definition is_top (orientation : option string) : bool :=
  match orientation with
  | Some o => String.eqb o "top"
  | None => false
  end.

(** ** The constructor and the public surface *)

Definition TimeAxis (document : list Element) (container : list handle)
    (parent : bool) (options : option Options) : State :=
  {| elems := document;
     frameChildren := [];
     containerChildren := container;
     parent := parent;
     frame := None;
     dom := {| majorLines := []; majorTexts := []; minorLines := []; minorTexts := [];
               redundant := {| redundant.majorLines := []; redundant.majorTexts := [];
                               redundant.minorLines := []; redundant.minorTexts := [] |};
               line := None |};
     props := {| lineTop := 0;
                 minorCharHeight := None; minorCharWidth := None;
                 majorCharHeight := None; majorCharWidth := None;
                 minorLabelHeight := None; majorLabelHeight := None;
                 minorLineHeight := None; minorLineWidth := None;
                 majorLineHeight := None; majorLineWidth := None |};
     options := match options with Some o => o | None => noOptions end;
     conversion := None;
     range := None;
     step := None;
     width := None;
     height := None |}.

Definition setRange (range : arg) : M unit :=
  if negb (instanceof_Range range) &&
     (negb (arg_truthy range)
      || negb (truthy (prop RangeObj.start range))
      || negb (truthy (prop RangeObj.end_ range)))
  then throw (TypeError
    "Range must be an instance of Range, or an object containing start and end.")
  else modify (set_range (Some range)).

Definition null_conversion : error :=
  TypeError "Cannot read property 'scale' of null".

Definition toTime (x : Q) : M Date :=
  conversion <- gets conversion ;;
  match conversion with
  | None => throw null_conversion
  | Some conversion => ret (Date_new (x / scale conversion + offset conversion))
  end.

Definition toScreen (time : Date) : M Q :=
  conversion <- gets conversion ;;
  match conversion with
  | None => throw null_conversion
  | Some conversion => ret ((valueOf time - offset conversion) * scale conversion)%Q
  end.

(** ** Repainting *)

(** [this.dom.redundant.<k>.shift()] *)
Definition shift (k : kind) : M (option handle) :=
  fun s => match retired k (dom s) with
           | [] => Ok None s
           | h :: r => Ok (Some h) (set_dom (set_retired k r (dom s)) s)
           end.

(** [this.dom.<k>.push(elem)] *)
Definition push (k : kind) (elem : handle) : M unit :=
  modify (fun s => set_dom (set_active k (active k (dom s) ++ [elem]) (dom s)) s).

Definition _repaintMinorText (x : Q) (text : string) (orientation : option string)
    : M unit :=
  label <- shift MinorText ;;
  label <- match label with
           | Some label => ret label
           | None =>
               label <- createElement ;;
               update label (with_nodeValue EmptyString) ;;
               update label (with_className "text minor") ;;
               frame_appendChild label ;;
               ret label
           end ;;
  push MinorText label ;;
  update label (with_nodeValue text) ;;
  minorLabelHeight <- gets (fun s => minorLabelHeight (props s)) ;;
  (if is_top orientation
   then update label (with_style (Style.with_top (px minorLabelHeight))) ;;
        update label (with_style (Style.with_bottom css_empty))
   else update label (with_style (Style.with_top css_empty)) ;;
        update label (with_style (Style.with_bottom (px minorLabelHeight)))) ;;
  update label (with_style (Style.with_left (css_px x))).

Definition _repaintMajorText (x : Q) (text : string) (orientation : option string)
    : M unit :=
  label <- shift MajorText ;;
  label <- match label with
           | Some label => ret label
           | None =>
               label <- createElement ;;
               update label (with_className "text major") ;;
               update label (with_nodeValue text) ;;
               frame_appendChild label ;;
               ret label
           end ;;
  push MajorText label ;;
  update label (with_nodeValue text) ;;
  (if is_top orientation
   then update label (with_style (Style.with_top (css_px 0))) ;;
        update label (with_style (Style.with_bottom css_empty))
   else update label (with_style (Style.with_top css_empty)) ;;
        update label (with_style (Style.with_bottom (css_px 0)))) ;;
  update label (with_style (Style.with_left (css_px x))).

(** [(x - w / 2) + 'px'] for a line width [w] that may be undefined. *)
Definition centred (x : Q) (w : option Q) : css :=
  match w with
  | Some w => css_px (x - w / 2)
  | None => css_lit "NaNpx"
  end.

Definition _repaintMinorLine (x : Q) (orientation : option string) : M unit :=
  line <- shift MinorLine ;;
  line <- match line with
          | Some line => ret line
          | None =>
              line <- createElement ;;
              update line (with_className "grid vertical minor") ;;
              frame_appendChild line ;;
              ret line
          end ;;
  push MinorLine line ;;
  props <- gets props ;;
  (if is_top orientation
   then update line (with_style (Style.with_top (px (minorLabelHeight props)))) ;;
        update line (with_style (Style.with_bottom css_empty))
   else update line (with_style (Style.with_top css_empty)) ;;
        update line (with_style (Style.with_bottom (px (minorLabelHeight props))))) ;;
  update line (with_style (Style.with_height (px (minorLineHeight props)))) ;;
  update line (with_style (Style.with_left (centred x (minorLineWidth props)))).

Definition _repaintMajorLine (x : Q) (orientation : option string) : M unit :=
  line <- shift MajorLine ;;
  line <- match line with
          | Some line => ret line
          | None =>
              line <- createElement ;;
              update line (with_className "grid vertical major") ;;
              frame_appendChild line ;;
              ret line
          end ;;
  push MajorLine line ;;
  props <- gets props ;;
  (if is_top orientation
   then update line (with_style (Style.with_top (css_px 0))) ;;
        update line (with_style (Style.with_bottom css_empty))
   else update line (with_style (Style.with_top css_empty)) ;;
        update line (with_style (Style.with_bottom (css_px 0)))) ;;
  update line (with_style (Style.with_left (centred x (majorLineWidth props)))) ;;
  update line (with_style (Style.with_height (px (majorLineHeight props)))).

Definition _repaintLine : M unit :=
  line <- gets (fun s => line (dom s)) ;;
  orientation <- getOption orientation ;;
  showMinorLabels <- getOption showMinorLabels ;;
  showMajorLabels <- getOption showMajorLabels ;;
  if flag showMinorLabels || flag showMajorLabels
  then
    line <- match line with
            | Some line =>
                frame_removeChild (Some line) ;;
                frame_appendChild line ;;
                ret line
            | None =>
                line <- createElement ;;
                update line (with_className "grid horizontal major") ;;
                frame_appendChild line ;;
                modify (fun s => set_dom (set_line (Some line) (dom s)) s) ;;
                ret line
            end ;;
    height <- gets height ;;
    if is_top orientation
    then update line (with_style (Style.with_top (px height))) ;;
         update line (with_style (Style.with_bottom css_empty))
    else update line (with_style (Style.with_top css_empty)) ;;
         update line (with_style (Style.with_bottom (px height)))
  else
    match line with
    | Some line =>
        parentElement <- gets (fun s => member line (frameChildren s)) ;;
        if parentElement
        then frame_removeChild (Element_line line) ;;
             modify (fun s => set_dom (set_line None (dom s)) s)
        else ret tt
    | None => ret tt
    end.

Definition _calculateCharSize (host : Host) : M unit :=
  p <- gets props ;;
  (match minorCharHeight p with
   | None =>
       measureCharMinor <- createElement ;;
       update measureCharMinor (with_className "text minor measure") ;;
       update measureCharMinor (with_nodeValue "0") ;;
       frame_appendChild measureCharMinor ;;
       modify (fun s => set_props
         (set_minorCharHeight (Some (clientHeight host "text minor measure")) (props s)) s) ;;
       modify (fun s => set_props
         (set_minorCharWidth (Some (clientWidth host "text minor measure")) (props s)) s) ;;
       frame_removeChild (Some measureCharMinor)
   | Some _ => ret tt
   end) ;;
  p <- gets props ;;
  match majorCharHeight p with
  | None =>
      measureCharMajor <- createElement ;;
      update measureCharMajor (with_className "text major measure") ;;
      update measureCharMajor (with_nodeValue "0") ;;
      frame_appendChild measureCharMajor ;;
      modify (fun s => set_props
        (set_majorCharHeight (Some (clientHeight host "text major measure")) (props s)) s) ;;
      modify (fun s => set_props
        (set_majorCharWidth (Some (clientWidth host "text major measure")) (props s)) s) ;;
      frame_removeChild (Some measureCharMajor)
  | Some _ => ret tt
  end.

Definition _updateConversion : M unit :=
  range <- gets range ;;
  match range with
  | None => throw (Error "No range configured")
  | Some range =>
      width <- gets width ;;
      match conversion_method range with
      | Some conversion => modify (set_conversion (Some (conversion width)))
      | None =>
          modify (set_conversion (Some
            (Range_conversion (prop RangeObj.start range) (prop RangeObj.end_ range) width)))
      end
  end.

(** [a < b] on numbers. *)
Definition Qlt_bool (a b : Q) : bool := negb (Qle_bool b a).

(** The tick loop of [_repaintLabels].  [budget] is [1000 - max]; the cursor
    [step] is the object also held in [this.step], so advancing it is seen
    there too.  Returns the cursor and [xFirstMajorLabel]. *)
Fixpoint ticks (budget : nat) (step : Step) (xFirstMajorLabel : option Q)
    (orientation : option string) : M (Step * option Q) :=
  match budget with
  | O => ret (step, xFirstMajorLabel)
  | Datatypes.S budget =>
      if hasNext step then
        let cur := getCurrent step in
        x <- toScreen cur ;;
        let isMajor := isMajor step in
        showMinorLabels <- getOption showMinorLabels ;;
        (if flag showMinorLabels
         then _repaintMinorText x (getLabelMinor step) orientation
         else ret tt) ;;
        showMajorLabels <- getOption showMajorLabels ;;
        xFirstMajorLabel <-
          (if isMajor && flag showMajorLabels
           then
             xFirstMajorLabel <-
               (if Qlt_bool 0 x
                then
                  let xFirstMajorLabel :=
                    match xFirstMajorLabel with
                    | None => Some x
                    | Some _ => xFirstMajorLabel
                    end in
                  _repaintMajorText x (getLabelMajor step None) orientation ;;
                  ret xFirstMajorLabel
                else ret xFirstMajorLabel) ;;
             _repaintMajorLine x orientation ;;
             ret xFirstMajorLabel
           else
             _repaintMinorLine x orientation ;;
             ret xFirstMajorLabel) ;;
        let step := next step in
        modify (set_step (Some step)) ;;
        ticks budget step xFirstMajorLabel orientation
      else ret (step, xFirstMajorLabel)
  end.

(** Lines 192-200: every active element becomes a candidate for reuse. *)
Definition retire (d : Dom) : Dom :=
  {| majorLines := [];
     majorTexts := [];
     minorLines := [];
     minorTexts := [];
     redundant := {| redundant.majorLines := majorLines d;
                     redundant.majorTexts := majorTexts d;
                     redundant.minorLines := minorLines d;
                     redundant.minorTexts := minorTexts d |};
     line := line d |}.

(** Lines 233-242: the major label on the left. *)
Definition leftLabel (step : Step) (xFirstMajorLabel : option Q)
    (orientation : option string) : M unit :=
  showMajorLabels <- getOption showMajorLabels ;;
  if flag showMajorLabels
  then
    leftTime <- toTime 0 ;;
    let leftText := getLabelMajor step (Some leftTime) in
    majorCharWidth <- gets (fun s => majorCharWidth (props s)) ;;
    let widthText :=
      (inject_Z (Z.of_nat (String.length leftText)) * num_or majorCharWidth 10 + 10)%Q in
    if match xFirstMajorLabel with
       | None => true
       | Some xFirstMajorLabel => Qlt_bool widthText xFirstMajorLabel
       end
    then _repaintMajorText 0 leftText orientation
    else ret tt
  else ret tt.

(** Lines 246-251 for one retired list: [pending] is what is left of the
    array, last element first. *)
Fixpoint drain (k : kind) (pending : list handle) : M unit :=
  match pending with
  | [] => ret tt
  | elem :: pending =>
      modify (fun s => set_dom (set_retired k (rev pending) (dom s)) s) ;;
      parentNode <- gets (fun s => member elem (frameChildren s)) ;;
      (if parentNode
       then modify (fun s => set_frameChildren (without elem (frameChildren s)) s)
       else ret tt) ;;
      drain k pending
  end.

Definition cleanup (k : kind) : M unit :=
  arr <- gets (fun s => retired k (dom s)) ;;
  drain k (rev arr).

Definition _repaintLabels : M unit :=
  orientation <- getOption orientation ;;
  _updateConversion ;;
  range <- gets range ;;
  match range with
  | None => throw (TypeError "Cannot read property 'start' of null")
  | Some range =>
      let start := convert_Number (prop RangeObj.start range) in
      let end_ := convert_Number (prop RangeObj.end_ range) in
      minorCharWidth <- gets (fun s => minorCharWidth (props s)) ;;
      t5 <- toTime (num_or minorCharWidth 10 * 5) ;;
      t0 <- toTime 0 ;;
      let minimumStep := (valueOf t5 - valueOf t0)%Q in
      let step := TimeStep (Date_new start) (Date_new end_) minimumStep in
      modify (set_step (Some step)) ;;
      modify (fun s => set_dom (retire (dom s)) s) ;;
      let step := first step in
      modify (set_step (Some step)) ;;
      r <- ticks 1000 step None orientation ;;
      leftLabel (fst r) (snd r) orientation ;;
      cleanup MajorLine ;;
      cleanup MajorText ;;
      cleanup MinorLine ;;
      cleanup MinorText
  end.

Definition repaint (host : Host) : M unit :=
  frame0 <- gets frame ;;
  frame <- match frame0 with
           | Some frame => ret frame
           | None =>
               frame <- createElement ;;
               modify (set_frame (Some frame)) ;;
               ret frame
           end ;;
  update frame (with_className "axis") ;;
  modify (set_width (Some (offsetWidth host))) ;;
  parentNode <- gets (fun s => member frame (containerChildren s)) ;;
  (if negb parentNode
   then
     parent <- gets parent ;;
     if negb parent
     then throw (Error "Cannot repaint time axis: no parent attached")
     else
       if negb (getContainer host)
       then throw (Error "Cannot repaint time axis: parent has no container element")
       else modify (fun s =>
              set_containerChildren (appended frame (containerChildren s)) s)
   else ret tt) ;;
  parentNode <- gets (fun s => member frame (containerChildren s)) ;;
  if parentNode
  then
    _calculateCharSize host ;;
    orientation <- getOption orientation ;;
    showMinorLabels <- getOption showMinorLabels ;;
    showMajorLabels <- getOption showMajorLabels ;;
    parent <- gets parent ;;
    parentHeight <-
      (if parent then ret (Some (parentHeight host))
       else throw (TypeError "Cannot read property 'height' of undefined")) ;;
    modify (fun s => set_props (set_minorLabelHeight
      (if flag showMinorLabels then minorCharHeight (props s) else Some 0%Q) (props s)) s) ;;
    modify (fun s => set_props (set_majorLabelHeight
      (if flag showMajorLabels then majorCharHeight (props s) else Some 0%Q) (props s)) s) ;;
    modify (fun s => set_height
      (num_add (minorLabelHeight (props s)) (majorLabelHeight (props s))) s) ;;
    modify (fun s => set_props (set_minorLineHeight
      (num_add parentHeight (minorLabelHeight (props s))) (props s)) s) ;;
    modify (fun s => set_props (set_minorLineWidth (Some 1%Q) (props s)) s) ;;
    modify (fun s => set_props (set_majorLineHeight
      (num_add parentHeight (height s)) (props s)) s) ;;
    modify (fun s => set_props (set_majorLineWidth (Some 1%Q) (props s)) s) ;;
    beforeChild <- gets (fun s => nextSibling frame (containerChildren s)) ;;
    modify (fun s => set_containerChildren (without frame (containerChildren s)) s) ;;
    optWidth <- gets (fun s => optWidth (options s)) ;;
    height <- gets height ;;
    (if is_top orientation
     then
       update frame (with_style (Style.with_top (css_lit "0"))) ;;
       update frame (with_style (Style.with_left (css_lit "0"))) ;;
       update frame (with_style (Style.with_bottom css_empty)) ;;
       update frame (with_style (Style.with_width (asSize optWidth "100%"))) ;;
       update frame (with_style (Style.with_height (px height)))
     else
       update frame (with_style (Style.with_top css_empty)) ;;
       update frame (with_style (Style.with_bottom (css_lit "0"))) ;;
       update frame (with_style (Style.with_left (css_lit "0"))) ;;
       update frame (with_style (Style.with_width (asSize optWidth "100%"))) ;;
       update frame (with_style (Style.with_height (px height)))) ;;
    _repaintLabels ;;
    _repaintLine ;;
    match beforeChild with
    | Some beforeChild =>
        modify (fun s =>
          set_containerChildren (insertedBefore frame beforeChild (containerChildren s)) s)
    | None =>
        modify (fun s => set_containerChildren (appended frame (containerChildren s)) s)
    end
  else ret tt.

Definition snap (date : Date) : M Date :=
  step <- gets step ;;
  match step with
  | None => throw (TypeError "Cannot read property 'snap' of undefined")
  | Some step => ret (snapTo step date)
  end.

End Component.

Notation "x <- m ;; k" := (bind m (fun x => k))
  (at level 100, m at next level, right associativity).
Notation "m ;; k" := (bind m (fun _ => k))
  (at level 100, right associativity).

Arguments State Step : clear implicits.
Arguments M Step A : clear implicits.
Arguments result Step A : clear implicits.
Arguments Ok {Step A} a s.
Arguments Throw {Step A} e s.

(** ** A concrete host for examples

    A cursor that walks from the start of the range to its end in strides
    of [by] milliseconds; a tick is major when its instant is a multiple of
    [majorEvery].  With a stride of zero the cursor never reaches the end. *)
Module Demo.

Record Cursor := {
  at_ : Z;
  from : Z;
  until : Z;
  by_ : Z;
  majorEvery : Z
}.

Definition move (c : Cursor) (t : Z) : Cursor :=
  {| at_ := t; from := from c; until := until c; by_ := by_ c;
     majorEvery := majorEvery c |}.

Definition ops (stride majorEvery : Z) : TimeStepOps Cursor :=
  {| TimeStep := fun start end_ _ =>
       {| at_ := start; from := start; until := end_; by_ := stride;
          majorEvery := majorEvery |};
     first := fun c => move c (from c);
     hasNext := fun c => (at_ c <=? until c)%Z;
     next := fun c => move c (at_ c + by_ c)%Z;
     getCurrent := at_;
     isMajor := fun c => (at_ c mod majorEvery =? 0)%Z;
     getLabelMinor := fun _ => "12:00"%string;
     getLabelMajor := fun _ _ => "Wed 1 January"%string;
     snapTo := fun _ d => d |}.

Definition toNumber (v : value) : Q :=
  match v with
  | number n => n
  | date d => inject_Z d
  | _ => 0%Q
  end.

(** Modelled from the spec: [Range.conversion] is not in this file;
    [scale = width / (end - start)] and [offset = start]. *)
Definition conversion (start end_ : value) (width : option Q) : Conversion :=
  {| scale := match width with
              | Some w => (w / (toNumber end_ - toNumber start))%Q
              | None => 0%Q
              end;
     offset := toNumber start |}.

Definition util : Util :=
  {| convert_Number := toNumber;
     asSize := fun _ default => css_lit default;
     Range_conversion := conversion |}.

Definition host : Host :=
  {| offsetWidth := 1000;
     getContainer := true;
     parentHeight := 300;
     clientHeight := fun _ => 14%Q;
     clientWidth := fun _ => 6%Q |}.

Definition between (start end_ : Q) : arg :=
  object {| RangeObj.instanceofRange := false;
            RangeObj.start := Some (number start);
            RangeObj.end_ := Some (number end_);
            RangeObj.conversion := None |}.

Definition options (minor major : bool) : Options :=
  {| orientation := None; showMinorLabels := Some minor;
     showMajorLabels := Some major; optWidth := None |}.

(** A new axis in an empty document, with a parent attached. *)
Definition axis (o : option Options) : State Cursor := TimeAxis [] [] true o.

End Demo.

(** States in which no repaint has been attempted yet: the constructor,
    followed by calls of [setRange] and changes of the options. *)
Inductive unpainted {Step : Type} : State Step -> Prop :=
| unpainted_new document container parent options :
    unpainted (TimeAxis document container parent options)
| unpainted_setRange s range :
    unpainted s -> unpainted (final (setRange range s))
| unpainted_setOptions s o :
    unpainted s -> unpainted (set_options o s).


(** A range of ten milliseconds shown on a thousand pixels. *)
Definition zoomed_in : State Demo.Cursor :=
  let _ := Demo.util in
  final (_updateConversion
    (set_width (Some 1000%Q) (final (setRange (Demo.between 1000 1010) (Demo.axis None))))).


(** ** The layout of a repaint, as a list of marks

    What one repaint cycle asks of the pools: each mark is one call of
    [_repaintMinorText], [_repaintMajorText], [_repaintMinorLine] or
    [_repaintMajorLine]. *)

Inductive mark :=
| MinorTextAt (x : Q) (text : string)
| MajorTextAt (x : Q) (text : string)
| MinorLineAt (x : Q)
| MajorLineAt (x : Q).

Definition kind_of (m : mark) : kind :=
  match m with
  | MinorTextAt _ _ => MinorText
  | MajorTextAt _ _ => MajorText
  | MinorLineAt _ => MinorLine
  | MajorLineAt _ => MajorLine
  end.

Definition kind_eqb (a b : kind) : bool :=
  match a, b with
  | MajorLine, MajorLine | MajorText, MajorText
  | MinorLine, MinorLine | MinorText, MinorText => true
  | _, _ => false
  end.

(** The class name given to a new element of each kind. *)
Definition cls (k : kind) : string :=
  match k with
  | MajorLine => "grid vertical major"
  | MajorText => "text major"
  | MinorLine => "grid vertical minor"
  | MinorText => "text minor"
  end.

Definition line_cls : string := "grid horizontal major".
Definition frame_cls : string := "axis".

(** The marks of kind [k] among [ms], in order. *)
Definition of_kind (k : kind) (ms : list mark) : list mark :=
  List.filter (fun m => kind_eqb (kind_of m) k) ms.

(** Top and bottom of an element that sits [v] away from the anchored edge. *)
Definition anchored (orientation : option string) (v : css) (st : Style.t) : Style.t :=
  if is_top orientation
  then Style.with_bottom css_empty (Style.with_top v st)
  else Style.with_bottom v (Style.with_top css_empty st).

(** The properties a mark assigns to the element that realises it. *)
Definition dress (orientation : option string) (p : Props) (m : mark) (e : Element)
    : Element :=
  match m with
  | MinorTextAt x text =>
      with_style (Style.with_left (css_px x))
        (with_style (anchored orientation (px (minorLabelHeight p)))
           (with_nodeValue text e))
  | MajorTextAt x text =>
      with_style (Style.with_left (css_px x))
        (with_style (anchored orientation (css_px 0))
           (with_nodeValue text e))
  | MinorLineAt x =>
      with_style (Style.with_left (centred x (minorLineWidth p)))
        (with_style (Style.with_height (px (minorLineHeight p)))
           (with_style (anchored orientation (px (minorLabelHeight p))) e))
  | MajorLineAt x =>
      with_style (Style.with_height (px (majorLineHeight p)))
        (with_style (Style.with_left (centred x (majorLineWidth p)))
           (with_style (anchored orientation (css_px 0)) e))
  end.

(** A new element of the kind of [m], as created before it is dressed. *)
Definition newborn (m : mark) : Element :=
  match m with
  | MajorTextAt _ text => with_nodeValue text (with_className (cls MajorText) blank)
  | _ => with_className (cls (kind_of m)) blank
  end.

Section Layout.

Context {Step : Type} `{StepOps : TimeStepOps Step} `{U : Util}.

(** The state after realising one mark: the first retired element of the
    kind is reused, or a new one is created and appended to the frame. *)
Definition place (orientation : option string) (m : mark) (s : State Step)
    : State Step :=
  let k := kind_of m in
  match retired k (dom s) with
  | h :: r =>
      set_elems (alter (dress orientation (props s) m) h (elems s))
        (set_dom (set_active k (active k (dom s) ++ [h]) (set_retired k r (dom s))) s)
  | [] =>
      let h := length (elems s) in
      set_elems (elems s ++ [dress orientation (props s) m (newborn m)])
        (set_dom (set_active k (active k (dom s) ++ [h]) (dom s))
           (set_frameChildren (appended h (frameChildren s)) s))
  end.

Definition places (orientation : option string) (ms : list mark) (s : State Step)
    : State Step :=
  fold_left (fun s m => place orientation m s) ms s.

(** Whether a kind of label is shown. *)
Definition shows (name : Options -> option bool) (s : State Step) : bool :=
  flag (option_of name (options s)).

(** The marks of one tick, for a cursor standing on it. *)
Definition tick_marks (minor major : bool) (c : Conversion) (step : Step) : list mark :=
  let x := ((valueOf (getCurrent step) - offset c) * scale c)%Q in
  (if minor then [MinorTextAt x (getLabelMinor step)] else []) ++
  (if isMajor step && major
   then (if Qlt_bool 0 x then [MajorTextAt x (getLabelMajor step None)] else [])
        ++ [MajorLineAt x]
   else [MinorLineAt x]).

(** The cursor positions the loop visits with a budget of [budget] ticks. *)
Fixpoint visited (budget : nat) (step : Step) : list Step :=
  match budget with
  | O => []
  | Datatypes.S budget =>
      if hasNext step then step :: visited budget (next step) else []
  end.

(** A cursor that still has a tick after [n] steps, for every [n] below
    [bound]. *)
Definition keeps_going (bound : nat) (st : Step) : Prop :=
  forall n, n < bound -> hasNext (Nat.iter n next st) = true.

(** Where the cursor stands after the loop. *)
Definition stopped (budget : nat) (step : Step) : Step :=
  Nat.iter (length (visited budget step)) next step.

Definition loop_marks (minor major : bool) (c : Conversion) (steps : list Step)
    : list mark :=
  concat (map (tick_marks minor major c) steps).

(** [xFirstMajorLabel] after the loop: the first write wins. *)
Definition first_major (x0 : option Q) (ms : list mark) : option Q :=
  match x0 with
  | Some _ => x0
  | None =>
      head (omap (fun m => match m with MajorTextAt x _ => Some x | _ => None end) ms)
  end.

(** The estimated width of the label at the left edge. *)
Definition widthText (leftText : string) (majorCharWidth : option Q) : Q :=
  (inject_Z (Z.of_nat (String.length leftText)) * num_or majorCharWidth 10 + 10)%Q.

Definition left_fits (widthText : Q) (xFirstMajorLabel : option Q) : bool :=
  match xFirstMajorLabel with
  | None => true
  | Some x => Qlt_bool widthText x
  end.

(** The mark of the left edge, if any. *)
Definition left_marks (major : bool) (c : Conversion) (p : Props) (step : Step)
    (xFirstMajorLabel : option Q) : list mark :=
  let leftText := getLabelMajor step (Some (Date_new (0 / scale c + offset c))) in
  if major && left_fits (widthText leftText (majorCharWidth p)) xFirstMajorLabel
  then [MajorTextAt 0 leftText]
  else [].

(** The state after the end-of-cycle cleanup of one retired list. *)
Fixpoint drained (k : kind) (pending : list handle) (s : State Step) : State Step :=
  match pending with
  | [] => s
  | elem :: pending =>
      let s := set_dom (set_retired k (rev pending) (dom s)) s in
      drained k pending
        (if member elem (frameChildren s)
         then set_frameChildren (without elem (frameChildren s)) s
         else s)
  end.

Definition swept (k : kind) (s : State Step) : State Step :=
  drained k (rev (retired k (dom s))) s.

(** The conversion [_updateConversion] computes for the range [r]. *)
Definition converted (r : arg) (s : State Step) : Conversion :=
  match conversion_method r with
  | Some conversion => conversion (width s)
  | None => Range_conversion (prop RangeObj.start r) (prop RangeObj.end_ r) (width s)
  end.

(** The cursor handed out by [new TimeStep(..)] in [_repaintLabels], after
    [first()]. *)
Definition cursor (r : arg) (s : State Step) : Step :=
  let c := converted r s in
  let t5 := Date_new (num_or (minorCharWidth (props s)) 10 * 5 / scale c + offset c) in
  let t0 := Date_new (0 / scale c + offset c) in
  first (TimeStep (Date_new (convert_Number (prop RangeObj.start r)))
                  (Date_new (convert_Number (prop RangeObj.end_ r)))
                  (valueOf t5 - valueOf t0)%Q).

(** The ticks of a cycle and all its marks: those of the loop, then the
    label of the left edge. *)
Definition cycle_ticks (r : arg) (s : State Step) : list Step :=
  visited 1000 (cursor r s).

Definition cycle_loop_marks (r : arg) (s : State Step) : list mark :=
  loop_marks (shows showMinorLabels s) (shows showMajorLabels s) (converted r s)
    (cycle_ticks r s).

Definition cycle_left_marks (r : arg) (s : State Step) : list mark :=
  left_marks (shows showMajorLabels s) (converted r s) (props s)
    (stopped 1000 (cursor r s)) (first_major None (cycle_loop_marks r s)).

Definition cycle_marks (r : arg) (s : State Step) : list mark :=
  cycle_loop_marks r s ++ cycle_left_marks r s.

Definition sweep (s : State Step) : State Step :=
  swept MinorText (swept MinorLine (swept MajorText (swept MajorLine s))).

(** The state after [_repaintLabels], for the range [r]. *)
Definition relabelled (r : arg) (s : State Step) : State Step :=
  sweep
    (places (option_of orientation (options s)) (cycle_marks r s)
       (set_step (Some (stopped 1000 (cursor r s)))
          (set_dom (retire (dom s))
             (set_conversion (Some (converted r s)) s)))).

(** *** The stages of [repaint] *)

(** The frame, created if need be. *)
Definition framed (s : State Step) : handle * State Step :=
  match frame s with
  | Some f => (f, s)
  | None =>
      (length (elems s),
       set_frame (Some (length (elems s))) (set_elems (elems s ++ [blank]) s))
  end.

(** A measuring probe, and the state after measuring with it. *)
Definition probe (c : string) : Element :=
  with_nodeValue "0" (with_className c blank).

Definition probed (c : string) (s : State Step) : State Step :=
  let measure := length (elems s) in
  set_frameChildren (without measure (appended measure (frameChildren s)))
    (set_elems (elems s ++ [probe c]) s).

Definition measured (host : Host) (s : State Step) : State Step :=
  let s1 :=
    match minorCharHeight (props s) with
    | Some _ => s
    | None =>
        set_props
          (set_minorCharWidth (Some (clientWidth host "text minor measure"))
             (set_minorCharHeight (Some (clientHeight host "text minor measure"))
                (props s)))
          (probed "text minor measure" s)
    end in
  match majorCharHeight (props s1) with
  | Some _ => s1
  | None =>
      set_props
        (set_majorCharWidth (Some (clientWidth host "text major measure"))
           (set_majorCharHeight (Some (clientHeight host "text major measure"))
              (props s1)))
        (probed "text major measure" s1)
  end.

(** The sizes derived from the glyph sizes and the parent's height. *)
Definition sized (host : Host) (s : State Step) : State Step :=
  let minor := if shows showMinorLabels s then minorCharHeight (props s) else Some 0%Q in
  let major := if shows showMajorLabels s then majorCharHeight (props s) else Some 0%Q in
  let h := num_add minor major in
  set_props
    (set_majorLineWidth (Some 1%Q)
       (set_majorLineHeight (num_add (Some (parentHeight host)) h)
          (set_minorLineWidth (Some 1%Q)
             (set_minorLineHeight (num_add (Some (parentHeight host)) minor)
                (set_majorLabelHeight major
                   (set_minorLabelHeight minor (props s)))))))
    (set_height h s).

(** The style of the frame. *)
Definition frame_style (s : State Step) : Style.t :=
  if is_top (option_of orientation (options s))
  then {| Style.top := css_lit "0"; Style.bottom := css_empty;
          Style.left := css_lit "0";
          Style.width := asSize (optWidth (options s)) "100%";
          Style.height := px (height s) |}
  else {| Style.top := css_empty; Style.bottom := css_lit "0";
          Style.left := css_lit "0";
          Style.width := asSize (optWidth (options s)) "100%";
          Style.height := px (height s) |}.

(** The state in which [_repaintLabels] starts: the frame [f] exists, has
    its class and is attached; sizes are known; the frame has been taken
    offline and styled. *)
Definition attached (host : Host) (f : handle) (s : State Step) : State Step :=
  let s := set_width (Some (offsetWidth host))
             (set_elems (alter (with_className frame_cls) f (elems s)) s) in
  if member f (containerChildren s) then s
  else set_containerChildren (appended f (containerChildren s)) s.

Definition offline (f : handle) (s : State Step) : State Step :=
  set_elems (alter (with_style (fun _ => frame_style s)) f (elems s))
    (set_containerChildren (without f (containerChildren s)) s).

Definition prepared (host : Host) (s : State Step) : State Step :=
  let (f, s) := framed s in
  offline f (sized host (measured host (attached host f s))).

(** The state after [_repaintLine] when the line is shown. *)
Definition line_style (s : State Step) (st : Style.t) : Style.t :=
  anchored (option_of orientation (options s)) (px (height s)) st.

Definition relined (s : State Step) : State Step :=
  if shows showMinorLabels s || shows showMajorLabels s
  then
    match line (dom s) with
    | Some l =>
        set_elems (alter (with_style (line_style s)) l (elems s))
          (set_frameChildren (appended l (without l (frameChildren s))) s)
    | None =>
        let l := length (elems s) in
        set_elems (elems s ++ [with_style (line_style s) (with_className line_cls blank)])
          (set_dom (set_line (Some l) (dom s))
             (set_frameChildren (appended l (frameChildren s)) s))
    end
  else s.

(** Putting the frame [f] back where it was. *)
Definition online (f : handle) (beforeChild : option handle) (s : State Step)
    : State Step :=
  match beforeChild with
  | Some b => set_containerChildren (insertedBefore f b (containerChildren s)) s
  | None => set_containerChildren (appended f (containerChildren s)) s
  end.

(** Where [online] puts the frame [f], taken out of the children [l] of the
    container, back in. *)
Definition restored (f : handle) (l : list handle) : list handle :=
  match nextSibling f l with
  | Some b => insertedBefore f b (without f l)
  | None => appended f (without f l)
  end.

(** All retired elements back in their pools. *)
Definition revived (d : Dom) : Dom :=
  {| majorLines := majorLines d ++ redundant.majorLines (redundant d);
     majorTexts := majorTexts d ++ redundant.majorTexts (redundant d);
     minorLines := minorLines d ++ redundant.minorLines (redundant d);
     minorTexts := minorTexts d ++ redundant.minorTexts (redundant d);
     redundant := {| redundant.majorLines := []; redundant.majorTexts := [];
                     redundant.minorLines := []; redundant.minorTexts := [] |};
     line := line d |}.

(** The state after a repaint that completes, for the range [r]. *)
Definition repainted (host : Host) (r : arg) (s : State Step) : State Step :=
  let f := fst (framed s) in
  let before :=
    nextSibling f (containerChildren (attached host f (snd (framed s)))) in
  online f before (relined (relabelled r (prepared host s))).

End Layout.

(** ** Live elements and the pool invariant *)

Section Invariants.

Context {Step : Type}.

(** The class of the element behind a handle. *)
Definition class_of (els : list Element) (h : handle) : option string :=
  className <$> els !! h.

(** Deciding the class of an element by comparing class names. *)
#[global] Instance class_of_dec (els : list Element) (h : handle) (c : string) :
  Decision (class_of els h = Some c).
Proof.
  unfold class_of.
  refine (match els !! h as o return Decision (className <$> o = Some c) with
          | Some e =>
              (if String.eqb (className e) c as b
                 return String.eqb (className e) c = b -> _
               then fun E => left _
               else fun E => right _) eq_refl
          | None => right _
          end).
  - apply String.eqb_eq in E. cbn. now rewrite E.
  - apply String.eqb_neq in E. cbn. congruence.
  - discriminate.
Defined.

(** The live elements of a kind: the children of the frame that carry the
    class of the kind.  An element is created as a child of the frame and
    leaves it only when the cleanup destroys it. *)
Definition live (k : kind) (s : State Step) : list handle :=
  filter (fun h => class_of (elems s) h = Some (cls k)) (frameChildren s).

(** Where an element sits, and what it says. *)
Definition left_of (s : State Step) (h : handle) : option css :=
  (fun e => Style.left (style e)) <$> elems s !! h.

Definition text_of (s : State Step) (h : handle) : option string :=
  nodeValue <$> elems s !! h.

Definition all_active (d : Dom) : list handle :=
  majorLines d ++ majorTexts d ++ minorLines d ++ minorTexts d.

Definition all_retired (d : Dom) : list handle :=
  redundant.majorLines (redundant d) ++ redundant.majorTexts (redundant d) ++
  redundant.minorLines (redundant d) ++ redundant.minorTexts (redundant d).

Definition line_list (d : Dom) : list handle :=
  match line d with Some l => [l] | None => [] end.

Definition pooled (d : Dom) : list handle :=
  all_active d ++ all_retired d ++ line_list d.

(** The children of the frame are exactly the elements of the pools and the
    axis line, each once, and each of the class of its kind. *)
Record pool_ok (s : State Step) : Prop := {
  pool_children : frameChildren s ≡ₚ pooled (dom s);
  pool_NoDup : NoDup (frameChildren s);
  pool_class : forall k h,
    h ∈ active k (dom s) ++ retired k (dom s) ->
    class_of (elems s) h = Some (cls k);
  pool_line : forall l,
    line (dom s) = Some l -> class_of (elems s) l = Some line_cls
}.

(** The invariant between two repaints. *)
Record wf (s : State Step) : Prop := {
  wf_pool : pool_ok s;
  wf_retired : all_retired (dom s) = [];
  wf_frame : forall f, frame s = Some f -> class_of (elems s) f = Some frame_cls;
  wf_container : NoDup (containerChildren s)
}.

(** The element behind [h] in [s] carries the mark [m]. *)
Definition dressed (o : option string) (s : State Step) (h : handle) (m : mark) : Prop :=
  exists e, elems s !! h = Some e /\ dress o (props s) m e = e.

(** The handle [place] uses. *)
Definition chosen (m : mark) (s : State Step) : handle :=
  match retired (kind_of m) (dom s) with
  | h :: _ => h
  | [] => length (elems s)
  end.

(** When does a repaint complete? *)
Definition can_attach (host : Host) (s : State Step) : Prop :=
  member (fst (framed s)) (containerChildren s) = true \/
  (parent s = true /\ getContainer host = true).

Definition can_hide (s : State Step) : Prop :=
  shows showMinorLabels s || shows showMajorLabels s = false -> line (dom s) = None.

(** What is known when [_repaintLabels] starts. *)
Record ready (host : Host) (s p : State Step) : Prop := {
  ready_pool : pool_ok p;
  ready_retired : all_retired (dom p) = [];
  ready_frame : frame p = Some (fst (framed s));
  ready_class : class_of (elems p) (fst (framed s)) = Some frame_cls;
  ready_dom : dom p = dom s;
  ready_frameChildren : frameChildren p = frameChildren s;
  ready_options : options p = options s;
  ready_range : range p = range s;
  ready_parent : parent p = parent s;
  ready_width : width p = Some (offsetWidth host);
  ready_classes : forall h,
    h ∈ frameChildren s -> class_of (elems p) h = class_of (elems s) h;
  ready_container : NoDup (containerChildren p);
  ready_offline : fst (framed s) ∉ containerChildren p
}.

(** A state that a completed repaint for the range [r], under the host
    readings [host], has left behind. *)
Record settled `{StepOps : TimeStepOps Step} `{U : Util}
    (host : Host) (r : arg) (s : State Step) : Prop := {
  settled_frame : exists f e,
    frame s = Some f /\ member f (containerChildren s) = true /\
    elems s !! f = Some e /\ className e = frame_cls /\ style e = frame_style s;
  settled_width : width s = Some (offsetWidth host);
  settled_parent : parent s = true;
  settled_range : range s = Some r;
  settled_measured :
    is_Some (minorCharHeight (props s)) /\ is_Some (majorCharHeight (props s));
  settled_sized :
    props s = props (sized host s) /\ height s = height (sized host s);
  settled_conversion : conversion s = Some (converted r s);
  settled_step : step s = Some (stopped 1000 (cursor r s));
  settled_painted : forall k,
    Forall2 (dressed (option_of orientation (options s)) s)
      (active k (dom s)) (of_kind k (cycle_marks r s));
  settled_line :
    if shows showMinorLabels s || shows showMajorLabels s
    then (exists l X e,
            line (dom s) = Some l /\ frameChildren s = X ++ [l] /\ (l ∉ X) /\
            elems s !! l = Some e /\ line_style s (style e) = style e)
    else (line (dom s) = None)
}.

End Invariants.

(** ** Concrete axes *)

(** A range of five ticks, every other one major, on a thousand pixels. *)
Definition five_ticks : State Demo.Cursor :=
  final (setRange (Demo.between 1000 1100) (Demo.axis None)).

(** The axis of [five_ticks] in the middle of a cycle: prepared for
    [_repaintLabels], with the conversion of the range in effect and the
    cursor on the major tick in the middle of the range. *)
Definition mid_cycle : State Demo.Cursor :=
  let p := prepared (U := Demo.util) Demo.host five_ticks in
  set_step
    (Some {| Demo.at_ := 1050; Demo.from := 1000; Demo.until := 1100;
             Demo.by_ := 25; Demo.majorEvery := 50 |})
    (set_conversion (Some {| scale := 10; offset := 1000 |}) p).

(** The axis of five ticks after one repaint. *)
Definition five_ticks_painted : State Demo.Cursor :=
  final (repaint (StepOps := Demo.ops 25 50) (U := Demo.util) Demo.host five_ticks).

(** The painted axis with both kinds of labels switched off since. *)
Definition labels_hidden : State Demo.Cursor :=
  set_options (Demo.options false false) five_ticks_painted.

(** ** Outcomes of [repaint] *)

Section Outcomes.

Context {Step : Type} `{StepOps : TimeStepOps Step} `{U : Util}.

(** The state in which [repaint] looks for the parent of the frame: the
    frame exists and carries its class, and the width has been read. *)
Definition entered (host : Host) (s : State Step) : State Step :=
  let (f, s0) := framed s in
  set_width (Some (offsetWidth host))
    (set_elems (alter (with_className frame_cls) f (elems s0)) s0).

(** The states an axis can be in: built by the constructor in a document
    whose container lists no child twice, then driven by [setRange], changes
    of the options and calls of [repaint], whatever their outcome and
    whatever the host reports. *)
Inductive reachable : State Step -> Prop :=
| reachable_new document container parent options :
    NoDup container -> reachable (TimeAxis document container parent options)
| reachable_setRange s range :
    reachable s -> reachable (final (setRange range s))
| reachable_setOptions s o :
    reachable s -> reachable (set_options o s)
| reachable_repaint host s :
    reachable s -> reachable (final (repaint host s)).

End Outcomes.

(** A host whose parent has no container element. *)
Definition bare_host : Host :=
  {| offsetWidth := 1000;
     getContainer := false;
     parentHeight := 300;
     clientHeight := fun _ => 14%Q;
     clientWidth := fun _ => 6%Q |}.

(** The painted axis of five ticks with its range cut to three ticks, and
    the same after the next repaint. *)
Definition three_ticks : State Demo.Cursor :=
  final (setRange (Demo.between 1000 1050) five_ticks_painted).

Definition three_ticks_painted : State Demo.Cursor :=
  final (repaint (StepOps := Demo.ops 25 50) (U := Demo.util) Demo.host three_ticks).

(** The painted axis of five ticks with the minor labels switched off, and
    the same after the next repaint. *)
Definition minor_hidden : State Demo.Cursor :=
  set_options (Demo.options false true) five_ticks_painted.

Definition minor_hidden_painted : State Demo.Cursor :=
  final (repaint (StepOps := Demo.ops 25 50) (U := Demo.util) Demo.host minor_hidden).

(** A host whose probes measure nothing, as in a container that is not
    displayed; and the axis of five ticks in the middle of a cycle under
    that host, with the conversion of the range in effect. *)
Definition blind_host : Host :=
  {| offsetWidth := 1000;
     getContainer := true;
     parentHeight := 300;
     clientHeight := fun _ => 0%Q;
     clientWidth := fun _ => 0%Q |}.

Definition mid_cycle_blind : State Demo.Cursor :=
  set_conversion (Some {| scale := 10; offset := 1000 |})
    (prepared (U := Demo.util) blind_host five_ticks).

(** ** The conversions in binary64

    Elsewhere the arithmetic on Numbers is taken as exact.  For the round
    trip between screen and time the rounding matters: here every operation
    rounds its exact result to the nearest double, ties to even, with
    gradual underflow.  A Number that is not finite ([NaN], an infinity) is
    [None].  Overflow is not modelled: beyond the largest double the source
    yields an infinity, this model a finite number. *)

From Stdlib Require Import Qpower.

Definition pow2 (e : Z) : Q := (2 ^ e)%Q.

(** The exponent of [x]: [2 ^ ilog2 x <= |x| < 2 ^ (ilog2 x + 1)]. *)
Definition ilog2 (x : Q) : Z :=
  let k := (Z.log2 (Z.abs (Qnum x)) - Z.log2 (Zpos (Qden x)))%Z in
  if Qle_bool (pow2 k) (Qabs x) then k else (k - 1)%Z.

(** The nearest integer, ties to even. *)
Definition round_even (m : Q) : Z :=
  let f := Qfloor m in
  match Qcompare (m - inject_Z f) (1 # 2) with
  | Lt => f
  | Gt => (f + 1)%Z
  | Eq => if Z.even f then f else (f + 1)%Z
  end.

(** The nearest double: 53 significant bits, the exponent not below -1022. *)
Definition double (x : Q) : Q :=
  if Qeq_bool x 0 then 0%Q
  else
    let quantum := pow2 (Z.max (ilog2 x) (-1022) - 52) in
    (inject_Z (round_even (x / quantum)) * quantum)%Q.

Definition unit_roundoff : Q := pow2 (-53).
Definition least_error : Q := pow2 (-1075).

(** The four operations on Numbers. *)
Definition plus64 (a b : option Q) : option Q :=
  match a, b with
  | Some a, Some b => Some (double (a + b))
  | _, _ => None
  end.

Definition minus64 (a b : option Q) : option Q :=
  match a, b with
  | Some a, Some b => Some (double (a - b))
  | _, _ => None
  end.

Definition times64 (a b : option Q) : option Q :=
  match a, b with
  | Some a, Some b => Some (double (a * b))
  | _, _ => None
  end.

(** [a / b]: a division by zero gives [NaN] or an infinity. *)
Definition div64 (a b : option Q) : option Q :=
  match a, b with
  | Some a, Some b => if Qeq_bool b 0 then None else Some (double (a / b))
  | _, _ => None
  end.

(** [new Date(v)] with TimeClip: an Invalid Date ([None]) for a Number that
    is not finite or beyond 8.64e15 milliseconds. *)
Definition Date64 (v : option Q) : option Date :=
  match v with
  | Some v => if Qle_bool (Qabs v) 8640000000000000 then Some (Date_new v) else None
  | None => None
  end.

(** [toTime] and [toScreen], lines 71-86, with this arithmetic;
    [d.valueOf()] of an Invalid Date is [NaN]. *)
Definition toTime64 {Step} (x : option Q) : M Step (option Date) :=
  conversion <- gets conversion ;;
  match conversion with
  | None => throw null_conversion
  | Some conversion =>
      ret (Date64 (plus64 (div64 x (Some (scale conversion)))
                          (Some (offset conversion))))
  end.

Definition toScreen64 {Step} (time : option Date) : M Step (option Q) :=
  conversion <- gets conversion ;;
  match conversion with
  | None => throw null_conversion
  | Some conversion =>
      ret (times64 (minus64 (valueOf <$> time) (Some (offset conversion)))
                   (Some (scale conversion)))
  end.

(** Twelve milliseconds, from instant 1 to instant 13, on a thousand
    pixels: the scale is the double nearest to [1000 / 12]. *)
Definition twelve_ms : State Demo.Cursor :=
  set_conversion (Some {| scale := double (1000 / 12); offset := 1 |}) (Demo.axis None).
(** * Properties *)

(** ** Running computations step by step *)

Section Running.

Context {Step : Type}.

Implicit Types (s : State Step).

Lemma run_bind {A B C} (m : M Step A) (k : A -> M Step B) (k' : B -> M Step C) s :
  bind (bind m k) k' s = bind m (fun a => bind (k a) k') s.
Proof. unfold bind. now destruct (m s). Qed.

Lemma run_ret {A B} (a : A) (k : A -> M Step B) s : bind (ret a) k s = k a s.
Proof. reflexivity. Qed.

Lemma run_gets {A B} (f : State Step -> A) (k : A -> M Step B) s :
  bind (gets f) k s = k (f s) s.
Proof. reflexivity. Qed.

Lemma run_modify {B} (f : State Step -> State Step) (k : unit -> M Step B) s :
  bind (modify f) k s = k tt (f s).
Proof. reflexivity. Qed.

Lemma run_update {B} h (f : Element -> Element) (k : unit -> M Step B) s :
  bind (update h f) k s = k tt (set_elems (alter f h (elems s)) s).
Proof. reflexivity. Qed.

Lemma run_createElement {B} (k : handle -> M Step B) s :
  bind createElement k s = k (length (elems s)) (set_elems (elems s ++ [blank]) s).
Proof. reflexivity. Qed.

Lemma run_push {B} kd elem (k : unit -> M Step B) s :
  bind (push kd elem) k s =
  k tt (set_dom (set_active kd (active kd (dom s) ++ [elem]) (dom s)) s).
Proof. reflexivity. Qed.

Lemma run_getOption {A B} (name : Options -> option A) (k : option A -> M Step B) s :
  bind (getOption name) k s =
  k (option_of name (options s)) s.
Proof. reflexivity. Qed.

Lemma run_throw {A B} e (k : A -> M Step B) s : bind (throw e) k s = Throw e s.
Proof. reflexivity. Qed.

End Running.

Ltac fields :=
  cbn [elems frameChildren containerChildren parent frame dom props options
       conversion range step width height
       set_elems set_frameChildren set_containerChildren set_frame set_dom
       set_props set_options set_conversion set_range set_step set_width
       set_height
       lineTop minorCharHeight minorCharWidth majorCharHeight majorCharWidth
       minorLabelHeight majorLabelHeight minorLineHeight minorLineWidth
       majorLineHeight majorLineWidth
       set_minorCharHeight set_minorCharWidth set_majorCharHeight
       set_majorCharWidth set_minorLabelHeight set_majorLabelHeight
       set_minorLineHeight set_minorLineWidth set_majorLineHeight
       set_majorLineWidth].

Lemma state_eq {Step} (s s' : State Step) :
  elems s = elems s' ->
  frameChildren s = frameChildren s' ->
  containerChildren s = containerChildren s' ->
  parent s = parent s' ->
  frame s = frame s' ->
  dom s = dom s' ->
  props s = props s' ->
  options s = options s' ->
  conversion s = conversion s' ->
  range s = range s' ->
  step s = step s' ->
  width s = width s' ->
  height s = height s' ->
  s = s'.
Proof. destruct s, s'; cbn; intros; subst; reflexivity. Qed.

Ltac same_state := apply state_eq; fields; try reflexivity.

Tactic Notation "fields" "in" hyp(H) :=
  cbn [elems frameChildren containerChildren parent frame dom props options
       conversion range step width height
       set_elems set_frameChildren set_containerChildren set_frame set_dom
       set_props set_options set_conversion set_range set_step set_width
       set_height
       lineTop minorCharHeight minorCharWidth majorCharHeight majorCharWidth
       minorLabelHeight majorLabelHeight minorLineHeight minorLineWidth
       majorLineHeight majorLineWidth
       set_minorCharHeight set_minorCharWidth set_majorCharHeight
       set_majorCharWidth set_minorLabelHeight set_majorLabelHeight
       set_minorLineHeight set_minorLineWidth set_majorLineHeight
       set_majorLineWidth] in H.

Ltac run1 :=
  first [ rewrite run_bind | rewrite run_ret | rewrite run_gets
        | rewrite run_modify | rewrite run_update | rewrite run_createElement
        | rewrite run_push | rewrite run_getOption | rewrite run_throw ].

Ltac run := repeat (run1; cbv beta iota; fields); fields.

(** ** setRange *)

Lemma setRange_ok {Step} (range : arg) (s : State Step) :
  instanceof_Range range = true \/
  (truthy (prop RangeObj.start range) = true /\ truthy (prop RangeObj.end_ range) = true) ->
  setRange range s = Ok tt (set_range (Some range) s).
Proof.
  unfold setRange.
  intros [-> | [Hs He]]; [reflexivity |].
  rewrite Hs, He.
  destruct range as [v | o]; [destruct v; discriminate Hs |].
  cbn. now rewrite andb_false_r.
Qed.

(** C2: an object that exposes both [start] and [end], with the epoch as
    numeric start, is refused with a TypeError and nothing is stored. *)
Theorem setRange_epoch_start_TypeError {Step} (s : State Step) :
  let range := Demo.between 0 1000 in
  exposes RangeObj.start range = true /\
  exposes RangeObj.end_ range = true /\
  setRange range s =
    Throw (TypeError
      "Range must be an instance of Range, or an object containing start and end.") s.
Proof. repeat split. Qed.

(** ** toTime and toScreen *)

Lemma bind_Ok {Step A B} (m : M Step A) (k : A -> M Step B) s a s' :
  m s = Ok a s' -> bind m k s = k a s'.
Proof. unfold bind. now intros ->. Qed.

Lemma bind_Throw {Step A B} (m : M Step A) (k : A -> M Step B) s e s' :
  m s = Throw e s' -> bind m k s = Throw e s'.
Proof. unfold bind. now intros ->. Qed.

Lemma toTime_Ok {Step} (s : State Step) c x :
  conversion s = Some c ->
  toTime x s = Ok (Date_new (x / scale c + offset c)) s.
Proof. unfold toTime, bind, gets. now intros ->. Qed.

Lemma toScreen_Ok {Step} (s : State Step) c time :
  conversion s = Some c ->
  toScreen time s = Ok ((valueOf time - offset c) * scale c)%Q s.
Proof. unfold toScreen, bind, gets. now intros ->. Qed.

Lemma unpainted_conversion {Step} (s : State Step) :
  unpainted s -> conversion s = None.
Proof.
  induction 1 as [| s range _ IH | s o _ IH]; try assumption; try reflexivity.
  unfold setRange.
  destruct (_ && _); assumption.
Qed.

(** C10: before any repaint the stored conversion is null, and both
    conversions fail with the TypeError of a null dereference: they neither
    return a value nor raise the error [No range configured]. *)
Theorem toTime_toScreen_before_repaint {Step} (s : State Step) (x : Q) (time : Date) :
  unpainted s ->
  conversion s = None /\
  toTime x s = Throw null_conversion s /\
  toScreen time s = Throw null_conversion s /\
  null_conversion <> Error "No range configured".
Proof.
  intros Hs. apply unpainted_conversion in Hs.
  unfold toTime, toScreen, bind, gets. rewrite Hs.
  repeat split. discriminate.
Qed.

Lemma toTime_toScreen_before_repaint_witness :
  let s := final (setRange (Demo.between 5 1000) (Demo.axis None)) in
  unpainted s /\
  toTime 10 s = Throw null_conversion s /\
  toScreen 7%Z s = Throw null_conversion s.
Proof.
  intros s.
  assert (Hs : unpainted s) by (apply unpainted_setRange, unpainted_new).
  split; [exact Hs |].
  split; apply (toTime_toScreen_before_repaint s 10 7%Z Hs).
Defined.

(** *** Dates are whole milliseconds *)

Section RoundTrip.
Local Open Scope Q_scope.

Lemma Date_new_comp (v w : Q) : v == w -> Date_new v = Date_new w.
Proof.
  intros E. unfold Date_new.
  assert (Hb : Qle_bool 0 v = Qle_bool 0 w).
  { apply eq_true_iff_eq. rewrite !Qle_bool_iff. now rewrite E. }
  rewrite Hb. destruct (Qle_bool 0 w).
  - now apply Qfloor_comp.
  - now apply Qceiling_comp.
Qed.

Lemma Date_new_whole (d : Z) : Date_new (inject_Z d) = d.
Proof.
  unfold Date_new. destruct (Qle_bool 0 (inject_Z d)).
  - apply Qfloor_Z.
  - apply Qceiling_Z.
Qed.

Lemma Date_new_near (v : Q) : Qabs (inject_Z (Date_new v) - v) < 1.
Proof.
  unfold Date_new.
  apply Qabs_Qlt_condition.
  destruct (Qle_bool 0 v).
  - pose proof (Qfloor_le v). pose proof (Qlt_floor v).
    rewrite inject_Z_plus in H0. change (inject_Z 1) with 1 in H0. set (f := inject_Z (Qfloor v)) in *. clearbody f. split; lra.
  - pose proof (Qle_ceiling v). pose proof (Qceiling_lt v).
    unfold Z.sub in H0. rewrite inject_Z_plus in H0. change (inject_Z (- (1))) with (- (1))%Q in H0. set (f := inject_Z (Qceiling v)) in *. clearbody f. split; lra.
Qed.

End RoundTrip.

(** *** The round trip in binary64 *)

Section RoundTrip64.
Local Open Scope Q_scope.

Lemma pow2_pos e : 0 < pow2 e.
Proof. apply Qpower_0_lt. reflexivity. Qed.

Lemma pow2_plus a b : pow2 (a + b) == pow2 a * pow2 b.
Proof. apply Qpower_plus. discriminate. Qed.

Lemma round_even_near m : Qabs (inject_Z (round_even m) - m) <= 1 # 2.
Proof.
  unfold round_even.
  pose proof (Qfloor_le m) as Hlo. pose proof (Qlt_floor m) as Hhi.
  rewrite inject_Z_plus in Hhi. change (inject_Z 1) with 1 in Hhi.
  set (f := Qfloor m) in *.
  apply Qabs_Qle_condition.
  destruct (Qcompare_spec (m - inject_Z f) (1 # 2)) as [E | E | E].
  - destruct (Z.even f); rewrite ?inject_Z_plus; change (inject_Z 1) with 1;
      set (g := inject_Z f) in *; clearbody g; split; lra.
  - set (g := inject_Z f) in *; clearbody g; split; lra.
  - rewrite inject_Z_plus. change (inject_Z 1) with 1.
    set (g := inject_Z f) in *; clearbody g; split; lra.
Qed.

Lemma Qabs_num_den (x : Q) : Qabs x == inject_Z (Z.abs (Qnum x)) / inject_Z (Zpos (Qden x)).
Proof.
  destruct x as [n d]. unfold Qabs. cbn [Qnum Qden].
  rewrite (Qmake_Qdiv (Z.abs n) d). reflexivity.
Qed.

Lemma ilog2_le (x : Q) : ~ x == 0 -> pow2 (ilog2 x) <= Qabs x.
Proof.
  intros Hx. unfold ilog2.
  set (n := Z.abs (Qnum x)). set (d := Zpos (Qden x)).
  destruct (Qle_bool (pow2 (Z.log2 n - Z.log2 d)) (Qabs x)) eqn:E.
  - now apply Qle_bool_iff.
  - clear E.
    assert (Hn : (0 < n)%Z).
    { unfold n. destruct x as [[| p | p] q]; cbn; try lia. exfalso. apply Hx. reflexivity. }
    assert (Hd : (0 < d)%Z) by (unfold d; lia).
    destruct (Z.log2_spec n Hn) as [Hn1 _].
    destruct (Z.log2_spec d Hd) as [_ Hd2].
    pose proof (Z.log2_nonneg n) as Hln. pose proof (Z.log2_nonneg d) as Hld.
    rewrite Qabs_num_den. fold n. fold d.
    replace (Z.log2 n - Z.log2 d - 1)%Z with (Z.log2 n + - Z.succ (Z.log2 d))%Z by lia.
    rewrite pow2_plus. unfold pow2 at 2. rewrite Qpower_opp. fold (pow2 (Z.succ (Z.log2 d))).
    unfold pow2. rewrite <- !(Zpower_Qpower 2) by lia.
    apply Qle_shift_div_l; [now rewrite <- (Zlt_Qlt 0) |].
    assert (HA : 0 < inject_Z (2 ^ Z.log2 n))
      by (rewrite <- (Zlt_Qlt 0); apply Z.pow_pos_nonneg; lia).
    assert (HP : 0 < inject_Z (2 ^ Z.succ (Z.log2 d)))
      by (rewrite <- (Zlt_Qlt 0); apply Z.pow_pos_nonneg; lia).
    assert (HD : inject_Z d <= inject_Z (2 ^ Z.succ (Z.log2 d)))
      by (rewrite <- Zle_Qle; lia).
    assert (HD0 : 0 < inject_Z d) by (now rewrite <- (Zlt_Qlt 0)).
    assert (HN : inject_Z (2 ^ Z.log2 n) <= inject_Z n) by (now rewrite <- Zle_Qle).
    set (A := inject_Z (2 ^ Z.log2 n)) in *. set (P := inject_Z (2 ^ Z.succ (Z.log2 d))) in *.
    set (D := inject_Z d) in *. set (N := inject_Z n) in *.
    clearbody A P D N.
    assert (Hr : D / P <= 1) by (apply Qle_shift_div_r; lra).
    assert (E : A * / P * D == A * (D / P)) by (field; lra).
    rewrite E. nra.
Qed.

Lemma double_near (x : Q) :
  Qabs (double x - x) <= unit_roundoff * Qabs x + least_error.
Proof.
  unfold double.
  pose proof (pow2_pos (-1075)) as Heta. fold least_error in Heta.
  pose proof (pow2_pos (-53)) as Hu. fold unit_roundoff in Hu.
  pose proof (Qabs_nonneg x) as Hx0.
  destruct (Qeq_bool x 0) eqn:E.
  - apply Qeq_bool_iff in E.
    assert (E' : 0 - x == 0) by (rewrite E; reflexivity).
    rewrite E'. change (Qabs 0) with 0.
    set (ax := Qabs x) in *. clearbody ax.
    set (u := unit_roundoff) in *. set (eta := least_error) in *. clearbody u eta. nra.
  - assert (Hx : ~ x == 0) by (intros H; apply Qeq_bool_iff in H; congruence).
    set (e := Z.max (ilog2 x) (-1022)).
    pose proof (pow2_pos (e - 52)) as Hq.
    set (q := pow2 (e - 52)) in *.
    pose proof (round_even_near (x / q)) as Hr.
    set (r := inject_Z (round_even (x / q))) in *. clearbody r.
    assert (E1 : r * q - x == (r - x / q) * q) by (field; lra).
    rewrite E1, Qabs_Qmult, (Qabs_pos q) by lra.
    apply Qle_trans with ((1 # 2) * q).
    { apply Qmult_le_compat_r; [exact Hr | lra]. }
    unfold q, e.
    destruct (Z.max_spec (ilog2 x) (-1022)) as [[Hlt ->] | [Hle ->]].
    + change (-1022 - 52)%Z with (-1075 + 1)%Z. rewrite pow2_plus.
      fold least_error. change (pow2 1) with 2. nra.
    + replace (ilog2 x - 52)%Z with (ilog2 x + -53 + 1)%Z by lia.
      rewrite !pow2_plus. fold unit_roundoff. change (pow2 1) with 2.
      pose proof (ilog2_le x Hx) as Hl. pose proof (pow2_pos (ilog2 x)).
      set (p := pow2 (ilog2 x)) in *. clearbody p. nra.
Qed.

(** With magnitudes below [3 * 2^45 + 3] one operation is off by at most
    1/64. *)
Lemma double_step (v : Q) :
  Qabs v <= 105553116266499 -> Qabs (double v - v) <= 1 # 64.
Proof.
  intros Hv. apply (Qle_trans _ _ _ (double_near v)).
  apply Qle_trans with (unit_roundoff * 105553116266499 + least_error).
  - apply Qplus_le_l. apply Qmult_le_l; [apply pow2_pos | exact Hv].
  - apply Qle_bool_iff. vm_compute. reflexivity.
Qed.

Lemma times_step (a s : Q) :
  Qabs a <= 105553116266499 -> pow2 (-500) <= s ->
  Qabs (double (a * s) / s - a) <= 1 # 64.
Proof.
  intros Ha Hs.
  pose proof (pow2_pos (-500)) as Hp.
  assert (Hs0 : 0 < s) by lra.
  pose proof (double_near (a * s)) as Hn.
  rewrite Qabs_Qmult, (Qabs_pos s) in Hn by lra.
  assert (E : double (a * s) / s - a == (double (a * s) - a * s) / s) by (field; lra).
  rewrite E. unfold Qdiv. rewrite Qabs_Qmult, (Qabs_pos (/ s))
    by (apply Qlt_le_weak, Qinv_lt_0_compat, Hs0).
  apply Qle_shift_div_r; [exact Hs0 |].
  apply (Qle_trans _ _ _ Hn).
  assert (Heta : least_error <= (1 # 512) * pow2 (-500))
    by (apply Qle_bool_iff; vm_compute; reflexivity).
  assert (Hu : unit_roundoff * 105553116266499 <= 7 # 512)
    by (apply Qle_bool_iff; vm_compute; reflexivity).
  pose proof (pow2_pos (-53)) as Hu0. fold unit_roundoff in Hu0.
  pose proof (Qabs_nonneg a) as Ha0.
  set (aa := Qabs a) in *. set (u := unit_roundoff) in *. set (eta := least_error) in *.
  set (p := pow2 (-500)) in *. clearbody aa u eta p.
  assert (Hw : u * aa <= 7 # 512) by nra.
  assert (Hw0 : 0 <= u * aa) by nra.
  assert (E2 : u * (aa * s) == (u * aa) * s) by ring.
  rewrite E2. set (w := u * aa) in *. clearbody w. nra.
Qed.

Lemma Date_new_close (y : Q) (t : Z) :
  Qabs (y - inject_Z t) <= 1 # 16 -> (Z.abs (Date_new y - t) <= 1)%Z.
Proof.
  intros Hy. pose proof (Date_new_near y) as Hd.
  apply Qabs_Qle_condition in Hy as [Hy1 Hy2].
  apply Qabs_Qlt_condition in Hd as [Hd1 Hd2].
  assert (Hk : -(2) < inject_Z (Date_new y - t) /\ inject_Z (Date_new y - t) < 2).
  { unfold Z.sub. rewrite inject_Z_plus, inject_Z_opp.
    set (D := inject_Z (Date_new y)) in *. set (T := inject_Z t) in *.
    clearbody D T. split; lra. }
  destruct Hk as [Hk1 Hk2].
  change (-(2)) with (inject_Z (-2)) in Hk1. change 2 with (inject_Z 2) in Hk2.
  rewrite <- Zlt_Qlt in Hk1, Hk2. lia.
Qed.

Ltac bounds :=
  repeat match goal with
         | H : Qabs _ <= _ |- _ => apply Qabs_Qle_condition in H; destruct H
         | H : Qabs _ < _ |- _ => apply Qabs_Qlt_condition in H; destruct H
         end.

(** From an instant to the screen and back, as Numbers. *)
Lemma instant_back (t off s : Q) :
  Qabs t <= 35184372088832 -> Qabs off <= 35184372088832 -> pow2 (-500) <= s ->
  let y := double (double (double (double (t - off) * s) / s) + off) in
  Qabs (y - t) <= 1 # 16 /\ Qabs y <= 8640000000000000.
Proof.
  intros Ht Hoff Hs y. unfold y. clear y.
  set (a := double (t - off)).
  set (g := double (a * s) / s).
  set (b := double g).
  set (y := double (b + off)).
  bounds.
  assert (K1 : Qabs (a - (t - off)) <= 1 # 64)
    by (apply double_step, Qabs_Qle_condition; split; lra).
  assert (K2 : Qabs (g - a) <= 1 # 64).
  { apply times_step; [| exact Hs]. bounds. apply Qabs_Qle_condition. split; lra. }
  assert (K3 : Qabs (b - g) <= 1 # 64).
  { apply double_step. bounds. apply Qabs_Qle_condition. split; lra. }
  assert (K4 : Qabs (y - (b + off)) <= 1 # 64).
  { apply double_step. bounds. apply Qabs_Qle_condition. split; lra. }
  clearbody a g b y. bounds.
  split; apply Qabs_Qle_condition; split; lra.
Qed.

(** From a pixel to its instant and back, as Numbers. *)
Lemma pixel_back (x off s : Q) :
  Qabs (x / s) <= 35184372088832 -> Qabs off <= 35184372088832 -> pow2 (-500) <= s ->
  let y := double (double (x / s) + off) in
  Qabs y <= 8640000000000000 /\
  Qabs (double (double (inject_Z (Date_new y) - off) * s) - x) < (17 # 16) * s.
Proof.
  intros Hx Hoff Hs y. unfold y. clear y.
  pose proof (pow2_pos (-500)) as Hp.
  assert (Hs0 : 0 < s) by lra.
  set (q := x / s) in *.
  set (b := double q).
  set (y := double (b + off)).
  pose proof (Date_new_near y) as Hd.
  set (T := inject_Z (Date_new y)) in *.
  set (a := double (T - off)).
  set (g := double (a * s) / s).
  bounds.
  assert (K1 : Qabs (b - q) <= 1 # 64)
    by (apply double_step, Qabs_Qle_condition; split; lra).
  assert (K2 : Qabs (y - (b + off)) <= 1 # 64).
  { apply double_step. bounds. apply Qabs_Qle_condition. split; lra. }
  assert (K3 : Qabs (a - (T - off)) <= 1 # 64).
  { apply double_step. bounds. apply Qabs_Qle_condition. split; lra. }
  assert (K4 : Qabs (g - a) <= 1 # 64).
  { apply times_step; [| exact Hs]. bounds. apply Qabs_Qle_condition. split; lra. }
  assert (E : double (a * s) - x == (g - q) * s) by (unfold g, q; field; lra).
  split.
  - clearbody q b y T a g. bounds. apply Qabs_Qle_condition. split; lra.
  - rewrite E, Qabs_Qmult, (Qabs_pos s) by lra.
    apply Qmult_lt_compat_r; [exact Hs0 |].
    clearbody q b y T a g. bounds. apply Qabs_Qlt_condition. split; lra.
Qed.

Lemma toScreen64_Ok {Step} (s : State Step) c time :
  conversion s = Some c ->
  toScreen64 (Some time) s
  = Ok (Some (double (double (valueOf time - offset c) * scale c))) s.
Proof. unfold toScreen64, bind, gets. now intros ->. Qed.

Lemma toTime64_Ok {Step} (s : State Step) c x :
  conversion s = Some c -> Qeq_bool (scale c) 0 = false ->
  toTime64 (Some x) s
  = Ok (Date64 (Some (double (double (x / scale c) + offset c)))) s.
Proof.
  unfold toTime64, bind, gets. intros -> Hs. cbn [div64 plus64]. now rewrite Hs.
Qed.

(** C6, as stated, fails in both directions.  Twelve milliseconds from
    instant 1 on a thousand pixels: instant 8 goes to the screen and comes
    back as instant 7.  Ten milliseconds on a thousand pixels, a scale of
    100 pixels per millisecond: pixel 50 becomes the Date at the start of
    the range (the half millisecond is cut off) and comes back as pixel 0. *)
Lemma roundtrip_binary64_counterexample :
  conversion twelve_ms = Some {| scale := double (1000 / 12); offset := 1 |} /\
  (x <- toScreen64 (Some 8%Z) ;; toTime64 x) twelve_ms = Ok (Some 7%Z) twelve_ms /\
  conversion zoomed_in = Some {| scale := 1000 / (1010 - 1000); offset := 1000 |} /\
  (time <- toTime64 (Some 50) ;; toScreen64 time) zoomed_in = Ok (Some 0) zoomed_in.
Proof.
  split; [reflexivity |]. split; [vm_compute; reflexivity |].
  split; [reflexivity |]. vm_compute. reflexivity.
Qed.

(** C6, amended: in binary64, with a scale between [2^-500] and [2^500]
    and the offset within [2^45] milliseconds of the epoch, an instant
    within [2^45] milliseconds of the epoch comes back from its pixel
    position as a valid Date at most one millisecond off, and a pixel
    position whose instant lies in that range comes back from its Date less
    than 17/16 of the width of one millisecond off. *)
Theorem roundtrip_binary64 {Step} (s : State Step) (c : Conversion) :
  conversion s = Some c ->
  pow2 (-500) <= scale c <= pow2 500 ->
  Qabs (offset c) <= 35184372088832 ->
  (forall time : Date,
     (Z.abs time <= 35184372088832)%Z ->
     exists time',
       (x <- toScreen64 (Some time) ;; toTime64 x) s = Ok (Some time') s /\
       (Z.abs (time' - time) <= 1)%Z) /\
  (forall x : Q,
     Qabs (x / scale c) <= 35184372088832 ->
     exists x',
       (time <- toTime64 (Some x) ;; toScreen64 time) s = Ok (Some x') s /\
       Qabs (x' - x) < (17 # 16) * scale c).
Proof.
  intros Hc [Hs _] Hoff.
  pose proof (pow2_pos (-500)) as Hp.
  assert (Hs0 : Qeq_bool (scale c) 0 = false).
  { destruct (Qeq_bool (scale c) 0) eqn:E; [| reflexivity].
    apply Qeq_bool_iff in E. lra. }
  split.
  - intros time Ht.
    assert (Ht' : Qabs (valueOf time) <= 35184372088832).
    { unfold valueOf. change (Qabs (inject_Z time)) with (inject_Z (Z.abs time)).
      change 35184372088832 with (inject_Z 35184372088832). now rewrite <- Zle_Qle. }
    destruct (instant_back (valueOf time) (offset c) (scale c) Ht' Hoff Hs) as [Hy Hv].
    eexists. split.
    + rewrite (bind_Ok _ _ _ _ _ (toScreen64_Ok s c time Hc)).
      rewrite (toTime64_Ok s c _ Hc Hs0). cbn [Date64].
      apply Qle_bool_iff in Hv. rewrite Hv. reflexivity.
    + now apply Date_new_close.
  - intros x Hx.
    destruct (pixel_back x (offset c) (scale c) Hx Hoff Hs) as [Hv Hn].
    eexists. split.
    + rewrite (bind_Ok _ _ _ _ _ (toTime64_Ok s c x Hc Hs0)). cbn [Date64].
      apply Qle_bool_iff in Hv. rewrite Hv.
      apply (toScreen64_Ok s c _ Hc).
    + exact Hn.
Qed.

Lemma roundtrip_binary64_witness :
  (exists time',
     (x <- toScreen64 (Some 1007%Z) ;; toTime64 x) zoomed_in = Ok (Some time') zoomed_in /\
     (Z.abs (time' - 1007) <= 1)%Z) /\
  (exists x',
     (time <- toTime64 (Some 50) ;; toScreen64 time) zoomed_in = Ok (Some x') zoomed_in /\
     Qabs (x' - 50) < (17 # 16) * (1000 / (1010 - 1000))).
Proof.
  destruct (roundtrip_binary64 zoomed_in
              {| scale := 1000 / (1010 - 1000); offset := 1000 |}) as [Ht Hx].
  - reflexivity.
  - split; apply Qle_bool_iff; vm_compute; reflexivity.
  - apply Qle_bool_iff. vm_compute. reflexivity.
  - split.
    + apply (Ht 1007%Z). vm_compute. discriminate.
    + apply (Hx 50). apply Qle_bool_iff. vm_compute. reflexivity.
Defined.

End RoundTrip64.

(** ** Placing one element *)

Section Placing.

Context {Step : Type} `{StepOps : TimeStepOps Step} `{U : Util}.

Implicit Types (s : State Step) (m : mark) (k : kind) (h : handle).

Lemma run_shift_nil {B} k (c : option handle -> M Step B) s :
  retired k (dom s) = [] -> bind (shift k) c s = c None s.
Proof. unfold bind, shift. now intros ->. Qed.

Lemma run_shift_cons {B} k h r (c : option handle -> M Step B) s :
  retired k (dom s) = h :: r ->
  bind (shift k) c s = c (Some h) (set_dom (set_retired k r (dom s)) s).
Proof. unfold bind, shift. now intros ->. Qed.

Lemma run_frame_appendChild {B} f child (c : unit -> M Step B) s :
  frame s = Some f ->
  bind (frame_appendChild child) c s =
  c tt (set_frameChildren (appended child (frameChildren s)) s).
Proof. unfold frame_appendChild, bind, gets. now intros ->. Qed.

Lemma run_frame_removeChild {B} f child (c : unit -> M Step B) s :
  frame s = Some f ->
  member child (frameChildren s) = true ->
  bind (frame_removeChild (Some child)) c s =
  c tt (set_frameChildren (without child (frameChildren s)) s).
Proof. unfold frame_removeChild, bind, gets. now intros -> ->. Qed.

Lemma alter_new (f : Element -> Element) (l : list Element) (e : Element) :
  alter f (length l) (l ++ [e]) = l ++ [f e].
Proof.
  rewrite <- (Nat.add_0_r (length l)). apply (alter_app_r f l [e] 0).
Qed.

Ltac place_eq f Hf k :=
  unfold place, dress, anchored; cbn [kind_of];
  let E := fresh "E" in
  destruct (retired k (dom _)) as [| ? ?] eqn:E;
  [ rewrite (run_shift_nil _ _ _ E); run;
    rewrite (run_frame_appendChild f) by exact Hf; run
  | rewrite (run_shift_cons _ _ _ _ _ E); run ];
  (destruct (is_top _); run; unfold update, modify; fields;
   rewrite ?alter_new, ?list_alter_alter_eq; reflexivity).

Lemma _repaintMinorText_place s f x text o :
  frame s = Some f ->
  _repaintMinorText x text o s = Ok tt (place o (MinorTextAt x text) s).
Proof. intros Hf. unfold _repaintMinorText. place_eq f Hf MinorText. Qed.

Lemma _repaintMajorText_place s f x text o :
  frame s = Some f ->
  _repaintMajorText x text o s = Ok tt (place o (MajorTextAt x text) s).
Proof. intros Hf. unfold _repaintMajorText. place_eq f Hf MajorText. Qed.

Lemma _repaintMinorLine_place s f x o :
  frame s = Some f ->
  _repaintMinorLine x o s = Ok tt (place o (MinorLineAt x) s).
Proof. intros Hf. unfold _repaintMinorLine. place_eq f Hf MinorLine. Qed.

Lemma _repaintMajorLine_place s f x o :
  frame s = Some f ->
  _repaintMajorLine x o s = Ok tt (place o (MajorLineAt x) s).
Proof. intros Hf. unfold _repaintMajorLine. place_eq f Hf MajorLine. Qed.

End Placing.

(** ** The tick loop *)

Section Loop.

Context {Step : Type} `{StepOps : TimeStepOps Step} `{U : Util}.

Implicit Types (s : State Step) (m : mark) (k : kind) (h : handle).

Ltac place_field := intros; unfold place; destruct (retired _ _); reflexivity.

Lemma place_frame o m s : frame (place o m s) = frame s.
Proof. place_field. Qed.
Lemma place_conversion o m s : conversion (place o m s) = conversion s.
Proof. place_field. Qed.
Lemma place_options o m s : options (place o m s) = options s.
Proof. place_field. Qed.
Lemma place_props o m s : props (place o m s) = props s.
Proof. place_field. Qed.
Lemma place_step o m s : step (place o m s) = step s.
Proof. place_field. Qed.
Lemma place_range o m s : range (place o m s) = range s.
Proof. place_field. Qed.
Lemma place_width o m s : width (place o m s) = width s.
Proof. place_field. Qed.
Lemma place_height o m s : height (place o m s) = height s.
Proof. place_field. Qed.
Lemma place_parent o m s : parent (place o m s) = parent s.
Proof. place_field. Qed.
Lemma place_containerChildren o m s :
  containerChildren (place o m s) = containerChildren s.
Proof. place_field. Qed.
Lemma place_line o m s : line (dom (place o m s)) = line (dom s).
Proof. place_field. Qed.
Lemma place_set_step o m v s : place o m (set_step v s) = set_step v (place o m s).
Proof. place_field. Qed.

Ltac places_field L :=
  intros o ms; induction ms as [| m ms IH]; intros s;
  [reflexivity | cbn [places fold_left]; fold (places o ms (place o m s));
                 rewrite IH; apply L].

Lemma places_nil o s : places o [] s = s.
Proof. reflexivity. Qed.
Lemma places_cons o m ms s : places o (m :: ms) s = places o ms (place o m s).
Proof. reflexivity. Qed.
Lemma places_app o ms ms' s : places o (ms ++ ms') s = places o ms' (places o ms s).
Proof. unfold places. apply fold_left_app. Qed.

Lemma places_frame : forall o ms s, frame (places o ms s) = frame s.
Proof. places_field place_frame. Qed.
Lemma places_conversion : forall o ms s, conversion (places o ms s) = conversion s.
Proof. places_field place_conversion. Qed.
Lemma places_options : forall o ms s, options (places o ms s) = options s.
Proof. places_field place_options. Qed.
Lemma places_props : forall o ms s, props (places o ms s) = props s.
Proof. places_field place_props. Qed.
Lemma places_step : forall o ms s, step (places o ms s) = step s.
Proof. places_field place_step. Qed.
Lemma places_range : forall o ms s, range (places o ms s) = range s.
Proof. places_field place_range. Qed.
Lemma places_width : forall o ms s, width (places o ms s) = width s.
Proof. places_field place_width. Qed.
Lemma places_height : forall o ms s, height (places o ms s) = height s.
Proof. places_field place_height. Qed.
Lemma places_parent : forall o ms s, parent (places o ms s) = parent s.
Proof. places_field place_parent. Qed.
Lemma places_containerChildren : forall o ms s,
  containerChildren (places o ms s) = containerChildren s.
Proof. places_field place_containerChildren. Qed.
Lemma places_line : forall o ms s, line (dom (places o ms s)) = line (dom s).
Proof. places_field place_line. Qed.

Lemma places_set_step o ms v s :
  places o ms (set_step v s) = set_step v (places o ms s).
Proof.
  revert s. induction ms as [| m ms IH]; intros s; [reflexivity |].
  rewrite !places_cons, place_set_step. apply IH.
Qed.

Lemma places_shows o ms name s : shows name (places o ms s) = shows name s.
Proof. unfold shows. now rewrite places_options. Qed.

Lemma place_shows o m name s : shows name (place o m s) = shows name s.
Proof. unfold shows. now rewrite place_options. Qed.

Lemma set_step_same s : set_step (step s) s = s.
Proof. now destruct s. Qed.

Lemma set_step_twice v w s : set_step v (set_step w s) = set_step v s.
Proof. reflexivity. Qed.

(** One tick: the calls of the loop body are the marks of the tick. *)
Lemma run_toScreen {B} c time (k : Q -> M Step B) s :
  conversion s = Some c ->
  bind (toScreen time) k s = k ((valueOf time - offset c) * scale c)%Q s.
Proof. intros Hc. apply bind_Ok. now apply toScreen_Ok. Qed.

Lemma run_toTime {B} c x (k : Date -> M Step B) s :
  conversion s = Some c ->
  bind (toTime x) k s = k (Date_new (x / scale c + offset c)) s.
Proof. intros Hc. apply bind_Ok. now apply toTime_Ok. Qed.

Lemma first_major_app x0 ms ms' :
  first_major x0 (ms ++ ms') = first_major (first_major x0 ms) ms'.
Proof.
  destruct x0 as [x0 |]; [reflexivity |]. cbn [first_major].
  rewrite omap_app.
  destruct (omap _ ms) as [| x r]; reflexivity.
Qed.

Lemma run_place_MinorText {B} f x text o (k : unit -> M Step B) s :
  frame s = Some f ->
  bind (_repaintMinorText x text o) k s = k tt (place o (MinorTextAt x text) s).
Proof. intros Hf. apply bind_Ok. now apply (_repaintMinorText_place s f). Qed.

Lemma run_place_MajorText {B} f x text o (k : unit -> M Step B) s :
  frame s = Some f ->
  bind (_repaintMajorText x text o) k s = k tt (place o (MajorTextAt x text) s).
Proof. intros Hf. apply bind_Ok. now apply (_repaintMajorText_place s f). Qed.

Lemma run_place_MinorLine {B} f x o (k : unit -> M Step B) s :
  frame s = Some f ->
  bind (_repaintMinorLine x o) k s = k tt (place o (MinorLineAt x) s).
Proof. intros Hf. apply bind_Ok. now apply (_repaintMinorLine_place s f). Qed.

Lemma run_place_MajorLine {B} f x o (k : unit -> M Step B) s :
  frame s = Some f ->
  bind (_repaintMajorLine x o) k s = k tt (place o (MajorLineAt x) s).
Proof. intros Hf. apply bind_Ok. now apply (_repaintMajorLine_place s f). Qed.

Lemma stopped_next budget st :
  hasNext st = true ->
  stopped (Datatypes.S budget) st = stopped budget (next st).
Proof.
  intros Hn. unfold stopped. cbn [visited]. rewrite Hn. cbn [length].
  now rewrite Nat.iter_succ_r.
Qed.

Lemma stopped_done budget st : hasNext st = false -> stopped budget st = st.
Proof.
  intros Hn. unfold stopped. destruct budget; cbn [visited]; [reflexivity |].
  now rewrite Hn.
Qed.

Lemma visited_done budget st : hasNext st = false -> visited budget st = [].
Proof. intros Hn. destruct budget; cbn [visited]; [reflexivity |]. now rewrite Hn. Qed.

Lemma visited_next budget st :
  hasNext st = true ->
  visited (Datatypes.S budget) st = st :: visited budget (next st).
Proof. intros Hn. cbn [visited]. now rewrite Hn. Qed.

Lemma ticks_places budget : forall step0 xFirst o s f c,
  frame s = Some f ->
  conversion s = Some c ->
  step s = Some step0 ->
  ticks budget step0 xFirst o s =
  Ok (stopped budget step0,
      first_major xFirst
        (loop_marks (shows showMinorLabels s) (shows showMajorLabels s) c
           (visited budget step0)))
     (set_step (Some (stopped budget step0))
        (places o
           (loop_marks (shows showMinorLabels s) (shows showMajorLabels s) c
              (visited budget step0)) s)).
Proof.
  induction budget as [| budget IH]; intros step0 xFirst o s f c Hf Hc Hs.
  { cbn. rewrite <- Hs, set_step_same. destruct xFirst; reflexivity. }
  destruct (hasNext step0) eqn:Hn.
  2:{ rewrite stopped_done, visited_done by assumption.
      cbn [ticks]. rewrite Hn. cbn.
      rewrite <- Hs, set_step_same. destruct xFirst; reflexivity. }
  rewrite stopped_next, visited_next by assumption.
  unfold loop_marks. cbn [map concat]. fold (loop_marks (shows showMinorLabels s)
    (shows showMajorLabels s) c (visited budget (next step0))).
  rewrite first_major_app, places_app.
  cbn [ticks]. rewrite Hn.
  rewrite (run_toScreen c) by assumption. run.
  unfold tick_marks.
  set (x := ((valueOf (getCurrent step0) - offset c) * scale c)%Q).
  change (flag (option_of showMinorLabels (options s))) with (shows showMinorLabels s).
  assert (Hplace : forall m s', frame s' = Some f -> frame (place o m s') = Some f)
    by (intros; now rewrite place_frame).
  assert (Hgo : forall xF s1,
    frame s1 = Some f -> conversion s1 = Some c ->
    options s1 = options s ->
    ticks budget (next step0) xF o (set_step (Some (next step0)) s1) =
    Ok (stopped budget (next step0),
        first_major xF
          (loop_marks (shows showMinorLabels s) (shows showMajorLabels s) c
             (visited budget (next step0))))
       (set_step (Some (stopped budget (next step0)))
          (places o
             (loop_marks (shows showMinorLabels s) (shows showMajorLabels s) c
                (visited budget (next step0))) s1))).
  { intros xF s1 Hf1 Hc1 Ho1.
    rewrite (IH _ xF o _ f c) by (fields; assumption || reflexivity).
    unfold shows. fields. rewrite Ho1.
    now rewrite places_set_step, set_step_twice. }
  destruct (shows showMinorLabels s);
    [rewrite (run_place_MinorText f) by assumption | run]; run;
    change (flag (option_of showMajorLabels (options (place o (MinorTextAt x (getLabelMinor step0)) s))))
      with (shows showMajorLabels (place o (MinorTextAt x (getLabelMinor step0)) s));
    change (flag (option_of showMajorLabels (options s))) with (shows showMajorLabels s);
    rewrite ?place_shows;
    (destruct (isMajor step0), (shows showMajorLabels s); cbn [andb app];
     [ destruct (Qlt_bool 0 x); run;
       [ rewrite (run_place_MajorText f) by auto; run |];
       rewrite (run_place_MajorLine f) by auto; run
     | run; rewrite (run_place_MinorLine f) by auto; run
     | run; rewrite (run_place_MinorLine f) by auto; run
     | run; rewrite (run_place_MinorLine f) by auto; run ];
     cbn [app places fold_left];
     rewrite Hgo by (rewrite ?place_frame, ?place_conversion, ?place_options; auto);
     destruct xFirst; reflexivity).
Qed.

End Loop.

(** ** [_repaintLabels] as marks placed between retiring and sweeping *)

Section Labels.

Context {Step : Type} `{StepOps : TimeStepOps Step} `{U : Util}.

Implicit Types (s : State Step) (m : mark) (k : kind) (h : handle).

Lemma leftLabel_places st xFirst o s f c :
  frame s = Some f ->
  conversion s = Some c ->
  leftLabel st xFirst o s =
  Ok tt (places o (left_marks (shows showMajorLabels s) c (props s) st xFirst) s).
Proof.
  intros Hf Hc. unfold leftLabel, left_marks. run.
  change (flag (option_of showMajorLabels (options s))) with (shows showMajorLabels s).
  destruct (shows showMajorLabels s); [| reflexivity].
  rewrite (run_toTime c) by assumption. run. cbn [andb].
  fold (widthText (getLabelMajor st (Some (Date_new (0 / scale c + offset c))))
          (majorCharWidth (props s))).
  fold (left_fits (widthText (getLabelMajor st (Some (Date_new (0 / scale c + offset c))))
          (majorCharWidth (props s))) xFirst).
  destruct (left_fits _ _); [| reflexivity].
  now apply (_repaintMajorText_place s f).
Qed.

Lemma drain_drained k pending : forall s, drain k pending s = Ok tt (drained k pending s).
Proof.
  induction pending as [| elem pending IH]; intros s; [reflexivity |].
  cbn [drain drained]. run.
  destruct (member elem (frameChildren s)); run; apply IH.
Qed.

Lemma cleanup_swept k s : cleanup k s = Ok tt (swept k s).
Proof. unfold cleanup, swept. run. apply drain_drained. Qed.

Lemma run_cleanup {B} k (c : unit -> M Step B) s :
  bind (cleanup k) c s = c tt (swept k s).
Proof. apply bind_Ok, cleanup_swept. Qed.

Lemma _updateConversion_Ok s r :
  range s = Some r ->
  _updateConversion s = Ok tt (set_conversion (Some (converted r s)) s).
Proof.
  intros Hr. unfold _updateConversion, converted. run. rewrite Hr. run.
  destruct (conversion_method r); reflexivity.
Qed.

Lemma _updateConversion_Throw s :
  range s = None ->
  _updateConversion s = Throw (Error "No range configured") s.
Proof. intros Hr. unfold _updateConversion. run. now rewrite Hr. Qed.

Lemma _repaintLabels_relabelled s f r :
  frame s = Some f ->
  range s = Some r ->
  _repaintLabels s = Ok tt (relabelled r s).
Proof.
  intros Hf Hr. unfold _repaintLabels. run.
  rewrite (bind_Ok _ _ _ _ _ (_updateConversion_Ok s r Hr)). run.
  rewrite Hr. cbv beta iota. run.
  rewrite (run_toTime (converted r s)) by reflexivity. run.
  rewrite (run_toTime (converted r s)) by reflexivity. run.
  fold (cursor r s).
  erewrite bind_Ok; [| eapply (ticks_places 1000 _ _ _ _ f (converted r s)); reflexivity || exact Hf].
  cbn [fst snd].
  erewrite bind_Ok.
  2:{ eapply (leftLabel_places _ _ _ _ f (converted r s)).
      - fields. rewrite places_frame. exact Hf.
      - fields. rewrite places_conversion. reflexivity. }
  rewrite !run_cleanup. rewrite cleanup_swept.
  unfold relabelled, sweep, cycle_marks, cycle_left_marks, cycle_loop_marks,
    cycle_ticks, shows.
  rewrite places_app. fields.
  rewrite ?places_options, ?places_props. fields.
  rewrite !places_set_step.
  change (set_dom (retire (dom s)) (set_step ?w ?y))
    with (set_step w (set_dom (retire (dom s)) y)).
  rewrite !places_set_step.
  reflexivity.
Qed.

End Labels.

(** ** [repaint] stage by stage *)

Section Repaint.

Context {Step : Type} `{StepOps : TimeStepOps Step} `{U : Util}.

Implicit Types (s : State Step) (m : mark) (k : kind) (h : handle).

Lemma member_true h (l : list handle) : member h l = true <-> h ∈ l.
Proof.
  unfold member. rewrite existsb_exists. split.
  - intros [x [Hx Heq]]. apply Nat.eqb_eq in Heq. subst. now apply list_elem_of_In.
  - intros Hin. exists h. split; [now apply list_elem_of_In | apply Nat.eqb_refl].
Qed.

Lemma member_false h (l : list handle) : member h l = false <-> h ∉ l.
Proof.
  rewrite <- member_true. destruct (member h l); split; congruence.
Qed.

Lemma without_absent h (l : list handle) : h ∉ l -> without h l = l.
Proof.
  induction l as [| x l IH]; [reflexivity |]. intros Hn. cbn [without].
  destruct (Nat.eqb_spec x h) as [-> | Hne].
  - exfalso. apply Hn. left.
  - f_equal. apply IH. intros Hin. apply Hn. now right.
Qed.

Lemma without_snoc h (l : list handle) : h ∉ l -> without h (l ++ [h]) = l.
Proof.
  induction l as [| x l IH]; intros Hn; cbn [without app].
  - now rewrite Nat.eqb_refl.
  - destruct (Nat.eqb_spec x h) as [-> | Hne].
    + exfalso. apply Hn. left.
    + f_equal. apply IH. intros Hin. apply Hn. now right.
Qed.

Lemma appended_absent h (l : list handle) : h ∉ l -> appended h l = l ++ [h].
Proof. intros Hn. unfold appended. now rewrite without_absent. Qed.

Lemma member_appended h (l : list handle) : member h (appended h l) = true.
Proof. apply member_true. unfold appended. apply elem_of_app. right. left. Qed.

Lemma frame_removeChild_Ok s f child :
  frame s = Some f ->
  member child (frameChildren s) = true ->
  frame_removeChild (Some child) s =
    Ok tt (set_frameChildren (without child (frameChildren s)) s).
Proof. unfold frame_removeChild, bind, gets. now intros -> ->. Qed.

Lemma _repaintLine_relined s f :
  frame s = Some f ->
  (forall l, line (dom s) = Some l -> member l (frameChildren s) = true) ->
  (shows showMinorLabels s || shows showMajorLabels s = false -> line (dom s) = None) ->
  _repaintLine s = Ok tt (relined s).
Proof.
  intros Hf Hin Hnone. unfold _repaintLine, relined, line_style, anchored. run.
  change (flag (option_of showMinorLabels (options s))) with (shows showMinorLabels s).
  change (flag (option_of showMajorLabels (options s))) with (shows showMajorLabels s).
  destruct (shows showMinorLabels s || shows showMajorLabels s).
  - destruct (line (dom s)) as [l |] eqn:El.
    + run. rewrite (run_frame_removeChild f) by auto. run.
      rewrite (run_frame_appendChild f) by exact Hf. run.
      destruct (is_top _); run; unfold update, modify; fields;
        rewrite ?list_alter_alter_eq; reflexivity.
    + run. rewrite (run_frame_appendChild f) by exact Hf. run.
      destruct (is_top _); run; unfold update, modify; fields;
        rewrite ?alter_new; reflexivity.
  - now rewrite Hnone.
Qed.

(** With both kinds of label hidden and an axis line in the frame,
    [_repaintLine] passes [line.line], which is undefined, to
    [removeChild]. *)
Lemma _repaintLine_hidden_Throw s f l :
  frame s = Some f ->
  shows showMinorLabels s || shows showMajorLabels s = false ->
  line (dom s) = Some l ->
  member l (frameChildren s) = true ->
  _repaintLine s = Throw (TypeError "parameter 1 is not of type 'Node'") s.
Proof.
  intros Hf Hhid Hl Hin. unfold _repaintLine. run.
  change (flag (option_of showMinorLabels (options s))) with (shows showMinorLabels s).
  change (flag (option_of showMajorLabels (options s))) with (shows showMajorLabels s).
  rewrite Hhid, Hl. run. rewrite Hin.
  unfold Element_line, frame_removeChild. run. now rewrite Hf.
Qed.

Lemma _calculateCharSize_measured host s f :
  frame s = Some f ->
  _calculateCharSize host s = Ok tt (measured host s).
Proof.
  intros Hf. unfold _calculateCharSize, measured, probed, probe. run.
  destruct (minorCharHeight (props s)) eqn:Em.
  - run. destruct (majorCharHeight (props s)) eqn:EM; [reflexivity |].
    run. rewrite (run_frame_appendChild f) by exact Hf. run.
    rewrite (frame_removeChild_Ok _ f) by (try exact Hf; apply member_appended).
    fields. rewrite !alter_new. reflexivity.
  - run. rewrite (run_frame_appendChild f) by exact Hf. run.
    rewrite (run_frame_removeChild f) by (try exact Hf; apply member_appended).
    run. rewrite !alter_new.
    destruct (majorCharHeight (props s)) eqn:EM; [reflexivity |].
    run. rewrite (run_frame_appendChild f) by exact Hf. run.
    rewrite (frame_removeChild_Ok _ f) by (try exact Hf; apply member_appended).
    fields. rewrite !alter_new. reflexivity.
Qed.

Lemma run_calculateCharSize {B} host f (c : unit -> M Step B) s :
  frame s = Some f ->
  bind (_calculateCharSize host) c s = c tt (measured host s).
Proof. intros Hf. apply bind_Ok. now apply (_calculateCharSize_measured host s f). Qed.

Lemma measured_parent host s : parent (measured host s) = parent s.
Proof.
  unfold measured. destruct (minorCharHeight (props s)); fields;
    destruct (majorCharHeight _); reflexivity.
Qed.

Lemma measured_options host s : options (measured host s) = options s.
Proof.
  unfold measured. destruct (minorCharHeight (props s)); fields;
    destruct (majorCharHeight _); reflexivity.
Qed.

Lemma measured_containerChildren host s :
  containerChildren (measured host s) = containerChildren s.
Proof.
  unfold measured. destruct (minorCharHeight (props s)); fields;
    destruct (majorCharHeight _); reflexivity.
Qed.

Lemma measured_frame host s : frame (measured host s) = frame s.
Proof.
  unfold measured. destruct (minorCharHeight (props s)); fields;
    destruct (majorCharHeight _); reflexivity.
Qed.

(** From the sizes to the start of [_repaintLabels], in a state [s1]
    whose glyph sizes are measured. *)
Lemma repaint_sized host f s1 B (c : option handle -> M Step B) :
  parent s1 = true ->
  (orientation <- getOption orientation ;;
   showMinorLabels <- getOption showMinorLabels ;;
   showMajorLabels <- getOption showMajorLabels ;;
   parent <- gets parent ;;
   parentHeight <-
     (if parent then ret (Some (parentHeight host))
      else throw (TypeError "Cannot read property 'height' of undefined")) ;;
   modify (fun s => set_props (set_minorLabelHeight
     (if flag showMinorLabels then minorCharHeight (props s) else Some 0%Q) (props s)) s) ;;
   modify (fun s => set_props (set_majorLabelHeight
     (if flag showMajorLabels then majorCharHeight (props s) else Some 0%Q) (props s)) s) ;;
   modify (fun s => set_height
     (num_add (minorLabelHeight (props s)) (majorLabelHeight (props s))) s) ;;
   modify (fun s => set_props (set_minorLineHeight
     (num_add parentHeight (minorLabelHeight (props s))) (props s)) s) ;;
   modify (fun s => set_props (set_minorLineWidth (Some 1%Q) (props s)) s) ;;
   modify (fun s => set_props (set_majorLineHeight
     (num_add parentHeight (height s)) (props s)) s) ;;
   modify (fun s => set_props (set_majorLineWidth (Some 1%Q) (props s)) s) ;;
   beforeChild <- gets (fun s => nextSibling f (containerChildren s)) ;;
   modify (fun s => set_containerChildren (without f (containerChildren s)) s) ;;
   optWidth <- gets (fun s => optWidth (options s)) ;;
   height <- gets height ;;
   (if is_top orientation
    then
      update f (with_style (Style.with_top (css_lit "0"))) ;;
      update f (with_style (Style.with_left (css_lit "0"))) ;;
      update f (with_style (Style.with_bottom css_empty)) ;;
      update f (with_style (Style.with_width (asSize optWidth "100%"))) ;;
      update f (with_style (Style.with_height (px height)))
    else
      update f (with_style (Style.with_top css_empty)) ;;
      update f (with_style (Style.with_bottom (css_lit "0"))) ;;
      update f (with_style (Style.with_left (css_lit "0"))) ;;
      update f (with_style (Style.with_width (asSize optWidth "100%"))) ;;
      update f (with_style (Style.with_height (px height)))) ;;
   c beforeChild) s1 =
  c (nextSibling f (containerChildren s1)) (offline f (sized host s1)).
Proof.
  intros Hp. run. rewrite Hp. run.
  unfold offline, sized, frame_style, shows. fields.
  destruct (is_top (option_of orientation (options s1))); run;
    f_equal; same_state; rewrite !list_alter_alter_eq; reflexivity.
Qed.

(** Everything [repaint] does before [_repaintLabels]. *)
Lemma repaint_prepared host s :
  member (fst (framed s)) (containerChildren s) = true \/
    (parent s = true /\ getContainer host = true) ->
  parent s = true ->
  repaint host s =
  (_repaintLabels ;; _repaintLine ;;
   modify (online (fst (framed s))
             (nextSibling (fst (framed s))
                (containerChildren (attached host (fst (framed s)) (snd (framed s)))))))
    (prepared host s).
Proof.
  intros Hatt Hp. unfold repaint, prepared.
  assert (Hframe : frame (snd (framed s)) = Some (fst (framed s)))
    by (unfold framed; destruct (frame s) eqn:E; [exact E | reflexivity]).
  assert (Hpar : parent (snd (framed s)) = true)
    by (unfold framed; destruct (frame s); exact Hp).
  assert (Hcc : containerChildren (snd (framed s)) = containerChildren s)
    by (unfold framed; destruct (frame s); reflexivity).
  rewrite <- Hcc in Hatt.
  assert (Hstart :
    forall B (k : handle -> M Step B),
      bind (frame0 <- gets frame ;;
            match frame0 with
            | Some frame => ret frame
            | None => frame <- createElement ;; modify (set_frame (Some frame)) ;; ret frame
            end) k s = k (fst (framed s)) (snd (framed s))).
  { intros B k. run. unfold framed. destruct (frame s); run; reflexivity. }
  rewrite <- run_bind, Hstart.
  destruct (framed s) as [f s0]. cbn [fst snd] in *. clear Hstart Hcc.
  run.
  set (s1 := attached host f s0).
  assert (Hs1 : frame s1 = Some f /\ parent s1 = true /\
                member f (containerChildren s1) = true).
  { unfold s1, attached. fields.
    destruct (member f (containerChildren s0)) eqn:Em; fields;
      repeat split; auto using member_appended. }
  destruct Hs1 as (Hf1 & Hp1 & Hm1).
  assert (Hgo : forall B (k : unit -> M Step B),
    bind (if negb (member f (containerChildren s0))
          then
            parent <- gets parent ;;
            if negb parent
            then throw (Error "Cannot repaint time axis: no parent attached")
            else
              if negb (getContainer host)
              then throw (Error "Cannot repaint time axis: parent has no container element")
              else modify (fun s =>
                     set_containerChildren (appended f (containerChildren s)) s)
          else ret tt) k
      (set_width (Some (offsetWidth host))
         (set_elems (alter (with_className "axis") f (elems s0)) s0)) = k tt s1).
  { intros B k. unfold s1, attached. fields.
    destruct (member f (containerChildren s0)) eqn:Em; cbn [negb]; run; [reflexivity |].
    destruct Hatt as [Hatt | [_ Hg]]; [discriminate |].
    rewrite Hpar, Hg. reflexivity. }
  rewrite Hgo. clearbody s1. clear Hgo. run. rewrite Hm1.
  rewrite (run_calculateCharSize host f) by exact Hf1.
  rewrite <- (measured_containerChildren host s1).
  set (s2 := measured host s1).
  assert (Hp2 : parent s2 = true) by (unfold s2; now rewrite measured_parent).
  clearbody s2.
  rewrite repaint_sized by exact Hp2.
  unfold online. destruct (nextSibling f (containerChildren s2)); reflexivity.
Qed.

End Repaint.

(** ** The pool invariant *)

Section Pool.

Context {Step : Type} `{StepOps : TimeStepOps Step} `{U : Util}.

Implicit Types (s : State Step) (m : mark) (k : kind) (h : handle) (d : Dom).

Lemma class_of_lt els h c : class_of els h = Some c -> h < length els.
Proof.
  unfold class_of. intros H. destruct (els !! h) eqn:E; [| discriminate].
  now apply lookup_lt_Some in E.
Qed.

Lemma class_of_alter (g : Element -> Element) els h h' :
  (forall e, className (g e) = className e) ->
  class_of (alter g h els) h' = class_of els h'.
Proof.
  intros Hg. unfold class_of.
  destruct (Nat.eq_dec h h') as [-> | Hne].
  - rewrite list_lookup_alter_eq.
    destruct (els !! h'); cbn; [now rewrite Hg | reflexivity].
  - now rewrite list_lookup_alter_ne.
Qed.

Lemma class_of_app_l els e h :
  h < length els -> class_of (els ++ [e]) h = class_of els h.
Proof. intros Hlt. unfold class_of. now rewrite lookup_app_l. Qed.

Lemma class_of_new els e : class_of (els ++ [e]) (length els) = Some (className e).
Proof.
  unfold class_of. rewrite lookup_app_r by lia. now rewrite Nat.sub_diag.
Qed.

Lemma dress_className o p m e : className (dress o p m e) = className e.
Proof. destruct m; reflexivity. Qed.

Lemma newborn_className m : className (newborn m) = cls (kind_of m).
Proof. destruct m; reflexivity. Qed.

Lemma kind_eqb_eq k k' : kind_eqb k k' = true <-> k = k'.
Proof. destruct k, k'; cbn; split; congruence. Qed.

Lemma active_set_active k k' v d :
  active k' (set_active k v d) = if kind_eqb k k' then v else active k' d.
Proof. destruct k, k'; reflexivity. Qed.

Lemma retired_set_active k k' v d : retired k' (set_active k v d) = retired k' d.
Proof. destruct k'; reflexivity. Qed.

Lemma active_set_retired k k' v d : active k' (set_retired k v d) = active k' d.
Proof. destruct k'; reflexivity. Qed.

Lemma retired_set_retired k k' v d :
  retired k' (set_retired k v d) = if kind_eqb k k' then v else retired k' d.
Proof. destruct k, k'; reflexivity. Qed.

Lemma all_active_set_active k v d :
  all_active (set_active k v d) ++ active k d ≡ₚ all_active d ++ v.
Proof. unfold all_active. destruct k; cbn; solve_Permutation. Qed.

Lemma all_retired_set_active k v d : all_retired (set_active k v d) = all_retired d.
Proof. reflexivity. Qed.

Lemma all_active_set_retired k v d : all_active (set_retired k v d) = all_active d.
Proof. reflexivity. Qed.

Lemma all_retired_set_retired k v d :
  all_retired (set_retired k v d) ++ retired k d ≡ₚ all_retired d ++ v.
Proof. unfold all_retired. destruct k; cbn; solve_Permutation. Qed.

Lemma cls_inj k k' : cls k = cls k' -> k = k'.
Proof. destruct k, k'; cbn; intros E; congruence. Qed.

Lemma cls_not_line k : cls k <> line_cls.
Proof. destruct k; discriminate. Qed.

Lemma cls_not_frame k : cls k <> frame_cls.
Proof. destruct k; discriminate. Qed.

Lemma all_active_push k h d :
  all_active (set_active k (active k d ++ [h]) d) ≡ₚ h :: all_active d.
Proof. unfold all_active. destruct k; cbn; solve_Permutation. Qed.

Lemma all_retired_shift k h r d :
  retired k d = h :: r ->
  all_retired d ≡ₚ h :: all_retired (set_retired k r d).
Proof.
  unfold all_retired. destruct k; cbn; intros ->; solve_Permutation.
Qed.

Lemma elem_of_all_active h d : h ∈ all_active d <-> exists k, h ∈ active k d.
Proof.
  unfold all_active. rewrite !elem_of_app. split.
  - intros [H | [H | [H | H]]];
      [exists MajorLine | exists MajorText | exists MinorLine | exists MinorText];
      exact H.
  - intros [[] H]; cbn in H; tauto.
Qed.

Lemma elem_of_all_retired h d : h ∈ all_retired d <-> exists k, h ∈ retired k d.
Proof.
  unfold all_retired. rewrite !elem_of_app. split.
  - intros [H | [H | [H | H]]];
      [exists MajorLine | exists MajorText | exists MinorLine | exists MinorText];
      exact H.
  - intros [[] H]; cbn in H; tauto.
Qed.

Lemma elem_of_pooled h d :
  h ∈ pooled d <->
  (exists k, h ∈ active k d ++ retired k d) \/ line d = Some h.
Proof.
  unfold pooled, line_list. rewrite !elem_of_app, elem_of_all_active, elem_of_all_retired.
  split.
  - intros [[k H] | [[k H] | H]].
    + left. exists k. apply elem_of_app. now left.
    + left. exists k. apply elem_of_app. now right.
    + right. destruct (line d); [| now apply not_elem_of_nil in H].
      apply list_elem_of_singleton in H. now subst.
  - intros [[k H] | H].
    + apply elem_of_app in H as [H | H]; [left | right; left]; now exists k.
    + right. right. rewrite H. left.
Qed.

Lemma pool_child_lt s h : pool_ok s -> h ∈ frameChildren s -> h < length (elems s).
Proof.
  intros [Hc _ Hcl Hl] Hin. rewrite Hc in Hin.
  apply elem_of_pooled in Hin as [[k Hin] | Hin].
  - eapply class_of_lt. now apply (Hcl k).
  - eapply class_of_lt. now apply Hl.
Qed.

Lemma pool_fresh s : pool_ok s -> length (elems s) ∉ frameChildren s.
Proof. intros Hok Hin. apply (pool_child_lt s _ Hok) in Hin. lia. Qed.

Lemma place_pool_ok o m s : pool_ok s -> pool_ok (place o m s).
Proof.
  intros Hok. pose proof (pool_fresh s Hok) as Hfresh.
  destruct Hok as [Hc Hn Hcl Hl].
  unfold place. destruct (retired (kind_of m) (dom s)) as [| h r] eqn:E.
  - split; fields.
    + rewrite appended_absent by assumption.
      unfold pooled. rewrite all_active_push. cbn [line_list set_active line].
      change (line_list (set_active ?k ?v ?d)) with (line_list d).
      rewrite Hc. unfold pooled. solve_Permutation.
    + rewrite appended_absent by assumption.
      apply NoDup_app. repeat split; [assumption | | apply NoDup_singleton].
      intros x Hx Hx'. apply list_elem_of_singleton in Hx'. now subst.
    + intros k h. rewrite active_set_active, retired_set_active.
      destruct (kind_eqb (kind_of m) k) eqn:Ek.
      * apply kind_eqb_eq in Ek. subst k. rewrite <- app_assoc, elem_of_app.
        intros [Hin | Hin].
        -- rewrite class_of_app_l; [apply Hcl; apply elem_of_app; now left |].
           eapply class_of_lt, (Hcl (kind_of m)). apply elem_of_app. now left.
        -- rewrite E in Hin. cbn in Hin. apply list_elem_of_singleton in Hin. subst h.
           rewrite class_of_new, dress_className. f_equal. apply newborn_className.
      * intros Hin. rewrite class_of_app_l; [now apply Hcl |].
        eapply class_of_lt. now apply (Hcl k).
    + intros l Hline. cbn in Hline.
      rewrite class_of_app_l; [now apply Hl |]. eapply class_of_lt. now apply Hl.
  - split; fields.
    + rewrite Hc. unfold pooled.
      rewrite <- (active_set_retired (kind_of m) (kind_of m) r (dom s)).
      rewrite all_active_push, all_retired_set_active, all_active_set_retired.
      rewrite (all_retired_shift _ _ _ _ E).
      change (line_list (set_active ?k ?v (set_retired ?k' ?v' ?d))) with (line_list d).
      solve_Permutation.
    + assumption.
    + intros k h'. rewrite active_set_active, retired_set_active,
        active_set_retired, retired_set_retired.
      intros Hin. rewrite class_of_alter by apply dress_className.
      apply Hcl. destruct (kind_eqb (kind_of m) k) eqn:Ek.
      * apply kind_eqb_eq in Ek. subst k. rewrite E.
        rewrite <- app_assoc in Hin. rewrite !elem_of_app in *.
        rewrite elem_of_cons. rewrite list_elem_of_singleton in Hin. tauto.
      * exact Hin.
    + intros l Hline. cbn in Hline.
      rewrite class_of_alter by apply dress_className. now apply Hl.
Qed.

Lemma places_pool_ok o ms : forall s, pool_ok s -> pool_ok (places o ms s).
Proof.
  induction ms as [| m ms IH]; intros s Hok; [exact Hok |].
  rewrite places_cons. apply IH. now apply place_pool_ok.
Qed.

Lemma place_active o m k s :
  active k (dom (place o m s)) =
  active k (dom s) ++
  (if kind_eqb (kind_of m) k
   then [match retired (kind_of m) (dom s) with
         | h :: _ => h
         | [] => length (elems s)
         end]
   else []).
Proof.
  unfold place. destruct (retired (kind_of m) (dom s)); fields;
    rewrite active_set_active, ?active_set_retired;
    destruct (kind_eqb (kind_of m) k) eqn:Ek;
    try (apply kind_eqb_eq in Ek; subst k); now rewrite ?app_nil_r.
Qed.

Lemma places_active_length o ms k : forall s,
  length (active k (dom (places o ms s))) =
  length (active k (dom s)) + length (of_kind k ms).
Proof.
  induction ms as [| m ms IH]; intros s; [cbn; lia |].
  rewrite places_cons, IH, place_active, length_app. unfold of_kind.
  cbn [List.filter]. destruct (kind_eqb (kind_of m) k); cbn [length]; lia.
Qed.

(** *** Sweeping *)

Lemma all_retired_pop k l h d :
  retired k d = l ++ [h] ->
  all_retired d ≡ₚ h :: all_retired (set_retired k l d).
Proof. unfold all_retired. destruct k; cbn; intros ->; solve_Permutation. Qed.

Lemma without_Permutation h (l : list handle) : h ∈ l -> l ≡ₚ h :: without h l.
Proof.
  induction l as [| x l IH]; intros Hin; [now apply not_elem_of_nil in Hin |].
  cbn [without]. destruct (Nat.eqb_spec x h) as [-> | Hne]; [reflexivity |].
  apply elem_of_cons in Hin as [-> | Hin]; [congruence |].
  rewrite (IH Hin) at 1. apply Permutation_swap.
Qed.

Lemma without_Permutation_cons h (l l' : list handle) :
  l ≡ₚ h :: l' -> without h l ≡ₚ l'.
Proof.
  intros Hp. apply (Permutation_cons_inv (a := h)).
  rewrite <- without_Permutation; [exact Hp |].
  rewrite Hp. left.
Qed.

Lemma without_NoDup h (l : list handle) : NoDup l -> NoDup (without h l).
Proof.
  intros Hn. destruct (decide (h ∈ l)) as [Hin | Hout].
  - rewrite (without_Permutation h l Hin) in Hn. now apply NoDup_cons in Hn as [_ Hn].
  - now rewrite without_absent.
Qed.

Lemma without_not_elem h (l : list handle) : NoDup l -> h ∉ without h l.
Proof.
  intros Hn. destruct (decide (h ∈ l)) as [Hin | Hout].
  - rewrite (without_Permutation h l Hin) in Hn. now apply NoDup_cons in Hn as [Hn _].
  - now rewrite without_absent.
Qed.

Lemma drained_pool_ok k : forall pending s,
  pool_ok s ->
  retired k (dom s) = rev pending ->
  pool_ok (drained k pending s) /\
  retired k (dom (drained k pending s)) = [].
Proof.
  induction pending as [| elem pending IH]; intros s Hok Hr; [now split |].
  cbn [drained rev] in *. fields.
  destruct Hok as [Hc Hn Hcl Hl].
  assert (Hin : elem ∈ frameChildren s).
  { rewrite Hc. apply elem_of_pooled. left. exists k. rewrite Hr, !elem_of_app.
    right. right. left. }
  apply member_true in Hin as Hm. rewrite Hm.
  apply IH.
  - split; fields.
    + apply without_Permutation_cons. rewrite Hc. unfold pooled.
      rewrite (all_retired_pop _ _ _ _ Hr). rewrite all_active_set_retired.
      change (line_list (set_retired ?k' ?v' ?d)) with (line_list d).
      solve_Permutation.
    + now apply without_NoDup.
    + intros k' h. rewrite active_set_retired, retired_set_retired. intros Hh.
      apply Hcl. destruct (kind_eqb k k') eqn:Ek; [| exact Hh].
      apply kind_eqb_eq in Ek. subst k'. rewrite Hr.
      rewrite !elem_of_app in *. tauto.
    + intros l Hline. now apply Hl.
  - fields. rewrite retired_set_retired.
    now destruct k.
Qed.

Ltac drained_field :=
  intros k pending; induction pending as [| elem pending IH]; intros s;
  [reflexivity |];
  cbn [drained]; fields; destruct (member elem (frameChildren s)); rewrite IH;
  reflexivity.

Lemma drained_elems : forall k pending s, elems (drained k pending s) = elems s.
Proof. drained_field. Qed.
Lemma drained_containerChildren : forall k pending s,
  containerChildren (drained k pending s) = containerChildren s.
Proof. drained_field. Qed.
Lemma drained_parent : forall k pending s, parent (drained k pending s) = parent s.
Proof. drained_field. Qed.
Lemma drained_frame : forall k pending s, frame (drained k pending s) = frame s.
Proof. drained_field. Qed.
Lemma drained_props : forall k pending s, props (drained k pending s) = props s.
Proof. drained_field. Qed.
Lemma drained_options : forall k pending s, options (drained k pending s) = options s.
Proof. drained_field. Qed.
Lemma drained_conversion : forall k pending s,
  conversion (drained k pending s) = conversion s.
Proof. drained_field. Qed.
Lemma drained_range : forall k pending s, range (drained k pending s) = range s.
Proof. drained_field. Qed.
Lemma drained_step : forall k pending s, step (drained k pending s) = step s.
Proof. drained_field. Qed.
Lemma drained_width : forall k pending s, width (drained k pending s) = width s.
Proof. drained_field. Qed.
Lemma drained_height : forall k pending s, height (drained k pending s) = height s.
Proof. drained_field. Qed.
Lemma drained_line : forall k pending s,
  line (dom (drained k pending s)) = line (dom s).
Proof. drained_field. Qed.
Lemma drained_active k' : forall k pending s,
  active k' (dom (drained k pending s)) = active k' (dom s).
Proof.
  intros k pending; induction pending as [| elem pending IH]; intros s;
    [reflexivity |].
  cbn [drained]; fields; destruct (member elem (frameChildren s)); rewrite IH;
    fields; apply active_set_retired.
Qed.
Lemma drained_retired_ne k' : forall k pending s,
  kind_eqb k k' = false ->
  retired k' (dom (drained k pending s)) = retired k' (dom s).
Proof.
  intros k pending; induction pending as [| elem pending IH]; intros s Hk;
    [reflexivity |].
  cbn [drained]; fields; destruct (member elem (frameChildren s)); rewrite IH by exact Hk;
    fields; rewrite retired_set_retired, Hk; reflexivity.
Qed.

End Pool.

(** ** One cycle of the pools *)

Section Cycle.

Context {Step : Type} `{StepOps : TimeStepOps Step} `{U : Util}.

Implicit Types (s : State Step) (m : mark) (k : kind) (h : handle) (d : Dom).

Lemma swept_pool_ok k s :
  pool_ok s -> pool_ok (swept k s) /\ retired k (dom (swept k s)) = [].
Proof.
  intros Hok. unfold swept. apply drained_pool_ok; [exact Hok |].
  now rewrite rev_involutive.
Qed.

Lemma swept_retired_ne k k' s :
  kind_eqb k k' = false -> retired k' (dom (swept k s)) = retired k' (dom s).
Proof. apply drained_retired_ne. Qed.

Lemma swept_nothing k s : retired k (dom s) = [] -> swept k s = s.
Proof. unfold swept. now intros ->. Qed.

Lemma sweep_nothing s : all_retired (dom s) = [] -> sweep s = s.
Proof.
  unfold all_retired. intros H.
  apply app_eq_nil in H as [H1 H]. apply app_eq_nil in H as [H2 H].
  apply app_eq_nil in H as [H3 H4].
  unfold sweep.
  rewrite (swept_nothing MajorLine), (swept_nothing MajorText),
    (swept_nothing MinorLine), (swept_nothing MinorText); auto.
Qed.

Lemma sweep_pool_ok s :
  pool_ok s -> pool_ok (sweep s) /\ all_retired (dom (sweep s)) = [].
Proof.
  intros Hok. unfold sweep.
  destruct (swept_pool_ok MajorLine _ Hok) as [Hok1 H1].
  destruct (swept_pool_ok MajorText _ Hok1) as [Hok2 H2].
  destruct (swept_pool_ok MinorLine _ Hok2) as [Hok3 H3].
  destruct (swept_pool_ok MinorText _ Hok3) as [Hok4 H4].
  split; [exact Hok4 |].
  unfold all_retired.
  change (retired MajorLine (dom (swept MinorText (swept MinorLine (swept MajorText
            (swept MajorLine s))))) ++
          retired MajorText (dom (swept MinorText (swept MinorLine (swept MajorText
            (swept MajorLine s))))) ++
          retired MinorLine (dom (swept MinorText (swept MinorLine (swept MajorText
            (swept MajorLine s))))) ++
          retired MinorText (dom (swept MinorText (swept MinorLine (swept MajorText
            (swept MajorLine s))))) = []).
  rewrite H4.
  rewrite !(swept_retired_ne MinorText) by reflexivity. rewrite H3.
  rewrite !(swept_retired_ne MinorLine) by reflexivity. rewrite H2.
  rewrite !(swept_retired_ne MajorText) by reflexivity. rewrite H1.
  reflexivity.
Qed.

Lemma sweep_elems s : elems (sweep s) = elems s.
Proof. unfold sweep, swept. now rewrite !drained_elems. Qed.
Lemma sweep_containerChildren s : containerChildren (sweep s) = containerChildren s.
Proof. unfold sweep, swept. now rewrite !drained_containerChildren. Qed.
Lemma sweep_parent s : parent (sweep s) = parent s.
Proof. unfold sweep, swept. now rewrite !drained_parent. Qed.
Lemma sweep_frame s : frame (sweep s) = frame s.
Proof. unfold sweep, swept. now rewrite !drained_frame. Qed.
Lemma sweep_props s : props (sweep s) = props s.
Proof. unfold sweep, swept. now rewrite !drained_props. Qed.
Lemma sweep_options s : options (sweep s) = options s.
Proof. unfold sweep, swept. now rewrite !drained_options. Qed.
Lemma sweep_conversion s : conversion (sweep s) = conversion s.
Proof. unfold sweep, swept. now rewrite !drained_conversion. Qed.
Lemma sweep_range s : range (sweep s) = range s.
Proof. unfold sweep, swept. now rewrite !drained_range. Qed.
Lemma sweep_step s : step (sweep s) = step s.
Proof. unfold sweep, swept. now rewrite !drained_step. Qed.
Lemma sweep_width s : width (sweep s) = width s.
Proof. unfold sweep, swept. now rewrite !drained_width. Qed.
Lemma sweep_height s : height (sweep s) = height s.
Proof. unfold sweep, swept. now rewrite !drained_height. Qed.
Lemma sweep_line s : line (dom (sweep s)) = line (dom s).
Proof. unfold sweep, swept. now rewrite !drained_line. Qed.
Lemma sweep_active k s : active k (dom (sweep s)) = active k (dom s).
Proof. unfold sweep, swept. now rewrite !drained_active. Qed.

(** Retiring keeps the invariant. *)
Lemma retire_pool_ok s :
  pool_ok s -> all_retired (dom s) = [] ->
  pool_ok (set_dom (retire (dom s)) s).
Proof.
  intros [Hc Hn Hcl Hl] Hr. split; fields.
  - rewrite Hc. unfold pooled. rewrite Hr.
    change (all_active (retire (dom s))) with (@nil nat).
    change (all_retired (retire (dom s))) with (all_active (dom s)).
    change (line_list (retire (dom s))) with (line_list (dom s)).
    reflexivity.
  - exact Hn.
  - intros k h Hin. apply Hcl. apply elem_of_app. left.
    destruct k; exact Hin.
  - intros l Hline. now apply Hl.
Qed.

Lemma pool_ok_ext s s' :
  elems s' = elems s -> frameChildren s' = frameChildren s -> dom s' = dom s ->
  pool_ok s -> pool_ok s'.
Proof.
  intros He Hf Hd [Hc Hn Hcl Hl].
  split; rewrite ?He, ?Hf, ?Hd; assumption.
Qed.

(** After [_repaintLabels] the pools hold exactly the marks of the cycle. *)
Lemma relabelled_pool s r :
  pool_ok s -> all_retired (dom s) = [] ->
  pool_ok (relabelled r s) /\
  all_retired (dom (relabelled r s)) = [] /\
  forall k, length (active k (dom (relabelled r s))) =
            length (of_kind k (cycle_marks r s)).
Proof.
  intros Hok Hr. unfold relabelled.
  set (t := set_step _ (set_dom (retire (dom s)) _)).
  assert (Hok0 : pool_ok t).
  { apply (pool_ok_ext (set_dom (retire (dom s)) s)); try reflexivity.
    now apply retire_pool_ok. }
  pose proof (places_pool_ok (option_of orientation (options s)) (cycle_marks r s)
                t Hok0) as Hok1.
  destruct (sweep_pool_ok _ Hok1) as [Hok2 Hr2].
  split; [exact Hok2 |]. split; [exact Hr2 |].
  intros k. rewrite sweep_active, places_active_length.
  unfold t. fields. now destruct k.
Qed.

(** Between cycles, the live elements of a kind are its pool. *)
Lemma filter_all {A} (P : A -> Prop) `{forall x, Decision (P x)} (l : list A) :
  (forall x, x ∈ l -> P x) -> filter P l = l.
Proof.
  induction l as [| x l IH]; intros Hall; [reflexivity |].
  rewrite filter_cons_True by (apply Hall; left).
  f_equal. apply IH. intros y Hy. apply Hall. now right.
Qed.

Lemma filter_none {A} (P : A -> Prop) `{forall x, Decision (P x)} (l : list A) :
  (forall x, x ∈ l -> ~ P x) -> filter P l = [].
Proof.
  induction l as [| x l IH]; intros Hall; [reflexivity |].
  rewrite filter_cons_False by (apply Hall; left).
  apply IH. intros y Hy. apply Hall. now right.
Qed.

Lemma filter_active s k k' :
  pool_ok s ->
  filter (fun h => class_of (elems s) h = Some (cls k)) (active k' (dom s)) =
  if kind_eqb k' k then active k' (dom s) else [].
Proof.
  intros [_ _ Hcl _].
  destruct (kind_eqb k' k) eqn:Ek.
  - apply kind_eqb_eq in Ek. subst k'. apply filter_all.
    intros h Hh. apply Hcl. apply elem_of_app. now left.
  - apply filter_none. intros h Hh Hc.
    rewrite (Hcl k' h) in Hc by (apply elem_of_app; now left).
    injection Hc as Hc. apply cls_inj in Hc. subst k'.
    assert (kind_eqb k k = true) by now apply kind_eqb_eq. congruence.
Qed.

Lemma live_active s k :
  pool_ok s -> all_retired (dom s) = [] ->
  live k s ≡ₚ active k (dom s).
Proof.
  intros Hok Hr. unfold live.
  rewrite (pool_children s Hok). unfold pooled. rewrite Hr.
  rewrite !filter_app. unfold all_active. rewrite !filter_app.
  change (majorLines (dom s)) with (active MajorLine (dom s)).
  change (majorTexts (dom s)) with (active MajorText (dom s)).
  change (minorLines (dom s)) with (active MinorLine (dom s)).
  change (minorTexts (dom s)) with (active MinorText (dom s)).
  rewrite !filter_active by exact Hok.
  assert (Hline : filter (fun h => class_of (elems s) h = Some (cls k))
                    (line_list (dom s)) = []).
  { apply filter_none. intros h Hh Hc. unfold line_list in Hh.
    destruct (line (dom s)) as [l |] eqn:El; [| now apply not_elem_of_nil in Hh].
    apply list_elem_of_singleton in Hh. subst h.
    rewrite (pool_line s Hok l El) in Hc. injection Hc as Hc.
    symmetry in Hc. now apply cls_not_line in Hc. }
  rewrite Hline. destruct k; cbn; now rewrite ?app_nil_r.
Qed.

Lemma live_length s k :
  pool_ok s -> all_retired (dom s) = [] ->
  length (live k s) = length (active k (dom s)).
Proof. intros Hok Hr. now rewrite (live_active s k Hok Hr). Qed.

End Cycle.

(** ** The stages before [_repaintLabels] keep the pools *)

Section Stages.

Context {Step : Type} `{StepOps : TimeStepOps Step} `{U : Util}.

Implicit Types (s : State Step) (m : mark) (k : kind) (h : handle) (d : Dom).

Lemma pool_member s k h :
  pool_ok s -> h ∈ active k (dom s) ++ retired k (dom s) -> h ∈ frameChildren s.
Proof.
  intros Hok Hin. rewrite (pool_children s Hok). apply elem_of_pooled.
  left. now exists k.
Qed.

Lemma pool_line_member s l :
  pool_ok s -> line (dom s) = Some l -> l ∈ frameChildren s.
Proof.
  intros Hok Hl. rewrite (pool_children s Hok). apply elem_of_pooled. now right.
Qed.

Lemma pool_child_class s h :
  pool_ok s -> h ∈ frameChildren s ->
  (exists k, class_of (elems s) h = Some (cls k)) \/
  class_of (elems s) h = Some line_cls.
Proof.
  intros Hok Hin. rewrite (pool_children s Hok) in Hin.
  apply elem_of_pooled in Hin as [[k Hin] | Hin].
  - left. exists k. now apply (pool_class s Hok).
  - right. now apply (pool_line s Hok).
Qed.

(** A change of the store that leaves the class of every child of the
    frame alone keeps the invariant. *)
Lemma pool_ok_elems s s' :
  pool_ok s ->
  frameChildren s' = frameChildren s ->
  dom s' = dom s ->
  (forall h, h ∈ frameChildren s -> class_of (elems s') h = class_of (elems s) h) ->
  pool_ok s'.
Proof.
  intros Hok Hf Hd He. split; rewrite ?Hf, ?Hd.
  - apply (pool_children s Hok).
  - apply (pool_NoDup s Hok).
  - intros k h Hin. rewrite He by (eapply pool_member; eauto).
    now apply (pool_class s Hok).
  - intros l Hl. rewrite He by (eapply pool_line_member; eauto).
    now apply (pool_line s Hok).
Qed.

Lemma class_of_alter_ne (g : Element -> Element) els h h' :
  h <> h' -> class_of (alter g h els) h' = class_of els h'.
Proof. intros Hne. unfold class_of. now rewrite list_lookup_alter_ne. Qed.

Lemma class_of_alter_eq (g : Element -> Element) els h c :
  h < length els -> (forall e, className (g e) = c) ->
  class_of (alter g h els) h = Some c.
Proof.
  intros Hlt Hg. unfold class_of. rewrite list_lookup_alter_eq.
  destruct (lookup_lt_is_Some_2 els h Hlt) as [e ->]. cbn. now rewrite Hg.
Qed.

(** The frame is not one of its own children. *)
Lemma frame_outside s f :
  pool_ok s -> class_of (elems s) f = Some frame_cls -> f ∉ frameChildren s.
Proof.
  intros Hok Hf Hin.
  destruct (pool_child_class s f Hok Hin) as [[k Hk] | Hl]; rewrite Hf in *.
  - injection Hk as Hk. symmetry in Hk. now apply cls_not_frame in Hk.
  - discriminate.
Qed.

Lemma framed_frame s : frame (snd (framed s)) = Some (fst (framed s)).
Proof. unfold framed. destruct (frame s) eqn:E; [exact E | reflexivity]. Qed.

Lemma framed_lt s :
  wf s -> fst (framed s) < length (elems (snd (framed s))).
Proof.
  intros Hwf. unfold framed. destruct (frame s) eqn:E; cbn [fst snd]; fields.
  - eapply class_of_lt. now apply (wf_frame s Hwf).
  - rewrite length_app. cbn. lia.
Qed.

Lemma framed_outside s : wf s -> fst (framed s) ∉ frameChildren s.
Proof.
  intros Hwf. unfold framed. destruct (frame s) eqn:E; cbn [fst].
  - apply frame_outside; [apply Hwf | now apply (wf_frame s Hwf)].
  - apply pool_fresh, Hwf.
Qed.

Lemma framed_pool_ok s : pool_ok s -> pool_ok (snd (framed s)).
Proof.
  intros Hok. unfold framed. destruct (frame s); [exact Hok |]. cbn [snd].
  apply (pool_ok_elems s); try reflexivity; [exact Hok |].
  intros h Hin. fields. apply class_of_app_l. now apply pool_child_lt.
Qed.

Lemma pool_child_class_framed s h :
  wf s -> h ∈ frameChildren s ->
  class_of (elems (snd (framed s))) h = class_of (elems s) h.
Proof.
  intros Hwf Hin. unfold framed. destruct (frame s); [reflexivity |]. cbn [snd]. fields.
  apply class_of_app_l. apply pool_child_lt; [apply Hwf | exact Hin].
Qed.

Lemma framed_fields s :
  frameChildren (snd (framed s)) = frameChildren s /\
  containerChildren (snd (framed s)) = containerChildren s /\
  dom (snd (framed s)) = dom s /\
  props (snd (framed s)) = props s /\
  options (snd (framed s)) = options s /\
  range (snd (framed s)) = range s /\
  parent (snd (framed s)) = parent s.
Proof. unfold framed. destruct (frame s); repeat split. Qed.

Lemma probed_pool_ok c s : pool_ok s -> pool_ok (probed c s).
Proof.
  intros Hok. unfold probed.
  assert (Hfc : without (length (elems s)) (appended (length (elems s)) (frameChildren s))
                = frameChildren s).
  { rewrite appended_absent by now apply pool_fresh. apply without_snoc.
    now apply pool_fresh. }
  apply (pool_ok_elems s); fields; try reflexivity; [exact Hok | exact Hfc |].
  intros h Hin. apply class_of_app_l. now apply pool_child_lt.
Qed.

Lemma probed_frameChildren c s :
  pool_ok s -> frameChildren (probed c s) = frameChildren s.
Proof.
  intros Hok. unfold probed. fields.
  rewrite appended_absent by now apply pool_fresh. apply without_snoc.
  now apply pool_fresh.
Qed.

Lemma probed_class c s h :
  h < length (elems s) -> class_of (elems (probed c s)) h = class_of (elems s) h.
Proof. intros Hlt. unfold probed. fields. now apply class_of_app_l. Qed.

Lemma measured_pool_ok host s : pool_ok s -> pool_ok (measured host s).
Proof.
  intros Hok. unfold measured.
  set (s1 := match minorCharHeight (props s) with Some _ => s | None => _ end).
  assert (Hok1 : pool_ok s1).
  { unfold s1. destruct (minorCharHeight (props s)); [exact Hok |].
    apply (pool_ok_ext (probed "text minor measure" s)); try reflexivity.
    now apply probed_pool_ok. }
  clearbody s1. destruct (majorCharHeight (props s1)); [exact Hok1 |].
  apply (pool_ok_ext (probed "text major measure" s1)); try reflexivity.
  now apply probed_pool_ok.
Qed.

Lemma measured_frameChildren host s :
  pool_ok s -> frameChildren (measured host s) = frameChildren s.
Proof.
  intros Hok. unfold measured.
  set (s1 := match minorCharHeight (props s) with Some _ => s | None => _ end).
  assert (H1 : pool_ok s1 /\ frameChildren s1 = frameChildren s).
  { unfold s1. destruct (minorCharHeight (props s)); [now split |]. split.
    - apply (pool_ok_ext (probed "text minor measure" s)); try reflexivity.
      now apply probed_pool_ok.
    - fields. now apply probed_frameChildren. }
  destruct H1 as [Hok1 Hfc1]. clearbody s1.
  destruct (majorCharHeight (props s1)); [exact Hfc1 |].
  fields. now rewrite probed_frameChildren.
Qed.

Lemma measured_dom host s : dom (measured host s) = dom s.
Proof.
  unfold measured. destruct (minorCharHeight (props s)); fields;
    destruct (majorCharHeight _); reflexivity.
Qed.

Lemma measured_range host s : range (measured host s) = range s.
Proof.
  unfold measured. destruct (minorCharHeight (props s)); fields;
    destruct (majorCharHeight _); reflexivity.
Qed.

Lemma measured_width host s : width (measured host s) = width s.
Proof.
  unfold measured. destruct (minorCharHeight (props s)); fields;
    destruct (majorCharHeight _); reflexivity.
Qed.

Lemma measured_class host s h :
  h < length (elems s) ->
  class_of (elems (measured host s)) h = class_of (elems s) h.
Proof.
  intros Hlt. unfold measured.
  set (s1 := match minorCharHeight (props s) with Some _ => s | None => _ end).
  assert (H1 : class_of (elems s1) h = class_of (elems s) h /\ h < length (elems s1)).
  { unfold s1. destruct (minorCharHeight (props s)); [now split |]. fields.
    split; [now apply probed_class |].
    unfold probed. fields. rewrite length_app. lia. }
  destruct H1 as [Hc1 Hlt1]. clearbody s1.
  destruct (majorCharHeight (props s1)); [exact Hc1 |].
  fields. now rewrite probed_class.
Qed.

Ltac attached_field :=
  intros; unfold attached; fields; destruct (member _ _); reflexivity.

Lemma attached_frame host f s : frame (attached host f s) = frame s.
Proof. attached_field. Qed.
Lemma attached_dom host f s : dom (attached host f s) = dom s.
Proof. attached_field. Qed.
Lemma attached_frameChildren host f s :
  frameChildren (attached host f s) = frameChildren s.
Proof. attached_field. Qed.
Lemma attached_options host f s : options (attached host f s) = options s.
Proof. attached_field. Qed.
Lemma attached_props host f s : props (attached host f s) = props s.
Proof. attached_field. Qed.
Lemma attached_range host f s : range (attached host f s) = range s.
Proof. attached_field. Qed.
Lemma attached_parent host f s : parent (attached host f s) = parent s.
Proof. attached_field. Qed.
Lemma attached_width host f s : width (attached host f s) = Some (offsetWidth host).
Proof. attached_field. Qed.
Lemma attached_elems host f s :
  elems (attached host f s) = alter (with_className frame_cls) f (elems s).
Proof. attached_field. Qed.

Lemma attached_member host f s :
  member f (containerChildren (attached host f s)) = true.
Proof.
  unfold attached. fields. destruct (member f (containerChildren s)) eqn:E; fields;
    [exact E | apply member_appended].
Qed.

Lemma appended_NoDup h (l : list handle) : NoDup l -> NoDup (appended h l).
Proof.
  intros Hn. unfold appended. apply NoDup_app. repeat split.
  - now apply without_NoDup.
  - intros x Hx Hx'. apply list_elem_of_singleton in Hx'. subst.
    now apply (without_not_elem h l Hn).
  - apply NoDup_singleton.
Qed.

Lemma attached_NoDup host f s :
  NoDup (containerChildren s) -> NoDup (containerChildren (attached host f s)).
Proof.
  intros Hn. unfold attached. fields. destruct (member f (containerChildren s)); fields;
    [exact Hn | now apply appended_NoDup].
Qed.

Lemma offline_fields f s :
  frame (offline f s) = frame s /\
  dom (offline f s) = dom s /\
  frameChildren (offline f s) = frameChildren s /\
  options (offline f s) = options s /\
  props (offline f s) = props s /\
  range (offline f s) = range s /\
  parent (offline f s) = parent s /\
  width (offline f s) = width s /\
  height (offline f s) = height s.
Proof. repeat split. Qed.

Lemma sized_fields host s :
  frame (sized host s) = frame s /\
  dom (sized host s) = dom s /\
  frameChildren (sized host s) = frameChildren s /\
  containerChildren (sized host s) = containerChildren s /\
  elems (sized host s) = elems s /\
  options (sized host s) = options s /\
  range (sized host s) = range s /\
  parent (sized host s) = parent s /\
  width (sized host s) = width s.
Proof. repeat split. Qed.

Lemma prepared_ready host s : wf s -> ready host s (prepared host s).
Proof.
  intros Hwf.
  pose proof (framed_frame s) as Hf.
  pose proof (framed_lt s Hwf) as Hlt.
  pose proof (framed_outside s Hwf) as Hout.
  pose proof (framed_pool_ok s (wf_pool s Hwf)) as Hok0.
  destruct (framed_fields s) as (Hfc & Hcc & Hd & Hpr & Ho & Hr & Hp).
  unfold prepared. destruct (framed s) as [f s0] eqn:Efr. cbn [fst snd] in *.
  assert (Hok1 : pool_ok (attached host f s0)).
  { apply (pool_ok_elems s0); [exact Hok0 | apply attached_frameChildren
                              | apply attached_dom |].
    intros h Hin. rewrite attached_elems. apply class_of_alter_ne.
    intros ->. apply Hout. now rewrite <- Hfc. }
  assert (Hc1 : class_of (elems (attached host f s0)) f = Some frame_cls).
  { rewrite attached_elems. now apply class_of_alter_eq. }
  set (s1 := attached host f s0) in *.
  assert (Hok2 : pool_ok (measured host s1)) by now apply measured_pool_ok.
  assert (Hc2 : class_of (elems (measured host s1)) f = Some frame_cls).
  { rewrite measured_class; [exact Hc1 | now apply class_of_lt in Hc1]. }
  set (s2 := measured host s1) in *.
  pose proof (pool_child_class_framed s) as Hcf. rewrite Efr in Hcf. cbn [snd] in Hcf.
  split; rewrite ?Efr; cbn [fst snd].
  - apply (pool_ok_elems (sized host s2)); try reflexivity.
    + apply (pool_ok_ext s2); try reflexivity. exact Hok2.
    + intros h Hin. unfold offline. fields. now apply class_of_alter.
  - unfold offline, sized. fields. unfold s2, s1.
    now rewrite measured_dom, attached_dom, Hd, (wf_retired s Hwf).
  - unfold offline, sized. fields. unfold s2, s1.
    now rewrite measured_frame, attached_frame.
  - unfold offline. fields. rewrite class_of_alter by reflexivity. exact Hc2.
  - unfold offline, sized. fields. unfold s2, s1.
    now rewrite measured_dom, attached_dom.
  - unfold offline, sized. fields. unfold s2, s1.
    rewrite measured_frameChildren by exact Hok1. now rewrite attached_frameChildren.
  - unfold offline, sized. fields. unfold s2, s1.
    now rewrite measured_options, attached_options.
  - unfold offline, sized. fields. unfold s2, s1.
    now rewrite measured_range, attached_range.
  - unfold offline, sized. fields. unfold s2, s1.
    now rewrite measured_parent, attached_parent.
  - unfold offline, sized. fields. unfold s2, s1.
    now rewrite measured_width, attached_width.
  - intros h Hin. unfold offline, sized. fields.
    rewrite class_of_alter by reflexivity.
    unfold s2. rewrite measured_class.
    + unfold s1. rewrite attached_elems, class_of_alter_ne by (intros ->; now apply Hout).
      apply (Hcf h Hwf Hin).
    + unfold s1. rewrite attached_elems, length_alter.
      destruct (pool_child_class s h (wf_pool s Hwf) Hin) as [[k Hk] | Hk];
        rewrite <- (Hcf h Hwf Hin) in Hk; now apply class_of_lt in Hk.
  - unfold offline, sized. fields. apply without_NoDup. unfold s2, s1.
    rewrite measured_containerChildren. apply attached_NoDup.
    rewrite Hcc. apply (wf_container s Hwf).
  - unfold offline, sized. fields. apply without_not_elem. unfold s2, s1.
    rewrite measured_containerChildren. apply attached_NoDup.
    rewrite Hcc. apply (wf_container s Hwf).
Qed.

End Stages.

(** ** A completed repaint keeps the invariant *)

Section Completed.

Context {Step : Type} `{StepOps : TimeStepOps Step} `{U : Util}.

Implicit Types (s : State Step) (m : mark) (k : kind) (h : handle) (d : Dom).

Lemma place_class o m s h :
  h < length (elems s) ->
  class_of (elems (place o m s)) h = class_of (elems s) h.
Proof.
  intros Hlt. unfold place. destruct (retired (kind_of m) (dom s)); fields.
  - now apply class_of_app_l.
  - apply class_of_alter, dress_className.
Qed.

Lemma place_length o m s : length (elems s) <= length (elems (place o m s)).
Proof.
  unfold place. destruct (retired (kind_of m) (dom s)); fields.
  - rewrite length_app. lia.
  - now rewrite length_alter.
Qed.

Lemma places_class o ms : forall s h,
  h < length (elems s) ->
  class_of (elems (places o ms s)) h = class_of (elems s) h.
Proof.
  induction ms as [| m ms IH]; intros s h Hlt; [reflexivity |].
  rewrite places_cons, IH; [now apply place_class |].
  pose proof (place_length o m s). lia.
Qed.

Lemma relabelled_class r s h :
  h < length (elems s) ->
  class_of (elems (relabelled r s)) h = class_of (elems s) h.
Proof.
  intros Hlt. unfold relabelled. rewrite sweep_elems.
  rewrite places_class by exact Hlt. reflexivity.
Qed.

Lemma relabelled_fields r s :
  frame (relabelled r s) = frame s /\
  line (dom (relabelled r s)) = line (dom s) /\
  options (relabelled r s) = options s /\
  parent (relabelled r s) = parent s /\
  containerChildren (relabelled r s) = containerChildren s /\
  range (relabelled r s) = range s /\
  props (relabelled r s) = props s /\
  width (relabelled r s) = width s /\
  height (relabelled r s) = height s.
Proof.
  unfold relabelled.
  rewrite sweep_frame, sweep_line, sweep_options, sweep_parent,
    sweep_containerChildren, sweep_range, sweep_props, sweep_width, sweep_height.
  rewrite places_frame, places_line, places_options, places_parent,
    places_containerChildren, places_range, places_props, places_width,
    places_height.
  repeat split.
Qed.

Lemma relined_pool_ok s :
  pool_ok s -> pool_ok (relined s).
Proof.
  intros Hok. unfold relined.
  destruct (shows showMinorLabels s || shows showMajorLabels s); [| exact Hok].
  destruct (line (dom s)) as [l |] eqn:El.
  - pose proof (pool_line_member s l Hok El) as Hin.
    assert (Hp : appended l (without l (frameChildren s)) ≡ₚ frameChildren s).
    { unfold appended.
      rewrite (without_absent l (without l (frameChildren s)))
        by (apply without_not_elem, (pool_NoDup s Hok)).
      rewrite (without_Permutation l (frameChildren s) Hin) at 2.
      solve_Permutation. }
    split; fields.
    + rewrite Hp. apply (pool_children s Hok).
    + rewrite Hp. apply (pool_NoDup s Hok).
    + intros k h Hh. rewrite class_of_alter by reflexivity.
      now apply (pool_class s Hok).
    + intros l' Hl'. rewrite class_of_alter by reflexivity.
      now apply (pool_line s Hok).
  - pose proof (pool_fresh s Hok) as Hfresh.
    split; fields.
    + rewrite appended_absent by exact Hfresh.
      rewrite (pool_children s Hok). unfold pooled, line_list. cbn [line set_line].
      rewrite El. change (all_active (set_line ?v ?d)) with (all_active d).
      change (all_retired (set_line ?v ?d)) with (all_retired d).
      solve_Permutation.
    + rewrite appended_absent by exact Hfresh.
      apply NoDup_app. repeat split; [apply (pool_NoDup s Hok) | | apply NoDup_singleton].
      intros x Hx Hx'. apply list_elem_of_singleton in Hx'. now subst.
    + intros k h Hh.
      change (h ∈ active k (dom s) ++ retired k (dom s)) in Hh.
      rewrite class_of_app_l; [now apply (pool_class s Hok) |].
      eapply class_of_lt. now apply (pool_class s Hok k).
    + intros l Hl. cbn in Hl. injection Hl as <-.
      now rewrite class_of_new.
Qed.

Lemma relined_fields s :
  frame (relined s) = frame s /\
  containerChildren (relined s) = containerChildren s /\
  (forall k, active k (dom (relined s)) = active k (dom s)) /\
  all_retired (dom (relined s)) = all_retired (dom s) /\
  options (relined s) = options s /\
  parent (relined s) = parent s /\
  range (relined s) = range s.
Proof.
  unfold relined.
  destruct (shows showMinorLabels s || shows showMajorLabels s); [| repeat split].
  destruct (line (dom s)); repeat split; intros []; reflexivity.
Qed.

Lemma relined_class s h :
  h < length (elems s) ->
  class_of (elems (relined s)) h = class_of (elems s) h.
Proof.
  intros Hlt. unfold relined.
  destruct (shows showMinorLabels s || shows showMajorLabels s); [| reflexivity].
  destruct (line (dom s)); fields.
  - now apply class_of_alter.
  - now apply class_of_app_l.
Qed.

Lemma insertedBefore_NoDup f b (l : list handle) :
  NoDup l -> f ∉ l -> NoDup (insertedBefore f b l).
Proof.
  induction l as [| x l IH]; intros Hn Hf; cbn [insertedBefore].
  - apply NoDup_singleton.
  - destruct (Nat.eqb x b).
    + now apply NoDup_cons.
    + apply NoDup_cons in Hn as [Hx Hn].
      apply not_elem_of_cons in Hf as [Hfx Hf].
      apply NoDup_cons. split; [| now apply IH].
      intros Hin. clear IH Hn. induction l as [| y l IHl]; cbn [insertedBefore] in Hin.
      * apply list_elem_of_singleton in Hin. congruence.
      * apply not_elem_of_cons in Hx as [Hxy Hx].
        apply not_elem_of_cons in Hf as [Hfy Hf].
        destruct (Nat.eqb y b).
        -- apply elem_of_cons in Hin as [-> | Hin]; [congruence |].
           apply elem_of_cons in Hin as [-> | Hin]; [congruence | contradiction].
        -- apply elem_of_cons in Hin as [-> | Hin]; [congruence |]. now apply IHl.
Qed.

Lemma online_NoDup f before s :
  NoDup (containerChildren s) -> f ∉ containerChildren s ->
  NoDup (containerChildren (online f before s)).
Proof.
  intros Hn Hf. unfold online. destruct before; fields.
  - now apply insertedBefore_NoDup.
  - now apply appended_NoDup.
Qed.

Lemma online_fields f before s :
  elems (online f before s) = elems s /\
  frameChildren (online f before s) = frameChildren s /\
  dom (online f before s) = dom s /\
  frame (online f before s) = frame s.
Proof. unfold online. destruct before; repeat split. Qed.

Lemma repaint_completes host s r :
  wf s ->
  can_attach host s -> parent s = true -> range s = Some r -> can_hide s ->
  repaint host s = Ok tt (repainted host r s) /\
  wf (repainted host r s) /\
  forall k, length (live k (repainted host r s)) =
            length (of_kind k (cycle_marks r (prepared host s))).
Proof.
  intros Hwf Hatt Hp Hr Hhide.
  pose proof (prepared_ready host s Hwf) as Hready.
  set (p := prepared host s) in *.
  destruct (relabelled_pool p r (ready_pool _ _ _ Hready) (ready_retired _ _ _ Hready))
    as (Hok1 & Hret1 & Hcount).
  destruct (relabelled_fields r p) as (Hf1 & Hl1 & Ho1 & Hp1 & Hc1 & Hr1 & _).
  set (t := relabelled r p) in *.
  pose proof (relined_pool_ok t Hok1) as Hok2.
  destruct (relined_fields t) as (Hf2 & Hc2 & Ha2 & Hret2 & Ho2 & Hp2 & Hr2).
  split; [| split].
  - rewrite repaint_prepared by assumption. fold p.
    rewrite (bind_Ok _ _ _ _ _ (_repaintLabels_relabelled p (fst (framed s)) r
               (ready_frame _ _ _ Hready)
               ltac:(now rewrite (ready_range _ _ _ Hready)))).
    fold t.
    rewrite (bind_Ok _ _ _ _ _ (_repaintLine_relined t (fst (framed s))
               ltac:(now rewrite Hf1, (ready_frame _ _ _ Hready))
               ltac:(intros l Hl; apply member_true; now apply pool_line_member)
               ltac:(unfold shows; rewrite Ho1, (ready_options _ _ _ Hready), Hl1,
                       (ready_dom _ _ _ Hready); exact Hhide))).
    reflexivity.
  - unfold repainted. fold p. fold t.
    set (before := nextSibling _ _).
    destruct (online_fields (fst (framed s)) before (relined t)) as (He & Hfc & Hd & Hf).
    split.
    + apply (pool_ok_ext (relined t)); assumption.
    + now rewrite Hd, Hret2.
    + intros f Hfr. rewrite Hf, Hf2, Hf1, (ready_frame _ _ _ Hready) in Hfr.
      injection Hfr as <-. rewrite He.
      pose proof (ready_class _ _ _ Hready) as Hcl. fold p in Hcl.
      pose proof (class_of_lt _ _ _ Hcl) as Hlt.
      rewrite relined_class.
      * unfold t. now rewrite relabelled_class.
      * unfold t, relabelled. rewrite sweep_elems.
        assert (Hge : forall o ms s0, length (elems s0) <= length (elems (places o ms s0))).
        { intros o ms. induction ms as [| m ms IH]; intros s0; [reflexivity |].
          rewrite places_cons. pose proof (place_length o m s0).
          specialize (IH (place o m s0)). lia. }
        eapply Nat.lt_le_trans; [| apply Hge]. exact Hlt.
    + apply online_NoDup; rewrite Hc2, Hc1.
      * apply (ready_container _ _ _ Hready).
      * apply (ready_offline _ _ _ Hready).
  - intros k. unfold repainted. fold p. fold t.
    set (before := nextSibling _ _).
    destruct (online_fields (fst (framed s)) before (relined t)) as (He & Hfc & Hd & Hf).
    rewrite <- Hcount, <- Ha2.
    rewrite <- (live_length (relined t) k Hok2) by now rewrite Hret2.
    unfold live. now rewrite He, Hfc.
Qed.

End Completed.

(** ** What the placed elements look like *)

Section Painted.

Context {Step : Type} `{StepOps : TimeStepOps Step} `{U : Util}.

Implicit Types (s : State Step) (m : mark) (k : kind) (h : handle) (d : Dom).

Lemma dress_dress o p m e : dress o p m (dress o p m e) = dress o p m e.
Proof.
  destruct m; cbn [dress]; unfold anchored; destruct (is_top o); reflexivity.
Qed.

Lemma pooled_NoDup s : pool_ok s -> NoDup (pooled (dom s)).
Proof. intros Hok. rewrite <- (pool_children s Hok). apply (pool_NoDup s Hok). Qed.

Lemma chosen_not_active m s :
  pool_ok s -> chosen m s ∉ all_active (dom s).
Proof.
  intros Hok Hin. unfold chosen in Hin.
  destruct (retired (kind_of m) (dom s)) as [| h r] eqn:E.
  - apply (pool_fresh s Hok). rewrite (pool_children s Hok).
    unfold pooled. apply elem_of_app. now left.
  - pose proof (pooled_NoDup s Hok) as Hn. unfold pooled in Hn.
    apply NoDup_app in Hn as (_ & Hdis & _).
    apply (Hdis h Hin). apply elem_of_app. left.
    apply elem_of_all_retired. exists (kind_of m). rewrite E. left.
Qed.

Lemma place_chosen o m s :
  pool_ok s ->
  exists e, elems (place o m s) !! chosen m s = Some (dress o (props s) m e).
Proof.
  intros Hok. unfold place, chosen.
  destruct (retired (kind_of m) (dom s)) as [| h r] eqn:E; fields.
  - exists (newborn m). rewrite lookup_app_r by lia. now rewrite Nat.sub_diag.
  - assert (Hlt : h < length (elems s)).
    { eapply class_of_lt, (pool_class s Hok (kind_of m)).
      apply elem_of_app. right. rewrite E. left. }
    destruct (lookup_lt_is_Some_2 _ _ Hlt) as [e He].
    exists e. rewrite list_lookup_alter_eq, He. reflexivity.
Qed.

Lemma place_other o m s h :
  h <> chosen m s -> h < length (elems s) ->
  elems (place o m s) !! h = elems s !! h.
Proof.
  intros Hne Hlt. unfold place, chosen in *.
  destruct (retired (kind_of m) (dom s)) as [| h' r]; fields.
  - now apply lookup_app_l.
  - now apply list_lookup_alter_ne.
Qed.

Lemma place_all_active o m s :
  all_active (dom (place o m s)) ≡ₚ chosen m s :: all_active (dom s).
Proof.
  unfold place, chosen. destruct (retired (kind_of m) (dom s)); fields.
  - apply all_active_push.
  - rewrite <- (active_set_retired (kind_of m) (kind_of m) l (dom s)).
    rewrite all_active_push. reflexivity.
Qed.

Lemma all_active_lt s h : pool_ok s -> h ∈ all_active (dom s) -> h < length (elems s).
Proof.
  intros Hok Hin. apply pool_child_lt; [exact Hok |].
  rewrite (pool_children s Hok). unfold pooled. apply elem_of_app. now left.
Qed.

(** After placing [ms], each pool has grown by the handles that carry the
    marks of its kind, in order; the elements that were active before are
    untouched. *)
Lemma places_painted o ms : forall s,
  pool_ok s ->
  (forall h, h ∈ all_active (dom s) ->
     elems (places o ms s) !! h = elems s !! h) /\
  forall k, exists news,
    active k (dom (places o ms s)) = active k (dom s) ++ news /\
    Forall2 (dressed o (places o ms s)) news (of_kind k ms).
Proof.
  induction ms as [| m ms IH]; intros s Hok.
  { split; [reflexivity |]. intros k. exists []. rewrite app_nil_r.
    split; [reflexivity | constructor]. }
  rewrite places_cons.
  pose proof (place_pool_ok o m s Hok) as Hok1.
  destruct (IH (place o m s) Hok1) as [Hkeep Hnews].
  assert (Hc1 : chosen m s ∈ all_active (dom (place o m s)))
    by (rewrite place_all_active; left).
  split.
  - intros h Hh.
    rewrite Hkeep by (rewrite place_all_active; now right).
    apply place_other; [| now apply all_active_lt].
    intros ->. now apply (chosen_not_active m s Hok).
  - intros k. destruct (Hnews k) as (news & Hact & Hdr).
    rewrite place_active in Hact. fold (chosen m s) in Hact.
    unfold of_kind. cbn [List.filter]. fold (of_kind k ms).
    destruct (kind_eqb (kind_of m) k) eqn:Ek.
    + exists (chosen m s :: news). split; [now rewrite Hact, <- app_assoc |].
      constructor; [| exact Hdr].
      destruct (place_chosen o m s Hok) as [e He].
      exists (dress o (props s) m e). rewrite (Hkeep _ Hc1), places_props, place_props.
      split; [exact He | apply dress_dress].
    + exists news. rewrite app_nil_r in Hact. now split.
Qed.

End Painted.

(** ** Repainting what is already painted *)

Section Replay.

Context {Step : Type} `{StepOps : TimeStepOps Step} `{U : Util}.

Implicit Types (s : State Step) (m : mark) (k : kind) (h : handle) (d : Dom).

Lemma nextSibling_elem f b (l : list handle) : nextSibling f l = Some b -> b ∈ l.
Proof.
  induction l as [| x l IH]; [discriminate |]. cbn [nextSibling].
  destruct (Nat.eqb x f).
  - destruct l as [| y l]; [discriminate |]. cbn. intros [= ->]. right. left.
  - intros H. right. now apply IH.
Qed.

Lemma restored_same f (l : list handle) : NoDup l -> f ∈ l -> restored f l = l.
Proof.
  unfold restored. induction l as [| x l IH]; intros Hn Hin.
  { now apply not_elem_of_nil in Hin. }
  apply NoDup_cons in Hn as [Hx Hn]. cbn [nextSibling without].
  destruct (Nat.eqb_spec x f) as [-> | Hne].
  - destruct l as [| y l]; cbn.
    + reflexivity.
    + now rewrite Nat.eqb_refl.
  - apply elem_of_cons in Hin as [-> | Hin]; [congruence |].
    specialize (IH Hn Hin).
    destruct (nextSibling f l) as [b |] eqn:Eb.
    + cbn [insertedBefore].
      destruct (Nat.eqb_spec x b) as [-> | Hxb].
      * exfalso. apply Hx. now apply (nextSibling_elem f).
      * now rewrite IH.
    + unfold appended in *. cbn [without].
      destruct (Nat.eqb_spec x f) as [-> | _]; [congruence |].
      cbn [app]. now rewrite IH.
Qed.

Lemma alter_fixed {A} (g : A -> A) (l : list A) (i : nat) :
  (forall x, l !! i = Some x -> g x = x) -> alter g i l = l.
Proof.
  revert i. induction l as [| a l IH]; intros i Hg; [reflexivity |].
  destruct i as [| i]; cbn.
  - f_equal. now apply Hg.
  - f_equal. apply IH. intros x Hx. now apply Hg.
Qed.

Lemma revived_retire d : all_retired d = [] -> revived (retire d) = d.
Proof.
  unfold all_retired. intros H.
  apply app_eq_nil in H as [H1 H]. apply app_eq_nil in H as [H2 H].
  apply app_eq_nil in H as [H3 H4].
  destruct d as [a b c e [r1 r2 r3 r4] l]. cbn in *. subst. reflexivity.
Qed.

Lemma revived_place k h r d :
  retired k d = h :: r ->
  revived (set_active k (active k d ++ [h]) (set_retired k r d)) = revived d.
Proof.
  destruct d as [a b c e [r1 r2 r3 r4] l].
  destruct k; cbn; intros ->; unfold revived; cbn; now rewrite <- app_assoc.
Qed.

(** Placing marks on elements that already carry them, in the order in
    which they were retired, only moves the elements back to their pools. *)
Lemma places_replay o ms : forall s,
  (forall k, Forall2 (dressed o s) (retired k (dom s)) (of_kind k ms)) ->
  places o ms s = set_dom (revived (dom s)) s.
Proof.
  induction ms as [| m ms IH]; intros s Hall.
  - rewrite places_nil.
    assert (Hd : revived (dom s) = dom s).
    { pose proof (Hall MajorLine) as H1. pose proof (Hall MajorText) as H2.
      pose proof (Hall MinorLine) as H3. pose proof (Hall MinorText) as H4.
      cbn in H1, H2, H3, H4.
      apply Forall2_nil_inv_r in H1, H2, H3, H4.
      destruct (dom s) as [a b c e [r1 r2 r3 r4] l]. cbn in *. subst.
      unfold revived. cbn. now rewrite !app_nil_r. }
    rewrite Hd. now destruct s.
  - rewrite places_cons.
    pose proof (Hall (kind_of m)) as Hk. unfold of_kind in Hk. cbn [List.filter] in Hk.
    assert (Hkk : kind_eqb (kind_of m) (kind_of m) = true) by now apply kind_eqb_eq.
    rewrite Hkk in Hk. fold (of_kind (kind_of m) ms) in Hk.
    inversion Hk as [| h m' r ms' Hh Hr Eh Em]. subst m' ms'. symmetry in Eh.
    assert (Hplace : place o m s =
              set_dom (set_active (kind_of m) (active (kind_of m) (dom s) ++ [h])
                         (set_retired (kind_of m) r (dom s))) s).
    { unfold place. rewrite Eh. destruct Hh as (e & He & Hd).
      rewrite alter_fixed; [now destruct s |].
      intros x Hx. rewrite He in Hx. now injection Hx as <-. }
    rewrite Hplace, IH.
    + fields. now rewrite (revived_place _ _ _ _ Eh).
    + intros k. fields. rewrite retired_set_active, retired_set_retired.
      destruct (kind_eqb (kind_of m) k) eqn:Ek.
      * apply kind_eqb_eq in Ek. subst k. exact Hr.
      * specialize (Hall k). unfold of_kind in Hall. cbn [List.filter] in Hall.
        rewrite Ek in Hall. exact Hall.
Qed.

End Replay.

(** ** A settled state is a fixed point of [repaint] *)

Section Settled.

Context {Step : Type} `{StepOps : TimeStepOps Step} `{U : Util}.

Implicit Types (s : State Step) (m : mark) (k : kind) (h : handle) (d : Dom).

Lemma with_style_fixed (g : Style.t -> Style.t) (e : Element) :
  g (style e) = style e -> with_style g e = e.
Proof.
  destruct e as [c t st]. cbn. intros H. unfold with_style. cbn. now rewrite H.
Qed.

Lemma with_className_fixed (c : string) (e : Element) :
  className e = c -> with_className c e = e.
Proof. destruct e as [c' t st]. cbn. now intros ->. Qed.

Lemma retired_retire k d : retired k (retire d) = active k d.
Proof. now destruct k. Qed.

Lemma settled_prepared host r s :
  settled host r s ->
  exists f,
    frame s = Some f /\
    framed s = (f, s) /\
    attached host f s = s /\
    prepared host s = set_containerChildren (without f (containerChildren s)) s.
Proof.
  intros Hs.
  destruct (settled_frame host r s Hs) as (f & e & Hf & Hm & He & Hcl & Hst).
  exists f.
  assert (H1 : framed s = (f, s)) by (unfold framed; now rewrite Hf).
  assert (H2 : attached host f s = s).
  { unfold attached. fields. rewrite Hm.
    same_state.
    - apply alter_fixed. intros x Hx. rewrite He in Hx. injection Hx as <-.
      now apply with_className_fixed.
    - symmetry. apply (settled_width host r s Hs). }
  assert (H3 : measured host s = s).
  { unfold measured. destruct (settled_measured host r s Hs) as [[a Ha] [b Hb]].
    now rewrite Ha, Hb. }
  assert (H4 : sized host s = s).
  { destruct (settled_sized host r s Hs) as [Hp Hh]. same_state; now symmetry. }
  split; [exact Hf |]. split; [exact H1 |]. split; [exact H2 |].
  unfold prepared. rewrite H1, H2, H3, H4. unfold offline.
  same_state. apply alter_fixed. intros x Hx. rewrite He in Hx. injection Hx as <-.
  now apply with_style_fixed.
Qed.

Lemma settled_relabelled host r s cc :
  wf s -> settled host r s ->
  relabelled r (set_containerChildren cc s) = set_containerChildren cc s.
Proof.
  intros Hwf Hs. unfold relabelled.
  set (p := set_containerChildren cc s).
  rewrite places_replay.
  - fields. rewrite sweep_nothing.
    + same_state.
      * apply revived_retire, (wf_retired s Hwf).
      * symmetry. apply (settled_conversion host r s Hs).
      * symmetry. apply (settled_step host r s Hs).
    + fields. rewrite revived_retire by apply (wf_retired s Hwf).
      apply (wf_retired s Hwf).
  - intros k. fields. rewrite retired_retire.
    apply (settled_painted host r s Hs k).
Qed.

Lemma settled_relined host r s cc :
  settled host r s ->
  relined (set_containerChildren cc s) = set_containerChildren cc s.
Proof.
  intros Hs. unfold relined.
  change (shows showMinorLabels (set_containerChildren cc s))
    with (shows showMinorLabels s).
  change (shows showMajorLabels (set_containerChildren cc s))
    with (shows showMajorLabels s).
  pose proof (settled_line host r s Hs) as Hl.
  destruct (shows showMinorLabels s || shows showMajorLabels s); [| reflexivity].
  destruct Hl as (l & X & e & Hline & Hfc & HX & He & Hst).
  fields. rewrite Hline.
  same_state.
  - apply alter_fixed. intros x Hx. rewrite He in Hx. injection Hx as <-.
    now apply with_style_fixed.
  - rewrite Hfc, without_snoc by exact HX. now apply appended_absent.
Qed.

(** Repainting a settled state changes nothing. *)
Lemma settled_fixed host r s :
  wf s -> settled host r s -> repainted host r s = s.
Proof.
  intros Hwf Hs.
  destruct (settled_prepared host r s Hs) as (f & Hf & H1 & H2 & H3).
  destruct (settled_frame host r s Hs) as (f' & e & Hf' & Hm & _).
  rewrite Hf in Hf'. injection Hf' as <-.
  unfold repainted. rewrite H1. cbn [fst snd]. rewrite H2, H3.
  rewrite (settled_relabelled host r s _ Hwf Hs), (settled_relined host r s _ Hs).
  unfold online.
  fold (restored f (containerChildren s)).
  assert (Hre : restored f (containerChildren s) = containerChildren s).
  { apply restored_same; [apply (wf_container s Hwf) | now apply member_true]. }
  unfold restored in Hre.
  destruct (nextSibling f (containerChildren s)); fields; same_state; exact Hre.
Qed.

End Settled.

(** ** A completed repaint leaves a settled state *)

Section Settles.

Context {Step : Type} `{StepOps : TimeStepOps Step} `{U : Util}.

Implicit Types (s : State Step) (m : mark) (k : kind) (h : handle) (d : Dom).

Lemma converted_ext r s s' : width s' = width s -> converted r s' = converted r s.
Proof. unfold converted. now intros ->. Qed.

Lemma cursor_ext r s s' :
  width s' = width s -> props s' = props s -> cursor r s' = cursor r s.
Proof. intros Hw Hp. unfold cursor. now rewrite (converted_ext r s s' Hw), Hp. Qed.

Lemma cycle_marks_ext r s s' :
  width s' = width s -> props s' = props s -> options s' = options s ->
  cycle_marks r s' = cycle_marks r s.
Proof.
  intros Hw Hp Ho.
  unfold cycle_marks, cycle_left_marks, cycle_loop_marks, cycle_ticks, shows.
  now rewrite (cursor_ext r s s' Hw Hp), (converted_ext r s s' Hw), Hp, Ho.
Qed.

Lemma dressed_ext o s s' h m :
  elems s' !! h = elems s !! h -> props s' = props s ->
  dressed o s h m -> dressed o s' h m.
Proof. intros He Hp (e & Hl & Hd). exists e. now rewrite He, Hp. Qed.

Lemma measured_sizes host s :
  is_Some (minorCharHeight (props (measured host s))) /\
  is_Some (majorCharHeight (props (measured host s))).
Proof.
  unfold measured.
  destruct (minorCharHeight (props s)) eqn:Em; fields;
    destruct (majorCharHeight (props s)) eqn:EM; fields;
    rewrite ?Em, ?EM; split; eauto.
Qed.

Lemma sized_sized host (x y : State Step) :
  options y = options x -> props y = props (sized host x) ->
  height y = height (sized host x) ->
  props y = props (sized host y) /\ height y = height (sized host y).
Proof.
  intros Ho Hp Hh. unfold sized, shows in *. fields. fields in Hp. fields in Hh.
  rewrite Ho, Hp, Hh. fields. split; [| reflexivity].
  destruct (props x). reflexivity.
Qed.

Lemma anchored_anchored o v st : anchored o v (anchored o v st) = anchored o v st.
Proof. unfold anchored. destruct (is_top o); reflexivity. Qed.

(** The frame element is not touched by placing marks. *)
Lemma place_keeps_frame o m s f :
  pool_ok s -> class_of (elems s) f = Some frame_cls ->
  elems (place o m s) !! f = elems s !! f.
Proof.
  intros Hok Hf. apply place_other; [| now apply class_of_lt in Hf].
  unfold chosen. destruct (retired (kind_of m) (dom s)) as [| h r] eqn:E.
  - apply class_of_lt in Hf. lia.
  - intros ->.
    rewrite (pool_class s Hok (kind_of m) h) in Hf
      by (apply elem_of_app; right; rewrite E; left).
    injection Hf as Hf. now apply cls_not_frame in Hf.
Qed.

Lemma places_keeps_frame o ms f : forall s,
  pool_ok s -> class_of (elems s) f = Some frame_cls ->
  elems (places o ms s) !! f = elems s !! f.
Proof.
  induction ms as [| m ms IH]; intros s Hok Hf; [reflexivity |].
  rewrite places_cons, IH.
  - now apply place_keeps_frame.
  - now apply place_pool_ok.
  - rewrite place_class; [exact Hf | now apply class_of_lt in Hf].
Qed.

(** The elements of the pools are not touched by [_repaintLine]. *)
Lemma relined_keeps s h c :
  pool_ok s -> class_of (elems s) h = Some c -> c <> line_cls ->
  elems (relined s) !! h = elems s !! h.
Proof.
  intros Hok Hc Hne. unfold relined.
  destruct (shows showMinorLabels s || shows showMajorLabels s); [| reflexivity].
  destruct (line (dom s)) as [l |] eqn:El; fields.
  - apply list_lookup_alter_ne. intros ->.
    rewrite (pool_line s Hok h El) in Hc. injection Hc as Hc. congruence.
  - apply lookup_app_l. now apply class_of_lt in Hc.
Qed.

Lemma frame_style_ext s s' :
  options s' = options s -> height s' = height s -> frame_style s' = frame_style s.
Proof. intros Ho Hh. unfold frame_style. now rewrite Ho, Hh. Qed.

Lemma line_style_ext s s' :
  options s' = options s -> height s' = height s -> line_style s' = line_style s.
Proof. intros Ho Hh. unfold line_style. now rewrite Ho, Hh. Qed.

Lemma prepared_container host s :
  containerChildren (prepared host s) =
  without (fst (framed s))
    (containerChildren (attached host (fst (framed s)) (snd (framed s)))).
Proof.
  unfold prepared. destruct (framed s) as [f s0]. cbn [fst snd].
  unfold offline, sized. fields. now rewrite measured_containerChildren.
Qed.

Lemma prepared_props host s :
  let m := measured host (attached host (fst (framed s)) (snd (framed s))) in
  props (prepared host s) = props (sized host m) /\
  height (prepared host s) = height (sized host m) /\
  options (prepared host s) = options m /\
  is_Some (minorCharHeight (props (prepared host s))) /\
  is_Some (majorCharHeight (props (prepared host s))).
Proof.
  unfold prepared. destruct (framed s) as [f s0]. cbn [fst snd].
  split; [reflexivity |]. split; [reflexivity |]. split; [reflexivity |].
  unfold offline, sized. fields. apply measured_sizes.
Qed.

Lemma prepared_frame_elem host s :
  wf s ->
  exists e,
    elems (prepared host s) !! fst (framed s) = Some e /\
    className e = frame_cls /\ style e = frame_style (prepared host s).
Proof.
  intros Hwf. pose proof (ready_class _ _ _ (prepared_ready host s Hwf)) as Hc.
  unfold prepared in *. destruct (framed s) as [f s0]. cbn [fst snd] in *.
  set (s3 := sized host _) in *.
  unfold class_of in Hc. unfold offline in *. fields. fields in Hc.
  rewrite list_lookup_alter_eq in *.
  destruct (elems s3 !! f) as [e0 |]; [| discriminate].
  cbn in Hc. injection Hc as Hc.
  exists (with_style (fun _ => frame_style s3) e0). repeat split. exact Hc.
Qed.

Lemma relabelled_conversion r s :
  conversion (relabelled r s) = Some (converted r s) /\
  step (relabelled r s) = Some (stopped 1000 (cursor r s)).
Proof.
  unfold relabelled.
  rewrite sweep_conversion, sweep_step, places_conversion, places_step. now split.
Qed.

Lemma relined_more s :
  props (relined s) = props s /\ width (relined s) = width s /\
  height (relined s) = height s /\ conversion (relined s) = conversion s /\
  step (relined s) = step s.
Proof.
  unfold relined.
  destruct (shows showMinorLabels s || shows showMajorLabels s); [| repeat split].
  destruct (line (dom s)); repeat split.
Qed.

Lemma online_more f before s :
  containerChildren (online f before s) =
    match before with
    | Some b => insertedBefore f b (containerChildren s)
    | None => appended f (containerChildren s)
    end /\
  options (online f before s) = options s /\ props (online f before s) = props s /\
  width (online f before s) = width s /\ height (online f before s) = height s /\
  parent (online f before s) = parent s /\ range (online f before s) = range s /\
  conversion (online f before s) = conversion s /\ step (online f before s) = step s.
Proof. unfold online. destruct before; repeat split. Qed.

(** The axis line after [_repaintLine], when it is shown. *)
Lemma relined_line s :
  pool_ok s ->
  shows showMinorLabels s || shows showMajorLabels s = true ->
  exists l X e,
    line (dom (relined s)) = Some l /\ frameChildren (relined s) = X ++ [l] /\
    (l ∉ X) /\ elems (relined s) !! l = Some e /\
    line_style s (style e) = style e.
Proof.
  intros Hok Hshow. unfold relined. rewrite Hshow.
  destruct (line (dom s)) as [l |] eqn:El.
  - pose proof (pool_line s Hok l El) as Hc. apply class_of_lt in Hc.
    destruct (lookup_lt_is_Some_2 _ _ Hc) as [e He].
    exists l, (without l (frameChildren s)), (with_style (line_style s) e).
    fields. split; [exact El |].
    assert (Hout : l ∉ without l (frameChildren s))
      by apply without_not_elem, (pool_NoDup s Hok).
    split; [now apply appended_absent |]. split; [exact Hout |].
    split; [now rewrite list_lookup_alter_eq, He |].
    unfold line_style. cbn. apply anchored_anchored.
  - exists (length (elems s)), (frameChildren s),
      (with_style (line_style s) (with_className line_cls blank)).
    fields. split; [reflexivity |].
    split; [apply appended_absent; now apply pool_fresh |].
    split; [now apply pool_fresh |].
    split; [rewrite lookup_app_r by lia; now rewrite Nat.sub_diag |].
    unfold line_style. cbn. apply anchored_anchored.
Qed.

Lemma Forall2_among {A B} (R R' : A -> B -> Prop) (l : list A) (l' : list B) :
  (forall a b, a ∈ l -> R a b -> R' a b) -> Forall2 R l l' -> Forall2 R' l l'.
Proof.
  intros Himp Hall. induction Hall as [| a b l l' Hab Hall IH]; constructor.
  - apply Himp; [left | exact Hab].
  - apply IH. intros a' b' Hin. apply Himp. now right.
Qed.

Lemma active_retire k d : active k (retire d) = [].
Proof. now destruct k. Qed.

(** After [_repaintLabels] every pooled element carries its mark of the
    cycle. *)
Lemma relabelled_painted s r :
  pool_ok s -> all_retired (dom s) = [] ->
  forall k,
    Forall2 (dressed (option_of orientation (options s)) (relabelled r s))
      (active k (dom (relabelled r s))) (of_kind k (cycle_marks r s)).
Proof.
  intros Hok Hr k. unfold relabelled.
  set (q := set_step _ (set_dom (retire (dom s)) _)).
  assert (Hok0 : pool_ok q).
  { apply (pool_ok_ext (set_dom (retire (dom s)) s)); try reflexivity.
    now apply retire_pool_ok. }
  destruct (places_painted (option_of orientation (options s)) (cycle_marks r s)
              q Hok0) as [_ Hp].
  destruct (Hp k) as (news & Hnews & Hall).
  rewrite sweep_active, Hnews.
  replace (active k (dom q)) with (@nil handle)
    by (unfold q; fields; now rewrite active_retire).
  cbn [app]. apply (Forall2_impl _ _ _ _ Hall).
  intros h m. apply dressed_ext; [now rewrite sweep_elems | now rewrite sweep_props].
Qed.

(** A repaint that completes leaves a settled state. *)
Lemma repainted_settled host r s :
  wf s -> can_attach host s -> parent s = true -> range s = Some r -> can_hide s ->
  settled host r (repainted host r s).
Proof.
  intros Hwf Hatt Hp Hr Hhide.
  pose proof (prepared_ready host s Hwf) as Hready.
  destruct (prepared_props host s) as (Hpp & Hph & Hpo & Hmeas).
  pose proof (prepared_container host s) as Hpc.
  destruct (prepared_frame_elem host s Hwf) as (e & He & Hecl & Hest).
  pose proof (ready_pool _ _ _ Hready) as Hok_p.
  pose proof (ready_retired _ _ _ Hready) as Hret_p.
  pose proof (relabelled_painted _ r Hok_p Hret_p) as Hpaint.
  destruct (relabelled_pool _ r Hok_p Hret_p) as (Hok_t & _ & _).
  destruct (relabelled_fields r (prepared host s))
    as (Hf_t & Hl_t & Ho_t & Hp_t & Hc_t & Hr_t & Hpr_t & Hw_t & Hh_t).
  destruct (relabelled_conversion r (prepared host s)) as (Hcv_t & Hst_t).
  assert (Hfe_t : elems (relabelled r (prepared host s)) !! fst (framed s) = Some e).
  { rewrite <- He. unfold relabelled. rewrite sweep_elems.
    rewrite places_keeps_frame; [reflexivity | |].
    - apply (pool_ok_ext (set_dom (retire (dom (prepared host s))) (prepared host s)));
        try reflexivity.
      now apply retire_pool_ok.
    - apply (ready_class _ _ _ Hready). }
  assert (Hfc_t : class_of (elems (relabelled r (prepared host s))) (fst (framed s))
                  = Some frame_cls)
    by (unfold class_of; rewrite Hfe_t; cbn; now rewrite Hecl).
  set (p := prepared host s) in *.
  set (t := relabelled r p) in *.
  pose proof (relined_pool_ok t Hok_t) as Hok_u.
  destruct (relined_fields t) as (Hf_u & Hc_u & Ha_u & _ & Ho_u & Hp_u & Hr_u).
  destruct (relined_more t) as (Hpr_u & Hw_u & Hh_u & Hcv_u & Hst_u).
  assert (Hfe_u : elems (relined t) !! fst (framed s) = Some e).
  { rewrite <- Hfe_t. apply (relined_keeps t _ frame_cls Hok_t Hfc_t). discriminate. }
  unfold repainted. fold p. fold t.
  set (f := fst (framed s)) in *.
  set (cc := containerChildren (attached host f (snd (framed s)))) in *.
  destruct (online_fields f (nextSibling f cc) (relined t)) as (He_o & Hfc_o & Hd_o & Hf_o).
  destruct (online_more f (nextSibling f cc) (relined t))
    as (Hc_o & Ho_o & Hpr_o & Hw_o & Hh_o & Hp_o & Hr_o & Hcv_o & Hst_o).
  assert (Hcc : containerChildren (online f (nextSibling f cc) (relined t)) = cc).
  { rewrite Hc_o, Hc_u, Hc_t, Hpc. fold f. fold cc.
    fold (restored f cc). apply restored_same.
    - unfold cc. apply attached_NoDup.
      destruct (framed_fields s) as (_ & -> & _). apply (wf_container s Hwf).
    - apply member_true. apply attached_member. }
  set (s1 := online f (nextSibling f cc) (relined t)) in *.
  assert (Hopt : options s1 = options p) by congruence.
  assert (Hprops : props s1 = props p) by congruence.
  assert (Hwidth : width s1 = width p) by congruence.
  assert (Hheight : height s1 = height p) by congruence.
  split.
  - exists f, e. split; [rewrite Hf_o, Hf_u, Hf_t; apply (ready_frame _ _ _ Hready) |].
    split; [rewrite Hcc; apply attached_member |].
    split; [now rewrite He_o |]. split; [exact Hecl |].
    rewrite Hest. symmetry. now apply frame_style_ext.
  - rewrite Hwidth. apply (ready_width _ _ _ Hready).
  - rewrite Hp_o, Hp_u, Hp_t, (ready_parent _ _ _ Hready). exact Hp.
  - rewrite Hr_o, Hr_u, Hr_t, (ready_range _ _ _ Hready). exact Hr.
  - rewrite Hprops. exact Hmeas.
  - apply (sized_sized host
             (measured host (attached host f (snd (framed s))))); congruence.
  - rewrite Hcv_o, Hcv_u, Hcv_t. f_equal. symmetry. now apply converted_ext.
  - rewrite Hst_o, Hst_u, Hst_t. do 2 f_equal. symmetry. now apply cursor_ext.
  - intros k. rewrite Hopt, (cycle_marks_ext r p s1 Hwidth Hprops Hopt).
    rewrite Hd_o, Ha_u.
    refine (Forall2_among _ _ _ _ _ (Hpaint k)).
    intros h m Hin. apply dressed_ext; [| congruence].
    rewrite He_o. apply (relined_keeps t h (cls k) Hok_t); [| apply cls_not_line].
    apply (pool_class t Hok_t). apply elem_of_app. now left.
  - unfold shows. rewrite Hopt, <- Ho_t. fold (shows showMinorLabels t).
    fold (shows showMajorLabels t).
    destruct (shows showMinorLabels t || shows showMajorLabels t) eqn:Hshow.
    + destruct (relined_line t Hok_t Hshow) as (l & X & e' & H1 & H2 & H3 & H4 & H5).
      exists l, X, e'. rewrite Hd_o, Hfc_o, He_o.
      split; [exact H1 |]. split; [exact H2 |]. split; [exact H3 |]. split; [exact H4 |].
      rewrite (line_style_ext t s1) by congruence. exact H5.
    + rewrite Hd_o. unfold relined. rewrite Hshow, Hl_t, (ready_dom _ _ _ Hready).
      apply Hhide. rewrite <- Hshow. unfold shows.
      now rewrite Ho_t, (ready_options _ _ _ Hready).
Qed.

End Settles.

(** ** When does [repaint] complete? *)

Section Twice.

Context {Step : Type} `{StepOps : TimeStepOps Step} `{U : Util}.

Implicit Types (s : State Step) (m : mark) (k : kind) (h : handle) (d : Dom).

(** Without a parent, or without a place for the frame, [repaint] throws. *)
Lemma repaint_refuses host s :
  ~ (can_attach host s /\ parent s = true) ->
  exists e s', repaint host s = Throw e s'.
Proof.
  intros Hno. unfold can_attach in Hno. unfold repaint.
  assert (Hframe : frame (snd (framed s)) = Some (fst (framed s)))
    by apply framed_frame.
  assert (Hpar : parent (snd (framed s)) = parent s)
    by (unfold framed; destruct (frame s); reflexivity).
  assert (Hcc : containerChildren (snd (framed s)) = containerChildren s)
    by (unfold framed; destruct (frame s); reflexivity).
  assert (Hstart :
    forall B (k : handle -> M Step B),
      bind (frame0 <- gets frame ;;
            match frame0 with
            | Some frame => ret frame
            | None => frame <- createElement ;; modify (set_frame (Some frame)) ;; ret frame
            end) k s = k (fst (framed s)) (snd (framed s))).
  { intros B k. run. unfold framed. destruct (frame s); run; reflexivity. }
  rewrite <- run_bind, Hstart. rewrite <- Hcc, <- Hpar in Hno.
  destruct (framed s) as [f s0]. cbn [fst snd] in *. clear Hstart Hcc Hpar.
  run.
  destruct (member f (containerChildren s0)) eqn:Em; cbn [negb]; run.
  - rewrite Em. rewrite (run_calculateCharSize host f) by exact Hframe.
    run. rewrite measured_parent. fields.
    destruct (parent s0); [exfalso; apply Hno; split; [now left | reflexivity] |].
    run. eauto.
  - destruct (parent s0); cbn [negb]; [| run; eauto].
    destruct (getContainer host); cbn [negb]; [| run; eauto].
    exfalso. apply Hno. split; [now right | reflexivity].
Qed.

Lemma can_attach_dec host s :
  {can_attach host s /\ parent s = true} + {~ (can_attach host s /\ parent s = true)}.
Proof.
  unfold can_attach.
  destruct (parent s); [| right; intros [_ H]; discriminate].
  destruct (member (fst (framed s)) (containerChildren s)); [left; split; auto |].
  destruct (getContainer host); [left; split; auto |].
  right. intros [[H | [_ H]] _]; discriminate.
Qed.

(** Without a range, [repaint] stops in [_updateConversion]: the frame has
    been prepared by then. *)
Lemma repaint_stops host s :
  can_attach host s -> parent s = true -> range (prepared host s) = None ->
  repaint host s = Throw (Error "No range configured") (prepared host s).
Proof.
  intros Hatt Hp Hr. rewrite repaint_prepared by assumption.
  unfold _repaintLabels. run.
  rewrite (bind_Throw _ _ _ _ _ (_updateConversion_Throw _ Hr)).
  reflexivity.
Qed.

(** With both kinds of labels hidden and an axis line left from an earlier
    repaint, [repaint] stops in [_repaintLine], after [_repaintLabels]. *)
Lemma repaint_trips host s r l :
  wf s -> can_attach host s -> parent s = true -> range s = Some r ->
  shows showMinorLabels s || shows showMajorLabels s = false ->
  line (dom s) = Some l ->
  repaint host s =
  Throw (TypeError "parameter 1 is not of type 'Node'") (relabelled r (prepared host s)).
Proof.
  intros Hwf Hatt Hp Hr Hhid Hl.
  pose proof (prepared_ready host s Hwf) as Hready.
  rewrite repaint_prepared by assumption.
  assert (Hrp : range (prepared host s) = Some r)
    by (now rewrite (ready_range _ _ _ Hready)).
  rewrite (bind_Ok _ _ _ _ _
             (_repaintLabels_relabelled _ _ r (ready_frame _ _ _ Hready) Hrp)).
  destruct (relabelled_pool _ r (ready_pool _ _ _ Hready) (ready_retired _ _ _ Hready))
    as (Hok_t & _ & _).
  destruct (relabelled_fields r (prepared host s))
    as (Hf_t & Hl_t & Ho_t & _).
  assert (Hline : line (dom (relabelled r (prepared host s))) = Some l)
    by (now rewrite Hl_t, (ready_dom _ _ _ Hready)).
  apply bind_Throw, (_repaintLine_hidden_Throw _ (fst (framed s)) l).
  - rewrite Hf_t. apply (ready_frame _ _ _ Hready).
  - unfold shows in *. now rewrite Ho_t, (ready_options _ _ _ Hready).
  - exact Hline.
  - apply member_true. now apply pool_line_member.
Qed.

(** A repaint that completes had what it needs. *)
Lemma repaint_completed host s a s1 :
  wf s -> repaint host s = Ok a s1 ->
  (can_attach host s /\ parent s = true) /\ (exists r, range s = Some r) /\ can_hide s.
Proof.
  intros Hwf H.
  destruct (can_attach_dec host s) as [[Hatt Hp] | Hno].
  2: { destruct (repaint_refuses host s Hno) as (e & s' & E). congruence. }
  split; [now split |].
  destruct (range s) as [r |] eqn:Hr.
  2: { rewrite repaint_stops in H; [discriminate | assumption ..|].
       now rewrite (ready_range _ _ _ (prepared_ready host s Hwf)). }
  split; [now exists r |].
  intros Hhid. destruct (line (dom s)) as [l |] eqn:Hl; [| reflexivity].
  rewrite (repaint_trips host s r l) in H by assumption. discriminate.
Qed.

(** Repainting a settled state completes, and changes nothing. *)
Lemma settled_again host r s :
  wf s -> settled host r s -> repaint host s = Ok tt s.
Proof.
  intros Hwf Hs.
  destruct (settled_frame host r s Hs) as (f & e & Hf & Hm & _).
  assert (Hfr : fst (framed s) = f) by (unfold framed; now rewrite Hf).
  destruct (repaint_completes host s r Hwf) as (Hrun & _).
  - left. now rewrite Hfr.
  - apply (settled_parent host r s Hs).
  - apply (settled_range host r s Hs).
  - intros Hhid. pose proof (settled_line host r s Hs) as Hl.
    now rewrite Hhid in Hl.
  - now rewrite Hrun, (settled_fixed host r s Hwf Hs).
Qed.

(** Measuring adds probes at the end of the element store. *)
Lemma measured_lookup host s h :
  h < length (elems s) -> elems (measured host s) !! h = elems s !! h.
Proof.
  intros Hlt. unfold measured.
  set (s1 := match minorCharHeight (props s) with Some _ => s | None => _ end).
  assert (H1 : elems s1 !! h = elems s !! h /\ h < length (elems s1)).
  { unfold s1. destruct (minorCharHeight (props s)); [now split |]. fields.
    unfold probed. fields. split; [now apply lookup_app_l |].
    rewrite length_app. lia. }
  destruct H1 as [Hc1 Hlt1]. clearbody s1.
  destruct (majorCharHeight (props s1)); [exact Hc1 |].
  fields. unfold probed. fields. now rewrite lookup_app_l.
Qed.

(** Preparing the frame leaves the children of the frame as they are. *)
Lemma prepared_lookup host s h :
  wf s -> h ∈ frameChildren s -> elems (prepared host s) !! h = elems s !! h.
Proof.
  intros Hwf Hin.
  pose proof (pool_child_lt s h (wf_pool s Hwf) Hin) as Hlt.
  pose proof (framed_outside s Hwf) as Hout.
  assert (Hne : fst (framed s) <> h) by (intros E; apply Hout; now rewrite E).
  assert (H0 : elems (snd (framed s)) !! h = elems s !! h)
    by (unfold framed; destruct (frame s); [reflexivity | now apply lookup_app_l]).
  assert (Hlt0 : h < length (elems (snd (framed s))))
    by (apply lookup_lt_is_Some; rewrite H0; now apply lookup_lt_is_Some).
  unfold prepared. destruct (framed s) as [f s0]. cbn [fst snd] in *.
  unfold offline, sized. fields.
  rewrite list_lookup_alter_ne by exact Hne.
  rewrite measured_lookup
    by (rewrite attached_elems, length_alter; exact Hlt0).
  rewrite attached_elems, list_lookup_alter_ne by exact Hne.
  exact H0.
Qed.

End Twice.

(** ** Pool conservation *)

Section Conservation.

Context {Step : Type} `{StepOps : TimeStepOps Step} `{U : Util}.

Implicit Types (s : State Step) (m : mark) (k : kind) (h : handle) (d : Dom).

Lemma wf_TimeAxis document container parent options :
  NoDup container ->
  wf (TimeAxis (Step := Step) document container parent options).
Proof.
  intros Hn. split.
  - split; cbn.
    + reflexivity.
    + apply NoDup_nil_2.
    + intros k h Hin. destruct k; now apply not_elem_of_nil in Hin.
    + discriminate.
  - reflexivity.
  - discriminate.
  - exact Hn.
Qed.

Lemma wf_ext s s' :
  elems s' = elems s -> frameChildren s' = frameChildren s ->
  containerChildren s' = containerChildren s -> frame s' = frame s ->
  dom s' = dom s -> wf s -> wf s'.
Proof.
  intros He Hfc Hcc Hf Hd [Hok Hr Hfr Hc]. split.
  - now apply (pool_ok_ext s).
  - now rewrite Hd.
  - intros f. rewrite Hf, He. apply Hfr.
  - now rewrite Hcc.
Qed.

Lemma wf_setRange range s : wf s -> wf (final (setRange range s)).
Proof.
  intros Hwf. unfold setRange. destruct (_ && _); [exact Hwf |].
  now apply (wf_ext s).
Qed.

Lemma wf_set_options o s : wf s -> wf (set_options o s).
Proof. now apply (wf_ext s). Qed.

(** The class of an element that was a child of the frame before the
    repaint is the same after it. *)
Lemma repainted_class host r s h :
  wf s -> h ∈ frameChildren s ->
  class_of (elems (repainted host r s)) h = class_of (elems s) h.
Proof.
  intros Hwf Hin.
  pose proof (prepared_ready host s Hwf) as Hready.
  pose proof (ready_classes _ _ _ Hready h Hin) as Hc.
  assert (Hlt : h < length (elems (prepared host s))).
  { destruct (pool_child_class s h (wf_pool s Hwf) Hin) as [[k Hk] | Hk];
      rewrite <- Hc in Hk; now apply class_of_lt in Hk. }
  unfold repainted.
  set (before := nextSibling _ _).
  destruct (online_fields (fst (framed s)) before
              (relined (relabelled r (prepared host s)))) as (He & _).
  rewrite He, relined_class.
  - now rewrite relabelled_class.
  - unfold relabelled. rewrite sweep_elems.
    assert (Hge : forall o ms s0, length (elems s0) <= length (elems (places o ms s0))).
    { intros o ms. induction ms as [| m ms IH]; intros s0; [reflexivity |].
      rewrite places_cons. pose proof (place_length o m s0).
      specialize (IH (place o m s0)). lia. }
    eapply Nat.lt_le_trans; [| apply Hge]. exact Hlt.
Qed.

(** C3: after a completed repaint, the live elements of each kind are
    exactly the elements its pool holds, as many as the cycle emitted marks
    of that kind; nothing is left in the retired lists; an element that was
    active before the cycle and was not reacquired is no longer in the
    frame; and no element is held twice. *)
Theorem pool_conservation host s r :
  wf s ->
  can_attach host s -> parent s = true -> range s = Some r -> can_hide s ->
  exists s',
    repaint host s = Ok tt s' /\
    (forall k, length (live k s') =
               length (of_kind k (cycle_marks r (prepared host s)))) /\
    (forall k, live k s' ≡ₚ active k (dom s')) /\
    all_retired (dom s') = [] /\
    (forall h, h ∈ all_active (dom s) -> h ∉ all_active (dom s') ->
               h ∉ frameChildren s') /\
    NoDup (all_active (dom s') ++ all_retired (dom s')) /\
    wf s'.
Proof.
  intros Hwf Hatt Hp Hr Hhide.
  destruct (repaint_completes host s r Hwf Hatt Hp Hr Hhide) as (Hrun & Hwf' & Hcount).
  exists (repainted host r s).
  pose proof (wf_pool _ Hwf') as Hok'. pose proof (wf_retired _ Hwf') as Hret'.
  split_and!; try assumption.
  - intros k. now apply live_active.
  - intros h Hold Hnew Hin.
    rewrite (pool_children _ Hok') in Hin. unfold pooled in Hin. rewrite Hret' in Hin.
    apply elem_of_app in Hin as [Hin | Hin]; [contradiction |].
    cbn [app] in Hin. unfold line_list in Hin.
    destruct (line (dom (repainted host r s))) as [l |] eqn:El;
      [| now apply not_elem_of_nil in Hin].
    apply list_elem_of_singleton in Hin. subst l.
    pose proof (pool_line _ Hok' h El) as Hcl.
    apply elem_of_all_active in Hold as [k Hk].
    assert (Hfc : h ∈ frameChildren s)
      by (apply (pool_member s k); [apply Hwf | apply elem_of_app; now left]).
    rewrite (repainted_class host r s h Hwf Hfc) in Hcl.
    rewrite (pool_class s (wf_pool s Hwf) k h) in Hcl by (apply elem_of_app; now left).
    injection Hcl as Hcl. now apply cls_not_line in Hcl.
  - pose proof (pooled_NoDup _ Hok') as Hn. unfold pooled in Hn.
    rewrite app_assoc in Hn. now apply NoDup_app in Hn as (Hn & _).
Qed.

End Conservation.

Lemma wf_five_ticks : wf five_ticks.
Proof. apply wf_setRange, wf_TimeAxis, NoDup_nil_2. Qed.

Lemma pool_conservation_witness :
  exists s',
    repaint (StepOps := Demo.ops 25 50) (U := Demo.util) Demo.host five_ticks = Ok tt s' /\
    map (fun k => length (live k s')) [MajorLine; MajorText; MinorLine; MinorText]
      = [3; 3; 2; 5].
Proof.
  destruct (pool_conservation (StepOps := Demo.ops 25 50) (U := Demo.util)
              Demo.host five_ticks (Demo.between 1000 1100) wf_five_ticks)
    as (s' & Hrun & Hcount & _).
  - right. split; reflexivity.
  - reflexivity.
  - reflexivity.
  - intros H. discriminate H.
  - exists s'. split; [exact Hrun |].
    cbn [map]. rewrite !Hcount. vm_compute. reflexivity.
Defined.

(** ** Ticks and their marks *)

Section Ticks.

Context {Step : Type} `{StepOps : TimeStepOps Step} `{U : Util}.

Implicit Types (s : State Step) (m : mark) (k : kind) (h : handle) (st : Step).

Lemma visited_length budget : forall st, length (visited budget st) <= budget.
Proof.
  induction budget as [| budget IH]; intros st; cbn [visited]; [reflexivity |].
  destruct (hasNext st); cbn [length]; [| lia]. specialize (IH (next st)). lia.
Qed.

Lemma visited_full budget : forall st,
  keeps_going budget st -> length (visited budget st) = budget.
Proof.
  induction budget as [| budget IH]; intros st Hgo; [reflexivity |].
  cbn [visited]. pose proof (Hgo 0 ltac:(lia)) as H0. cbn in H0. rewrite H0.
  cbn [length]. f_equal.
  apply IH. intros n Hn. specialize (Hgo (Datatypes.S n) ltac:(lia)).
  now rewrite Nat.iter_succ_r in Hgo.
Qed.

Lemma of_kind_app k (a b : list mark) : of_kind k (a ++ b) = of_kind k a ++ of_kind k b.
Proof. apply List.filter_app. Qed.

Lemma tick_marks_MinorText minor major c st :
  length (of_kind MinorText (tick_marks minor major c st)) = if minor then 1 else 0.
Proof.
  unfold tick_marks. rewrite of_kind_app, length_app.
  destruct minor, (isMajor st && major); try destruct (Qlt_bool 0 _); reflexivity.
Qed.

Lemma tick_marks_lines minor major c st :
  length (of_kind MajorLine (tick_marks minor major c st)) +
  length (of_kind MinorLine (tick_marks minor major c st)) = 1.
Proof.
  unfold tick_marks. rewrite !of_kind_app, !length_app.
  destruct minor, (isMajor st && major); try destruct (Qlt_bool 0 _); reflexivity.
Qed.

Lemma tick_marks_MajorText minor major c st :
  length (of_kind MajorText (tick_marks minor major c st)) <= 1.
Proof.
  unfold tick_marks. rewrite !of_kind_app, !length_app.
  destruct minor, (isMajor st && major); try destruct (Qlt_bool 0 _); cbn; lia.
Qed.

Lemma loop_marks_cons minor major c st steps :
  loop_marks minor major c (st :: steps) =
  tick_marks minor major c st ++ loop_marks minor major c steps.
Proof. reflexivity. Qed.

Lemma loop_marks_MinorText minor major c steps :
  length (of_kind MinorText (loop_marks minor major c steps)) =
  if minor then length steps else 0.
Proof.
  induction steps as [| st steps IH]; [now destruct minor |].
  rewrite loop_marks_cons, of_kind_app, length_app, IH, tick_marks_MinorText.
  destruct minor; reflexivity.
Qed.

Lemma loop_marks_lines minor major c steps :
  length (of_kind MajorLine (loop_marks minor major c steps)) +
  length (of_kind MinorLine (loop_marks minor major c steps)) = length steps.
Proof.
  induction steps as [| st steps IH]; [reflexivity |].
  rewrite loop_marks_cons, !of_kind_app, !length_app. cbn [length].
  pose proof (tick_marks_lines minor major c st). lia.
Qed.

Lemma loop_marks_MajorText minor major c steps :
  length (of_kind MajorText (loop_marks minor major c steps)) <= length steps.
Proof.
  induction steps as [| st steps IH]; [reflexivity |].
  rewrite loop_marks_cons, !of_kind_app, !length_app. cbn [length].
  pose proof (tick_marks_MajorText minor major c st). lia.
Qed.

Lemma left_marks_kinds major c p st xFirst k :
  length (of_kind k (left_marks major c p st xFirst)) <=
  if kind_eqb MajorText k then 1 else 0.
Proof.
  unfold left_marks. destruct (major && left_fits _ _); destruct k; cbn; lia.
Qed.

End Ticks.

(** ** One tick, and the label of the left edge *)

Section TickRules.

Context {Step : Type} `{StepOps : TimeStepOps Step} `{U : Util}.

Implicit Types (s : State Step) (m : mark) (k : kind) (h : handle) (st : Step).

Lemma Qlt_bool_iff (a b : Q) : Qlt_bool a b = true <-> (a < b)%Q.
Proof.
  unfold Qlt_bool. rewrite negb_true_iff. split.
  - intros H. apply Qnot_le_lt. intros Hle. apply Qle_bool_iff in Hle. congruence.
  - intros H. destruct (Qle_bool b a) eqn:E; [| reflexivity].
    apply Qle_bool_iff in E. exfalso. now apply (Qlt_not_le a b).
Qed.

Lemma Forall2_one {A B} (P : A -> B -> Prop) (l : list A) (b : B) :
  Forall2 P l [b] -> exists a, l = [a] /\ P a b.
Proof.
  intros H. inversion H as [| a b' l' r Hab Hrest]; subst.
  inversion Hrest; subst. now exists a.
Qed.

Lemma Forall2_none {A B} (P : A -> B -> Prop) (l : list A) :
  Forall2 P l [] -> l = [].
Proof. intros H. now inversion H. Qed.

Lemma dressed_MajorLine o s h x :
  dressed o s h (MajorLineAt x) ->
  left_of s h = Some (centred x (majorLineWidth (props s))).
Proof.
  intros (e & He & Hd). unfold left_of. rewrite He, <- Hd. reflexivity.
Qed.

Lemma dressed_MinorLine o s h x :
  dressed o s h (MinorLineAt x) ->
  left_of s h = Some (centred x (minorLineWidth (props s))).
Proof.
  intros (e & He & Hd). unfold left_of. rewrite He, <- Hd. reflexivity.
Qed.

Lemma dressed_MajorText o s h x text :
  dressed o s h (MajorTextAt x text) ->
  left_of s h = Some (css_px x) /\ text_of s h = Some text.
Proof.
  intros (e & He & Hd). unfold left_of, text_of. rewrite He, <- Hd. now split.
Qed.

Lemma dressed_MinorText o s h x text :
  dressed o s h (MinorTextAt x text) ->
  left_of s h = Some (css_px x) /\ text_of s h = Some text.
Proof.
  intros (e & He & Hd). unfold left_of, text_of. rewrite He, <- Hd. now split.
Qed.

(** The pools after placing the marks [ms], kind by kind. *)
Lemma placed o ms s k :
  pool_ok s ->
  exists news,
    active k (dom (places o ms s)) = active k (dom s) ++ news /\
    Forall2 (dressed o (places o ms s)) news (of_kind k ms).
Proof. intros Hok. now destruct (places_painted o ms s Hok) as [_ H]. Qed.

Lemma first_major_tick xFirst minor major c st :
  first_major xFirst (tick_marks minor major c st) =
  if isMajor st && major && Qlt_bool 0 ((valueOf (getCurrent st) - offset c) * scale c)
  then match xFirst with
       | Some _ => xFirst
       | None => Some ((valueOf (getCurrent st) - offset c) * scale c)%Q
       end
  else xFirst.
Proof.
  unfold tick_marks, first_major.
  destruct xFirst, minor, (isMajor st && major), (Qlt_bool 0 _); reflexivity.
Qed.

(** C1, amended: for a tick reported major, when major labels are shown a
    major gridline is placed at the tick's pixel position (centred on it),
    no minor gridline, and a major label exactly when the position is
    [> 0], [xFirstMajorLabel] keeping its value once set; when major labels
    are hidden the tick gets a minor gridline and neither a major gridline
    nor a major label.  An element that is placed is a child of the frame
    and the last of its pool. *)
Theorem major_tick_placement s f c st xFirst o :
  pool_ok s ->
  frame s = Some f -> conversion s = Some c -> step s = Some st ->
  hasNext st = true -> isMajor st = true ->
  let x := ((valueOf (getCurrent st) - offset c) * scale c)%Q in
  exists s' xFirst',
    ticks 1 st xFirst o s = Ok (next st, xFirst') s' /\
    if shows showMajorLabels s
    then
      (exists h, active MajorLine (dom s') = active MajorLine (dom s) ++ [h] /\
                 h ∈ frameChildren s' /\
                 left_of s' h = Some (centred x (majorLineWidth (props s)))) /\
      active MinorLine (dom s') = active MinorLine (dom s) /\
      if Qlt_bool 0 x
      then
        (exists h, active MajorText (dom s') = active MajorText (dom s) ++ [h] /\
                   h ∈ frameChildren s' /\
                   left_of s' h = Some (css_px x) /\
                   text_of s' h = Some (getLabelMajor st None)) /\
        xFirst' = match xFirst with Some _ => xFirst | None => Some x end
      else
        active MajorText (dom s') = active MajorText (dom s) /\ xFirst' = xFirst
    else
      active MajorLine (dom s') = active MajorLine (dom s) /\
      active MajorText (dom s') = active MajorText (dom s) /\
      (exists h, active MinorLine (dom s') = active MinorLine (dom s) ++ [h] /\
                 h ∈ frameChildren s' /\
                 left_of s' h = Some (centred x (minorLineWidth (props s)))) /\
      xFirst' = xFirst.
Proof.
  intros Hok Hf Hc Hs Hn HM x.
  pose proof (ticks_places 1 st xFirst o s f c Hf Hc Hs) as Hrun.
  rewrite (visited_next 0 st Hn), (stopped_next 0 st Hn) in Hrun.
  cbn [visited] in Hrun. unfold stopped in Hrun. cbn [visited length Nat.iter] in Hrun.
  unfold loop_marks in Hrun. cbn [map concat] in Hrun. rewrite app_nil_r in Hrun.
  rewrite first_major_tick, HM in Hrun. fold x in Hrun. cbn [andb] in Hrun.
  set (ms := tick_marks _ _ c st) in Hrun.
  eexists _, _. split; [exact Hrun |].
  pose proof (fun k => placed o ms s k Hok) as Hplaced.
  set (s1 := places o ms s) in *.
  assert (Hp1 : props s1 = props s) by apply places_props.
  assert (Hchild : forall k h l, active k (dom s1) = l ++ [h] -> h ∈ frameChildren s1).
  { intros k h l E. apply (pool_member s1 k); [now apply places_pool_ok |].
    apply elem_of_app. left. rewrite E. apply elem_of_app. right. left. }
  unfold left_of, text_of. fields. fold (left_of s1). fold (text_of s1).
  destruct (Hplaced MajorLine) as (nML & HML & FML).
  destruct (Hplaced MinorLine) as (nmL & HmL & FmL).
  destruct (Hplaced MajorText) as (nMT & HMT & FMT).
  clear Hplaced Hrun.
  unfold ms, tick_marks in FML, FmL, FMT. fold x in FML, FmL, FMT.
  rewrite HM in FML, FmL, FMT. cbn [andb] in FML, FmL, FMT.
  rewrite !of_kind_app in FML, FmL, FMT.
  assert (Hminor : forall k,
    kind_eqb MinorText k = false ->
    of_kind k (if shows showMinorLabels s
               then [MinorTextAt x (getLabelMinor st)] else []) = []).
  { intros k Hk. destruct (shows showMinorLabels s); [| reflexivity].
    destruct k; try discriminate Hk; reflexivity. }
  rewrite Hminor in FML, FmL, FMT by reflexivity. cbn [app] in FML, FmL, FMT.
  destruct (shows showMajorLabels s).
  - rewrite !of_kind_app in FML, FmL, FMT.
    destruct (Qlt_bool 0 x); cbn in FML, FmL, FMT.
    + apply Forall2_one in FML as (h & -> & Hh). apply Forall2_none in FmL as ->.
      apply Forall2_one in FMT as (h' & -> & Hh').
      rewrite app_nil_r in HmL.
      apply dressed_MajorLine in Hh. apply dressed_MajorText in Hh' as [Hl Ht].
      rewrite Hp1 in Hh.
      split; [exists h; split; [exact HML |]; split; [exact (Hchild _ _ _ HML) | exact Hh] |].
      split; [exact HmL |].
      split; [exists h'; split; [exact HMT |]; split; [exact (Hchild _ _ _ HMT) |];
              now split |].
      destruct xFirst; reflexivity.
    + apply Forall2_one in FML as (h & -> & Hh). apply Forall2_none in FmL as ->.
      apply Forall2_none in FMT as ->. rewrite app_nil_r in HmL, HMT.
      apply dressed_MajorLine in Hh. rewrite Hp1 in Hh.
      split; [exists h; split; [exact HML |]; split; [exact (Hchild _ _ _ HML) | exact Hh] |].
      split; [exact HmL |]. split; [exact HMT |].
      destruct xFirst; reflexivity.
  - cbn in FML, FmL, FMT.
    apply Forall2_none in FML as ->. apply Forall2_none in FMT as ->.
    apply Forall2_one in FmL as (h & -> & Hh). rewrite app_nil_r in HML, HMT.
    apply dressed_MinorLine in Hh. rewrite Hp1 in Hh.
    split; [exact HML |]. split; [exact HMT |].
    split; [exists h; split; [exact HmL |]; split; [exact (Hchild _ _ _ HmL) | exact Hh] |].
    destruct xFirst; reflexivity.
Qed.

(** C4, amended: with major labels shown, the label for the instant at
    pixel 0 is placed at pixel 0, as a child of the frame, exactly when no
    major label was placed in the loop or its estimated width (text length
    times the major glyph width, 10 when that is unmeasured or measured as
    0, plus 10) is strictly smaller than [xFirstMajorLabel]; otherwise
    nothing changes. *)
Theorem leading_edge_rule s f c st xFirst o :
  pool_ok s ->
  frame s = Some f -> conversion s = Some c ->
  shows showMajorLabels s = true ->
  let leftText := getLabelMajor st (Some (Date_new (0 / scale c + offset c))) in
  let estimate :=
    (inject_Z (Z.of_nat (String.length leftText))
     * match majorCharWidth (props s) with
       | Some w => if Qeq_bool w 0 then 10 else w
       | None => 10
       end + 10)%Q in
  let needed := xFirst = None \/ exists x, xFirst = Some x /\ (estimate < x)%Q in
  toTime 0 s = Ok (Date_new (0 / scale c + offset c)) s /\
  exists s',
    leftLabel st xFirst o s = Ok tt s' /\
    (needed ->
     exists h, active MajorText (dom s') = active MajorText (dom s) ++ [h] /\
               h ∈ frameChildren s' /\
               left_of s' h = Some (css_px 0) /\
               text_of s' h = Some leftText) /\
    (~ needed -> s' = s).
Proof.
  intros Hok Hf Hc Hshow leftText estimate needed.
  split; [now apply toTime_Ok |].
  pose proof (leftLabel_places st xFirst o s f c Hf Hc) as Hrun.
  rewrite Hshow in Hrun. unfold left_marks in Hrun. cbn [andb] in Hrun.
  fold leftText in Hrun.
  change (widthText leftText (majorCharWidth (props s))) with estimate in Hrun.
  assert (Hfit : left_fits estimate xFirst = true <-> needed).
  { unfold left_fits, needed. destruct xFirst as [x |].
    - rewrite Qlt_bool_iff. split.
      + intros H. right. now exists x.
      + intros [H | (x' & H & Hlt)]; [discriminate | now injection H as ->].
    - split; [now left | reflexivity]. }
  eexists. split; [exact Hrun |].
  destruct (left_fits estimate xFirst) eqn:E.
  - split; [| intros Hno; exfalso; now apply Hno, Hfit].
    intros _.
    destruct (placed o [MajorTextAt 0 leftText] s MajorText Hok) as (news & Hact & Hd).
    cbn in Hd. apply Forall2_one in Hd as (h & -> & Hh).
    apply dressed_MajorText in Hh as [Hl Ht]. exists h.
    split; [exact Hact |]. split; [| now split].
    apply (pool_member _ MajorText); [now apply places_pool_ok |].
    apply elem_of_app. left. rewrite Hact. apply elem_of_app. right. left.
  - split; [| reflexivity].
    intros Hyes. apply Hfit in Hyes. discriminate.
Qed.

End TickRules.

Lemma pool_ok_mid_cycle : pool_ok mid_cycle.
Proof.
  apply (pool_ok_ext (prepared (U := Demo.util) Demo.host five_ticks)).
  - vm_compute. reflexivity.
  - vm_compute. reflexivity.
  - vm_compute. reflexivity.
  - apply (ready_pool Demo.host five_ticks), (prepared_ready (U := Demo.util)),
      wf_five_ticks.
Qed.

Lemma major_tick_placement_witness :
  exists s' h h',
    ticks (StepOps := Demo.ops 25 50) 1
      {| Demo.at_ := 1050; Demo.from := 1000; Demo.until := 1100;
         Demo.by_ := 25; Demo.majorEvery := 50 |} None None mid_cycle
    = Ok ({| Demo.at_ := 1075; Demo.from := 1000; Demo.until := 1100;
             Demo.by_ := 25; Demo.majorEvery := 50 |},
          Some ((1050 - 1000) * 10)%Q) s' /\
    active MajorLine (dom s') = [h] /\ h ∈ frameChildren s' /\
    active MajorText (dom s') = [h'] /\ h' ∈ frameChildren s' /\
    left_of s' h' = Some (css_px ((1050 - 1000) * 10)).
Proof.
  assert (Hf : frame mid_cycle = Some 0) by (vm_compute; reflexivity).
  assert (Hc : conversion mid_cycle = Some {| scale := 10; offset := 1000 |})
    by (vm_compute; reflexivity).
  assert (Hs : step mid_cycle =
               Some {| Demo.at_ := 1050; Demo.from := 1000; Demo.until := 1100;
                       Demo.by_ := 25; Demo.majorEvery := 50 |})
    by (vm_compute; reflexivity).
  assert (Hshow : shows showMajorLabels mid_cycle = true) by (vm_compute; reflexivity).
  assert (Hactive : active MajorLine (dom mid_cycle) = [] /\
                    active MajorText (dom mid_cycle) = [])
    by (vm_compute; split; reflexivity).
  destruct Hactive as [HaL HaT].
  destruct (major_tick_placement (StepOps := Demo.ops 25 50)
              mid_cycle 0 {| scale := 10; offset := 1000 |}
              {| Demo.at_ := 1050; Demo.from := 1000; Demo.until := 1100;
                 Demo.by_ := 25; Demo.majorEvery := 50 |} None None
              pool_ok_mid_cycle Hf Hc Hs eq_refl eq_refl)
    as (s' & xFirst' & Hrun & H).
  rewrite Hshow, HaL, HaT in H.
  change (Qlt_bool 0 ((valueOf (getCurrent (TimeStepOps := Demo.ops 25 50)
            {| Demo.at_ := 1050; Demo.from := 1000; Demo.until := 1100;
               Demo.by_ := 25; Demo.majorEvery := 50 |}) - 1000) * 10)) with true in H.
  cbv beta iota in H.
  destruct H as ((h & HML & Hin & _) & _ & (h' & HMT & Hin' & Hleft & _) & ->).
  exists s', h, h'. split; [exact Hrun |]. split; [exact HML |]. split; [exact Hin |].
  split; [exact HMT |]. split; [exact Hin' | exact Hleft].
Defined.

Lemma leading_edge_rule_witness :
  exists s' h,
    leftLabel (StepOps := Demo.ops 25 50) 
      {| Demo.at_ := 1125; Demo.from := 1000; Demo.until := 1100;
         Demo.by_ := 25; Demo.majorEvery := 50 |} (Some 500%Q) None mid_cycle
    = Ok tt s' /\
    active MajorText (dom s') = [h] /\ h ∈ frameChildren s' /\
    left_of s' h = Some (css_px 0) /\
    text_of s' h = Some "Wed 1 January"%string.
Proof.
  assert (Hf : frame mid_cycle = Some 0) by (vm_compute; reflexivity).
  assert (Hc : conversion mid_cycle = Some {| scale := 10; offset := 1000 |})
    by (vm_compute; reflexivity).
  assert (Hshow : shows showMajorLabels mid_cycle = true) by (vm_compute; reflexivity).
  assert (HaT : active MajorText (dom mid_cycle) = []) by (vm_compute; reflexivity).
  assert (Hw : majorCharWidth (props mid_cycle) = Some 6%Q) by (vm_compute; reflexivity).
  destruct (leading_edge_rule (StepOps := Demo.ops 25 50)
              mid_cycle 0 {| scale := 10; offset := 1000 |}
              {| Demo.at_ := 1125; Demo.from := 1000; Demo.until := 1100;
                 Demo.by_ := 25; Demo.majorEvery := 50 |} (Some 500%Q) None
              pool_ok_mid_cycle Hf Hc Hshow)
    as (_ & s' & Hrun & Hyes & _).
  rewrite HaT, Hw in Hyes.
  destruct Hyes as (h & Hact & Hin & Hleft & Htext).
  { right. exists 500%Q. split; reflexivity. }
  exists s', h. split; [exact Hrun |]. split; [exact Hact |]. split; [exact Hin |].
  split; assumption.
Defined.

(** C4, as stated, fails: the glyph width is measured, as 0, and the
    default of 10 applies all the same.  The label of the left edge has 13
    characters; with a width of 0 its estimate would be 13 * 0 + 10 = 10,
    smaller than an [xFirstMajorLabel] of 50, and the label would be
    placed; the code estimates 13 * 10 + 10 = 140 and places nothing. *)
Lemma leading_edge_counterexample :
  let ops := Demo.ops 25 50 in
  let st := {| Demo.at_ := 1125; Demo.from := 1000; Demo.until := 1100;
               Demo.by_ := 25; Demo.majorEvery := 50 |} in
  shows showMajorLabels mid_cycle_blind = true /\
  majorCharWidth (props mid_cycle_blind) = Some 0%Q /\
  String.length (getLabelMajor (TimeStepOps := ops) st (Some 1000%Z)) = 13 /\
  (inject_Z 13 * 0 + 10 < 50)%Q /\
  toTime 0 mid_cycle_blind = Ok 1000%Z mid_cycle_blind /\
  leftLabel (StepOps := ops) st (Some 50%Q) None mid_cycle_blind = Ok tt mid_cycle_blind.
Proof.
  intros ops st.
  split; [vm_compute; reflexivity |]. split; [vm_compute; reflexivity |].
  split; [reflexivity |]. split; [reflexivity |].
  split; vm_compute; reflexivity.
Qed.

(** C1, as stated, fails: with major labels hidden the major ticks of the
    cycle get minor gridlines, and no major gridline is placed at all. *)
Lemma major_gridline_counterexample :
  let ops := Demo.ops 25 50 in
  let s := set_options (Demo.options true false) five_ticks in
  let s' := final (repaint (StepOps := ops) (U := Demo.util) Demo.host s) in
  repaint (StepOps := ops) (U := Demo.util) Demo.host s = Ok tt s' /\
  map (isMajor (TimeStepOps := ops))
    (cycle_ticks (StepOps := ops) (U := Demo.util) (Demo.between 1000 1100)
       (prepared (U := Demo.util) Demo.host s))
    = [true; false; true; false; true] /\
  live MajorLine s' = [] /\
  length (live MinorLine s') = 5.
Proof. vm_compute. repeat split. Qed.

(** ** Repainting twice *)

(** C7: when a repaint has completed, repainting again with the same
    range, the same readings of the host (so the same pixel width) and the
    same options completes too and ends in the very state it started in:
    the second call creates and destroys nothing (the live elements of every
    kind are the same handles, the element store has not grown) and every
    element keeps its position and its text. *)
Theorem repaint_idempotent {Step} `{StepOps : TimeStepOps Step} `{U : Util}
    (host : Host) (s s1 : State Step) :
  wf s ->
  repaint host s = Ok tt s1 ->
  exists s2,
    repaint host s1 = Ok tt s2 /\
    s2 = s1 /\
    (forall k, live k s2 = live k s1) /\
    length (elems s2) = length (elems s1) /\
    (forall h, left_of s2 h = left_of s1 h /\ text_of s2 h = text_of s1 h).
Proof.
  intros Hwf Hrun.
  destruct (repaint_completed host s tt s1 Hwf Hrun) as ((Hatt & Hp) & (r & Hr) & Hhide).
  destruct (repaint_completes host s r Hwf Hatt Hp Hr Hhide) as (Hrun' & Hwf1 & _).
  assert (E : s1 = repainted host r s) by congruence.
  pose proof (repainted_settled host r s Hwf Hatt Hp Hr Hhide) as Hs.
  rewrite <- E in Hwf1, Hs.
  exists s1. split; [now apply (settled_again host r) |].
  repeat split.
Qed.

Lemma wf_five_ticks_painted : wf five_ticks_painted.
Proof.
  destruct (repaint_completes (StepOps := Demo.ops 25 50) (U := Demo.util)
              Demo.host five_ticks (Demo.between 1000 1100) wf_five_ticks)
    as (Hrun & Hwf & _).
  - right. split; reflexivity.
  - reflexivity.
  - reflexivity.
  - intros H. discriminate H.
  - unfold five_ticks_painted. rewrite Hrun. exact Hwf.
Qed.

Lemma repaint_idempotent_witness :
  exists s2,
    repaint (StepOps := Demo.ops 25 50) (U := Demo.util) Demo.host five_ticks_painted
      = Ok tt s2 /\
    s2 = five_ticks_painted /\
    (forall k, live k s2 = live k five_ticks_painted) /\
    length (elems s2) = length (elems five_ticks_painted) /\
    (forall h, left_of s2 h = left_of five_ticks_painted h /\
               text_of s2 h = text_of five_ticks_painted h).
Proof.
  apply (repaint_idempotent (StepOps := Demo.ops 25 50) (U := Demo.util)
           Demo.host five_ticks five_ticks_painted wf_five_ticks).
  vm_compute. reflexivity.
Defined.

(** ** Repainting without a range *)

(** C8, refuted as stated: on a new axis without a range, [repaint] throws
    "No range configured" only after it has created the frame, given it its
    class and its style, and measured the glyphs with two probes. *)
Lemma repaint_without_range_counterexample :
  exists s',
    repaint (StepOps := Demo.ops 25 50) (U := Demo.util) Demo.host (Demo.axis None)
      = Throw (Error "No range configured") s' /\
    frame (Demo.axis None) = None /\ frame s' = Some 0 /\
    elems (Demo.axis None) = [] /\ length (elems s') = 3 /\
    class_of (elems s') 0 = Some "axis".
Proof.
  eexists. split; [vm_compute; reflexivity |].
  vm_compute. repeat split.
Qed.

(** C8, amended: with a parent to attach to and no range set, [repaint]
    throws [Error "No range configured"], but not before it has touched the
    axis: by then the frame exists, carries its class and its style, has
    been taken out of its container and stays out; the width is read and the
    glyph sizes are measured.  What the failed repaint leaves alone are the
    pools, the axis line, and the children of the frame with their
    elements. *)
Theorem repaint_without_range {Step} `{StepOps : TimeStepOps Step} `{U : Util}
    (host : Host) (s : State Step) :
  wf s -> can_attach host s -> parent s = true -> range s = None ->
  exists s',
    repaint host s = Throw (Error "No range configured") s' /\
    (exists f e,
       frame s' = Some f /\ (f ∉ containerChildren s') /\
       elems s' !! f = Some e /\ className e = frame_cls /\ style e = frame_style s') /\
    width s' = Some (offsetWidth host) /\
    is_Some (minorCharHeight (props s')) /\ is_Some (majorCharHeight (props s')) /\
    dom s' = dom s /\
    frameChildren s' = frameChildren s /\
    (forall h, h ∈ frameChildren s -> elems s' !! h = elems s !! h).
Proof.
  intros Hwf Hatt Hp Hr.
  pose proof (prepared_ready host s Hwf) as Hready.
  exists (prepared host s). split.
  - apply repaint_stops; try assumption. now rewrite (ready_range _ _ _ Hready).
  - destruct (prepared_frame_elem host s Hwf) as (e & He & Hcl & Hst).
    destruct (prepared_props host s) as (_ & _ & _ & Hminor & Hmajor).
    split.
    { exists (fst (framed s)), e. split; [apply (ready_frame _ _ _ Hready) |].
      split; [apply (ready_offline _ _ _ Hready) |]. now repeat split. }
    split; [apply (ready_width _ _ _ Hready) |].
    split; [exact Hminor |]. split; [exact Hmajor |].
    split; [apply (ready_dom _ _ _ Hready) |].
    split; [apply (ready_frameChildren _ _ _ Hready) |].
    intros h Hin. now apply prepared_lookup.
Qed.

Lemma repaint_without_range_witness :
  exists s',
    repaint (StepOps := Demo.ops 25 50) (U := Demo.util) Demo.host (Demo.axis None)
      = Throw (Error "No range configured") s' /\
    frame s' = Some 0 /\ dom s' = dom (Demo.axis None).
Proof.
  destruct (repaint_without_range (StepOps := Demo.ops 25 50) (U := Demo.util)
              Demo.host (Demo.axis None))
    as (s' & Hrun & (f & e & Hf & _) & _ & _ & _ & Hd & _).
  - apply wf_TimeAxis, NoDup_nil_2.
  - right. split; reflexivity.
  - reflexivity.
  - reflexivity.
  - exists s'. split; [exact Hrun |]. split; [| exact Hd].
    assert (E : frame s' = frame (final (repaint (StepOps := Demo.ops 25 50)
                  (U := Demo.util) Demo.host (Demo.axis None))))
      by (now rewrite Hrun).
    rewrite E. vm_compute. reflexivity.
Defined.

(** ** Hiding both kinds of labels *)

(** C9: the case the code misses.  With both kinds of labels hidden and an
    axis line left in the frame by an earlier repaint, [repaint] does not
    remove the line and complete: [_repaintLine] hands [line.line], which is
    undefined, to [removeChild], and the repaint ends in a TypeError with
    the line still in place among the children of the frame. *)
Theorem repaint_hidden_labels_line {Step} `{StepOps : TimeStepOps Step} `{U : Util}
    (host : Host) (s : State Step) (r : arg) (l : handle) :
  wf s -> can_attach host s -> parent s = true -> range s = Some r ->
  shows showMinorLabels s || shows showMajorLabels s = false ->
  line (dom s) = Some l ->
  exists s',
    repaint host s = Throw (TypeError "parameter 1 is not of type 'Node'") s' /\
    line (dom s') = Some l /\ l ∈ frameChildren s'.
Proof.
  intros Hwf Hatt Hp Hr Hhid Hl.
  pose proof (prepared_ready host s Hwf) as Hready.
  exists (relabelled r (prepared host s)).
  split; [now apply (repaint_trips host s r l) |].
  destruct (relabelled_pool _ r (ready_pool _ _ _ Hready) (ready_retired _ _ _ Hready))
    as (Hok_t & _ & _).
  destruct (relabelled_fields r (prepared host s)) as (_ & Hl_t & _).
  assert (Hline : line (dom (relabelled r (prepared host s))) = Some l)
    by (now rewrite Hl_t, (ready_dom _ _ _ Hready)).
  split; [exact Hline | now apply pool_line_member].
Qed.

Lemma repaint_hidden_labels_line_witness :
  exists s',
    repaint (StepOps := Demo.ops 25 50) (U := Demo.util) Demo.host labels_hidden
      = Throw (TypeError "parameter 1 is not of type 'Node'") s' /\
    line (dom s') = Some 16 /\ 16 ∈ frameChildren s'.
Proof.
  apply (repaint_hidden_labels_line (StepOps := Demo.ops 25 50) (U := Demo.util)
           Demo.host labels_hidden (Demo.between 1000 1100) 16).
  - apply wf_set_options, wf_five_ticks_painted.
  - left. vm_compute. reflexivity.
  - vm_compute. reflexivity.
  - vm_compute. reflexivity.
  - vm_compute. reflexivity.
  - vm_compute. reflexivity.
Defined.

(** ** The cap of a thousand ticks *)

Section Cap.

Context {Step : Type} `{StepOps : TimeStepOps Step} `{U : Util}.

Implicit Types (s : State Step) (m : mark) (k : kind) (h : handle) (st : Step).

Lemma prepared_shows host s name :
  wf s -> shows name (prepared host s) = shows name s.
Proof.
  intros Hwf. unfold shows.
  now rewrite (ready_options _ _ _ (prepared_ready host s Hwf)).
Qed.

Lemma visited_Forall (P : Step -> Prop) budget : forall st,
  (forall st', P st' -> P (next st')) -> P st -> Forall P (visited budget st).
Proof.
  induction budget as [| budget IH]; intros st Hnext Hst; cbn [visited]; [constructor |].
  destruct (hasNext st); constructor; [exact Hst |].
  apply IH; [exact Hnext | now apply Hnext].
Qed.

(** Ticks that are not major leave no major mark. *)
Lemma loop_marks_minor_only minor major c steps :
  Forall (fun st => isMajor st = false) steps ->
  of_kind MajorText (loop_marks minor major c steps) = [] /\
  of_kind MajorLine (loop_marks minor major c steps) = [] /\
  first_major None (loop_marks minor major c steps) = None.
Proof.
  unfold first_major.
  induction 1 as [| st steps Hst _ IH]; [now repeat split |].
  destruct IH as (IH1 & IH2 & IH3).
  rewrite loop_marks_cons, !of_kind_app, omap_app, IH1, IH2.
  unfold tick_marks. rewrite Hst. cbn [andb].
  destruct minor; cbn; now repeat split.
Qed.

Lemma left_marks_first major c p st :
  left_marks major c p st None =
  if major
  then [MajorTextAt 0 (getLabelMajor st (Some (Date_new (0 / scale c + offset c))))]
  else [].
Proof. unfold left_marks. now destruct major. Qed.

(** C5, amended: the loop visits at most 1000 ticks, and exactly 1000 when
    the generator has more; a completed repaint then leaves one minor label
    per visited tick (when minor labels are shown), one gridline per
    visited tick (major or minor), and at most one major label per visited
    tick plus the label of the left edge. *)
Theorem tick_cap host s r :
  wf s ->
  can_attach host s -> parent s = true -> range s = Some r -> can_hide s ->
  exists s',
    repaint host s = Ok tt s' /\
    length (cycle_ticks r (prepared host s)) <= 1000 /\
    (keeps_going 1000 (cursor r (prepared host s)) ->
     length (cycle_ticks r (prepared host s)) = 1000) /\
    length (live MinorText s') =
      (if shows showMinorLabels s
       then length (cycle_ticks r (prepared host s)) else 0) /\
    length (live MajorLine s') + length (live MinorLine s') =
      length (cycle_ticks r (prepared host s)) /\
    length (live MajorText s') <= length (cycle_ticks r (prepared host s)) + 1.
Proof.
  intros Hwf Hatt Hp Hr Hhide.
  destruct (repaint_completes host s r Hwf Hatt Hp Hr Hhide) as (Hrun & _ & Hcount).
  exists (repainted host r s).
  split; [exact Hrun |].
  split; [apply visited_length |].
  split; [apply visited_full |].
  rewrite !Hcount. unfold cycle_marks, cycle_loop_marks, cycle_left_marks.
  rewrite !of_kind_app, !length_app.
  set (p := prepared host s).
  set (lm := loop_marks _ _ _ _).
  pose proof (left_marks_kinds (shows showMajorLabels p) (converted r p) (props p)
                (stopped 1000 (cursor r p)) (first_major None lm)) as Hleft.
  pose proof (Hleft MinorText) as HmT. pose proof (Hleft MajorLine) as HML.
  pose proof (Hleft MinorLine) as HmL. pose proof (Hleft MajorText) as HMT.
  cbn [kind_eqb] in HmT, HML, HmL, HMT.
  unfold lm in *.
  pose proof (loop_marks_MinorText (shows showMinorLabels p) (shows showMajorLabels p)
                (converted r p) (cycle_ticks r p)) as H1.
  pose proof (loop_marks_lines (shows showMinorLabels p) (shows showMajorLabels p)
                (converted r p) (cycle_ticks r p)) as H2.
  pose proof (loop_marks_MajorText (shows showMinorLabels p) (shows showMajorLabels p)
                (converted r p) (cycle_ticks r p)) as H3.
  unfold p in H1. rewrite (prepared_shows host s showMinorLabels Hwf) in H1 at 2.
  fold p in H1.
  unfold cycle_loop_marks.
  split; [rewrite H1; lia |]. split; lia.
Qed.

End Cap.

(** A cursor that never advances: a stride of zero. *)
Lemma stuck_keeps_going (c : Demo.Cursor) (majorEvery : Z) (bound : nat) :
  Demo.by_ c = 0%Z ->
  hasNext (TimeStepOps := Demo.ops 0 majorEvery) c = true ->
  keeps_going (StepOps := Demo.ops 0 majorEvery) bound c.
Proof.
  intros Hby Hn n _.
  assert (Hnext : next (TimeStepOps := Demo.ops 0 majorEvery) c = c).
  { destruct c as [a f u b m]. cbn in *. subst b. unfold Demo.move. cbn.
    now rewrite Z.add_0_r. }
  assert (Hiter : Nat.iter n (next (TimeStepOps := Demo.ops 0 majorEvery)) c = c).
  { induction n as [| n IH]; [reflexivity |]. now rewrite Nat.iter_succ, IH. }
  now rewrite Hiter.
Qed.

Lemma stuck_next (c : Demo.Cursor) (majorEvery : Z) :
  Demo.by_ c = 0%Z -> next (TimeStepOps := Demo.ops 0 majorEvery) c = c.
Proof.
  intros Hby. destruct c as [a f u b m]. cbn in *. subst b. unfold Demo.move. cbn.
  now rewrite Z.add_0_r.
Qed.

(** C5, as stated, fails: with both kinds of label shown and a generator
    that never ends, 1000 ticks are visited, none of them major, and the
    repaint leaves a single major label and no major gridline. *)
Lemma tick_cap_counterexample :
  let ops := Demo.ops 0 7 in
  let s' := final (repaint (StepOps := ops) (U := Demo.util) Demo.host five_ticks) in
  shows showMinorLabels five_ticks = true /\
  shows showMajorLabels five_ticks = true /\
  keeps_going (StepOps := ops) 1001
    (cursor (StepOps := ops) (U := Demo.util) (Demo.between 1000 1100)
       (prepared (U := Demo.util) Demo.host five_ticks)) /\
  length (live MinorText s') = 1000 /\
  length (live MajorText s') = 1 /\
  length (live MajorLine s') = 0 /\
  ~ (forall k, length (live k s') = 1000).
Proof.
  intros ops s'.
  set (r := Demo.between 1000 1100).
  set (p := prepared (U := Demo.util) Demo.host five_ticks).
  set (c0 := {| Demo.at_ := 1000; Demo.from := 1000; Demo.until := 1100;
                Demo.by_ := 0; Demo.majorEvery := 7 |}).
  assert (Hc : cursor (StepOps := ops) (U := Demo.util) r p = c0)
    by (vm_compute; reflexivity).
  assert (Hgo : forall n, keeps_going (StepOps := ops) n c0)
    by (intros n; now apply stuck_keeps_going).
  assert (Hminor : shows showMinorLabels p = true) by (vm_compute; reflexivity).
  assert (Hmajor : shows showMajorLabels p = true) by (vm_compute; reflexivity).
  assert (Hnone : Forall (fun st => isMajor (TimeStepOps := ops) st = false)
                    (visited (StepOps := ops) 1000 c0)).
  { apply (Forall_impl (fun st => st = c0)); [| now intros st ->].
    apply visited_Forall; [| reflexivity].
    intros st ->. now apply stuck_next. }
  destruct (loop_marks_minor_only (StepOps := ops) true true
              (converted (U := Demo.util) r p) _ Hnone) as (HnoT & HnoL & Hfirst).
  destruct (repaint_completes (StepOps := ops) (U := Demo.util)
              Demo.host five_ticks r wf_five_ticks) as (Hrun & _ & Hcount).
  { right. split; reflexivity. }
  { reflexivity. }
  { reflexivity. }
  { intros H. discriminate H. }
  assert (Hm : length (live MinorText s') = 1000).
  { subst s'. rewrite Hrun. cbn [final]. rewrite Hcount. fold p.
    unfold cycle_marks, cycle_left_marks, cycle_loop_marks, cycle_ticks.
    rewrite Hc, Hminor, Hmajor, of_kind_app, length_app, loop_marks_MinorText, Hfirst.
    rewrite (visited_full 1000 c0 (Hgo 1000)).
    now rewrite left_marks_first. }
  assert (HM : length (live MajorText s') = 1).
  { subst s'. rewrite Hrun. cbn [final]. rewrite Hcount. fold p.
    unfold cycle_marks, cycle_left_marks, cycle_loop_marks, cycle_ticks.
    rewrite Hc, Hminor, Hmajor, of_kind_app, length_app, HnoT, Hfirst.
    now rewrite left_marks_first. }
  assert (HL : length (live MajorLine s') = 0).
  { subst s'. rewrite Hrun. cbn [final]. rewrite Hcount. fold p.
    unfold cycle_marks, cycle_left_marks, cycle_loop_marks, cycle_ticks.
    rewrite Hc, Hminor, Hmajor, of_kind_app, length_app, HnoL, Hfirst.
    now rewrite left_marks_first. }
  split; [reflexivity |].
  split; [reflexivity |].
  split; [rewrite Hc; apply Hgo |].
  split; [exact Hm |]. split; [exact HM |]. split; [exact HL |].
  intros H. specialize (H MajorText). rewrite HM in H. discriminate H.
Qed.

Lemma tick_cap_witness :
  exists s',
    repaint (StepOps := Demo.ops 0 7) (U := Demo.util) Demo.host five_ticks = Ok tt s' /\
    length (live MinorText s') = 1000 /\
    length (live MajorLine s') + length (live MinorLine s') = 1000 /\
    length (live MajorText s') <= 1001.
Proof.
  destruct (tick_cap (StepOps := Demo.ops 0 7) (U := Demo.util)
              Demo.host five_ticks (Demo.between 1000 1100) wf_five_ticks)
    as (s' & Hrun & _ & Hfull & Hminor & Hlines & Hmajor).
  - right. split; reflexivity.
  - reflexivity.
  - reflexivity.
  - intros H. discriminate H.
  - assert (Hlen : length (cycle_ticks (StepOps := Demo.ops 0 7) (U := Demo.util)
                     (Demo.between 1000 1100)
                     (prepared (U := Demo.util) Demo.host five_ticks)) = 1000)
      by (apply Hfull, stuck_keeps_going; vm_compute; reflexivity).
    rewrite Hlen in *.
    exists s'. split_and!; try assumption; lia.
Defined.

(** * Further properties *)

(** ** How a repaint ends *)

Section HowItEnds.

Context {Step : Type} `{StepOps : TimeStepOps Step} `{U : Util}.

Implicit Types (s : State Step) (m : mark) (k : kind) (h : handle) (d : Dom).

Lemma entered_fields host s :
  frame (entered host s) = Some (fst (framed s)) /\
  width (entered host s) = Some (offsetWidth host) /\
  dom (entered host s) = dom s /\
  frameChildren (entered host s) = frameChildren s /\
  containerChildren (entered host s) = containerChildren s /\
  props (entered host s) = props s /\
  options (entered host s) = options s /\
  range (entered host s) = range s /\
  parent (entered host s) = parent s.
Proof.
  pose proof (framed_frame s) as Hf.
  destruct (framed_fields s) as (Hfc & Hcc & Hd & Hpr & Ho & Hr & Hp).
  unfold entered. destruct (framed s) as [f s0]. cbn [fst snd] in *. fields.
  now repeat split.
Qed.

(** The frame is not in the container and there is no parent to ask. *)
Lemma repaint_alone host s :
  member (fst (framed s)) (containerChildren s) = false -> parent s = false ->
  repaint host s =
  Throw (Error "Cannot repaint time axis: no parent attached") (entered host s).
Proof.
  intros Em Hp. unfold repaint, entered.
  assert (Hpar : parent (snd (framed s)) = parent s)
    by (unfold framed; destruct (frame s); reflexivity).
  assert (Hcc : containerChildren (snd (framed s)) = containerChildren s)
    by (unfold framed; destruct (frame s); reflexivity).
  assert (Hstart :
    forall B (k : handle -> M Step B),
      bind (frame0 <- gets frame ;;
            match frame0 with
            | Some frame => ret frame
            | None => frame <- createElement ;; modify (set_frame (Some frame)) ;; ret frame
            end) k s = k (fst (framed s)) (snd (framed s))).
  { intros B k. run. unfold framed. destruct (frame s); run; reflexivity. }
  rewrite <- run_bind, Hstart. rewrite <- Hcc in Em. rewrite <- Hpar in Hp.
  destruct (framed s) as [f s0]. cbn [fst snd] in *. clear Hstart Hcc Hpar.
  run. rewrite Em. cbn [negb]. run. rewrite Hp. reflexivity.
Qed.

(** The frame is not in the container and the parent has none to offer. *)
Lemma repaint_homeless host s :
  member (fst (framed s)) (containerChildren s) = false -> parent s = true ->
  getContainer host = false ->
  repaint host s =
  Throw (Error "Cannot repaint time axis: parent has no container element")
    (entered host s).
Proof.
  intros Em Hp Hg. unfold repaint, entered.
  assert (Hpar : parent (snd (framed s)) = parent s)
    by (unfold framed; destruct (frame s); reflexivity).
  assert (Hcc : containerChildren (snd (framed s)) = containerChildren s)
    by (unfold framed; destruct (frame s); reflexivity).
  assert (Hstart :
    forall B (k : handle -> M Step B),
      bind (frame0 <- gets frame ;;
            match frame0 with
            | Some frame => ret frame
            | None => frame <- createElement ;; modify (set_frame (Some frame)) ;; ret frame
            end) k s = k (fst (framed s)) (snd (framed s))).
  { intros B k. run. unfold framed. destruct (frame s); run; reflexivity. }
  rewrite <- run_bind, Hstart. rewrite <- Hcc in Em. rewrite <- Hpar in Hp.
  destruct (framed s) as [f s0]. cbn [fst snd] in *. clear Hstart Hcc Hpar.
  run. rewrite Em. cbn [negb]. run. rewrite Hp, Hg. reflexivity.
Qed.

(** The frame sits in the container, but [this.parent] is missing: the
    read of [this.parent.height] fails, after the glyphs are measured. *)
Lemma repaint_orphaned host s :
  member (fst (framed s)) (containerChildren s) = true -> parent s = false ->
  repaint host s =
  Throw (TypeError "Cannot read property 'height' of undefined")
    (measured host (entered host s)).
Proof.
  intros Em Hp. unfold repaint, entered.
  pose proof (framed_frame s) as Hframe.
  assert (Hpar : parent (snd (framed s)) = parent s)
    by (unfold framed; destruct (frame s); reflexivity).
  assert (Hcc : containerChildren (snd (framed s)) = containerChildren s)
    by (unfold framed; destruct (frame s); reflexivity).
  assert (Hstart :
    forall B (k : handle -> M Step B),
      bind (frame0 <- gets frame ;;
            match frame0 with
            | Some frame => ret frame
            | None => frame <- createElement ;; modify (set_frame (Some frame)) ;; ret frame
            end) k s = k (fst (framed s)) (snd (framed s))).
  { intros B k. run. unfold framed. destruct (frame s); run; reflexivity. }
  rewrite <- run_bind, Hstart. rewrite <- Hcc in Em. rewrite <- Hpar in Hp.
  destruct (framed s) as [f s0]. cbn [fst snd] in *. clear Hstart Hcc Hpar.
  run. rewrite Em. cbn [negb]. run. rewrite Em.
  rewrite (run_calculateCharSize host f) by exact Hframe.
  run. rewrite measured_parent. fields. rewrite Hp. reflexivity.
Qed.

(** *** The invariant, whatever the outcome *)

Lemma wf_entered host s : wf s -> wf (entered host s).
Proof.
  intros Hwf.
  pose proof (framed_frame s) as Hf.
  pose proof (framed_lt s Hwf) as Hlt.
  pose proof (framed_outside s Hwf) as Hout.
  pose proof (framed_pool_ok s (wf_pool s Hwf)) as Hok0.
  destruct (framed_fields s) as (Hfc & Hcc & Hd & Hpr & Ho & Hr & Hp).
  unfold entered. destruct (framed s) as [f s0]. cbn [fst snd] in *.
  split; fields.
  - apply (pool_ok_elems s0); try reflexivity; [exact Hok0 |].
    intros h Hin. fields. apply class_of_alter_ne.
    intros ->. apply Hout. now rewrite <- Hfc.
  - rewrite Hd. apply (wf_retired s Hwf).
  - intros f' Hf'. rewrite Hf in Hf'. injection Hf' as <-.
    now apply class_of_alter_eq.
  - rewrite Hcc. apply (wf_container s Hwf).
Qed.

Lemma wf_measured host s : wf s -> wf (measured host s).
Proof.
  intros Hwf. split.
  - apply measured_pool_ok, Hwf.
  - rewrite measured_dom. apply (wf_retired s Hwf).
  - intros f Hf. rewrite measured_frame in Hf.
    pose proof (wf_frame s Hwf f Hf) as Hc.
    rewrite measured_class; [exact Hc | now apply class_of_lt in Hc].
  - rewrite measured_containerChildren. apply (wf_container s Hwf).
Qed.

Lemma wf_prepared host s : wf s -> wf (prepared host s).
Proof.
  intros Hwf. pose proof (prepared_ready host s Hwf) as Hready. split.
  - apply (ready_pool _ _ _ Hready).
  - apply (ready_retired _ _ _ Hready).
  - intros f Hf. rewrite (ready_frame _ _ _ Hready) in Hf. injection Hf as <-.
    apply (ready_class _ _ _ Hready).
  - apply (ready_container _ _ _ Hready).
Qed.

Lemma wf_relabelled r s : wf s -> wf (relabelled r s).
Proof.
  intros Hwf.
  destruct (relabelled_pool s r (wf_pool s Hwf) (wf_retired s Hwf)) as (Hok & Hret & _).
  destruct (relabelled_fields r s) as (Hf & _ & _ & _ & Hc & _).
  split; [exact Hok | exact Hret | | rewrite Hc; apply (wf_container s Hwf)].
  intros f Hfr. rewrite Hf in Hfr.
  pose proof (wf_frame s Hwf f Hfr) as Hcl.
  rewrite relabelled_class; [exact Hcl | now apply class_of_lt in Hcl].
Qed.

Lemma repaint_keeps_wf host s : wf s -> wf (final (repaint host s)).
Proof.
  intros Hwf.
  destruct (can_attach_dec host s) as [[Hatt Hp] | Hno].
  - destruct (range s) as [r |] eqn:Hr.
    + destruct (shows showMinorLabels s || shows showMajorLabels s) eqn:Hshow.
      * destruct (repaint_completes host s r Hwf Hatt Hp Hr) as (-> & Hwf' & _);
          [| exact Hwf'].
        intros H. rewrite Hshow in H. discriminate.
      * destruct (line (dom s)) as [l |] eqn:Hl.
        -- rewrite (repaint_trips host s r l) by assumption.
           apply wf_relabelled, wf_prepared, Hwf.
        -- destruct (repaint_completes host s r Hwf Hatt Hp Hr) as (-> & Hwf' & _);
             [| exact Hwf'].
           intros _. exact Hl.
    + rewrite repaint_stops; [now apply wf_prepared | assumption ..|].
      now rewrite (ready_range _ _ _ (prepared_ready host s Hwf)).
  - unfold can_attach in Hno.
    destruct (member (fst (framed s)) (containerChildren s)) eqn:Em.
    + destruct (parent s) eqn:Hp; [exfalso; apply Hno; split; [now left | reflexivity] |].
      rewrite repaint_orphaned by assumption.
      now apply wf_measured, wf_entered.
    + destruct (parent s) eqn:Hp.
      * destruct (getContainer host) eqn:Hg;
          [exfalso; apply Hno; split; [now right | reflexivity] |].
        rewrite repaint_homeless by assumption. now apply wf_entered.
      * rewrite repaint_alone by assumption. now apply wf_entered.
Qed.

(** X1: every state an axis can reach satisfies the pool invariant: the
    children of the frame are exactly the pooled elements and the axis line,
    each once and each of the class of its kind; nothing is left in the
    redundant lists between calls; the frame carries the class [axis]; the
    container lists no child twice.  This holds after repaints that throw
    as well as after repaints that complete. *)
Theorem reachable_wf s : reachable s -> wf s.
Proof.
  induction 1 as [document container parent options Hn
                 | s range _ IH | s o _ IH | host s _ IH].
  - now apply wf_TimeAxis.
  - now apply wf_setRange.
  - now apply wf_set_options.
  - now apply repaint_keeps_wf.
Qed.

(** X2: from a state that satisfies the invariant, [repaint] completes
    exactly when the frame is in the container or the parent offers one, a
    parent is attached, a range is set, and it is not the case that both
    kinds of labels are hidden while an axis line exists. *)
Theorem repaint_completes_iff host s :
  wf s ->
  (exists s', repaint host s = Ok tt s') <->
  can_attach host s /\ parent s = true /\ (exists r, range s = Some r) /\ can_hide s.
Proof.
  intros Hwf. split.
  - intros (s' & Hrun).
    destruct (repaint_completed host s tt s' Hwf Hrun) as ((Hatt & Hp) & Hr & Hhide).
    now repeat split.
  - intros (Hatt & Hp & (r & Hr) & Hhide).
    destruct (repaint_completes host s r Hwf Hatt Hp Hr Hhide) as (Hrun & _).
    now exists (repainted host r s).
Qed.

(** X3: when the frame is not in the container and no parent is attached,
    [repaint] throws [Error "Cannot repaint time axis: no parent attached"];
    by then the frame exists and the width is read, and the pools, the
    children of the frame and of the container, the sizes and the range are
    untouched. *)
Theorem repaint_no_parent host s :
  member (fst (framed s)) (containerChildren s) = false -> parent s = false ->
  exists s',
    repaint host s = Throw (Error "Cannot repaint time axis: no parent attached") s' /\
    frame s' = Some (fst (framed s)) /\ width s' = Some (offsetWidth host) /\
    dom s' = dom s /\ frameChildren s' = frameChildren s /\
    containerChildren s' = containerChildren s /\
    props s' = props s /\ range s' = range s.
Proof.
  intros Em Hp. exists (entered host s).
  split; [now apply repaint_alone |].
  destruct (entered_fields host s) as (H1 & H2 & H3 & H4 & H5 & H6 & _ & H8 & _).
  now repeat split.
Qed.

(** X4: when the frame is not in the container and the parent has no
    container element, [repaint] throws
    [Error "Cannot repaint time axis: parent has no container element"],
    with the same state as in the case without a parent. *)
Theorem repaint_no_container host s :
  member (fst (framed s)) (containerChildren s) = false -> parent s = true ->
  getContainer host = false ->
  exists s',
    repaint host s =
      Throw (Error "Cannot repaint time axis: parent has no container element") s' /\
    frame s' = Some (fst (framed s)) /\ width s' = Some (offsetWidth host) /\
    dom s' = dom s /\ frameChildren s' = frameChildren s /\
    containerChildren s' = containerChildren s /\
    props s' = props s /\ range s' = range s.
Proof.
  intros Em Hp Hg. exists (entered host s).
  split; [now apply repaint_homeless |].
  destruct (entered_fields host s) as (H1 & H2 & H3 & H4 & H5 & H6 & _ & H8 & _).
  now repeat split.
Qed.

(** X5: a repaint that failed for lack of a range does no lasting harm:
    once [setRange] has stored a range, the next repaint completes. *)
Theorem repaint_recovers host s range0 :
  wf s -> range s = None -> parent s = true -> getContainer host = true ->
  can_hide s ->
  instanceof_Range range0 = true \/
    (truthy (prop RangeObj.start range0) = true /\
     truthy (prop RangeObj.end_ range0) = true) ->
  exists s1 s2 s3,
    repaint host s = Throw (Error "No range configured") s1 /\
    setRange range0 s1 = Ok tt s2 /\
    repaint host s2 = Ok tt s3.
Proof.
  intros Hwf Hr Hp Hg Hhide Hacc.
  pose proof (prepared_ready host s Hwf) as Hready.
  pose proof (wf_prepared host s Hwf) as Hwf1.
  set (s1 := prepared host s) in *.
  set (s2 := set_range (Some range0) s1).
  assert (Hwf2 : wf s2) by (now apply (wf_ext s1)).
  destruct (repaint_completes host s2 range0 Hwf2) as (Hrun & _).
  - right. split; [| exact Hg]. unfold s2. fields.
    now rewrite (ready_parent _ _ _ Hready).
  - unfold s2. fields. now rewrite (ready_parent _ _ _ Hready).
  - reflexivity.
  - unfold can_hide, shows, s2. fields.
    rewrite (ready_options _ _ _ Hready), (ready_dom _ _ _ Hready). exact Hhide.
  - exists s1, s2, (repainted host range0 s2).
    split; [| split; [now apply setRange_ok | exact Hrun]].
    apply repaint_stops; [now right | exact Hp |].
    fold s1. now rewrite (ready_range _ _ _ Hready).
Qed.

End HowItEnds.

Lemma reachable_wf_witness :
  wf (final (repaint (StepOps := Demo.ops 25 50) (U := Demo.util) Demo.host labels_hidden)).
Proof.
  apply (reachable_wf (StepOps := Demo.ops 25 50) (U := Demo.util)).
  apply reachable_repaint, reachable_setOptions, reachable_repaint,
    reachable_setRange, reachable_new, NoDup_nil_2.
Defined.

Lemma repaint_completes_iff_witness :
  (exists s', repaint (StepOps := Demo.ops 25 50) (U := Demo.util) Demo.host five_ticks
              = Ok tt s') <->
  can_attach Demo.host five_ticks /\ parent five_ticks = true /\
  (exists r, range five_ticks = Some r) /\ can_hide five_ticks.
Proof.
  apply (repaint_completes_iff (StepOps := Demo.ops 25 50) (U := Demo.util)
           Demo.host five_ticks wf_five_ticks).
Defined.

Lemma repaint_no_parent_witness :
  exists s',
    repaint (StepOps := Demo.ops 25 50) (U := Demo.util) Demo.host
      (TimeAxis [] [] false None)
    = Throw (Error "Cannot repaint time axis: no parent attached") s' /\
    frame s' = Some 0 /\ frameChildren s' = [].
Proof.
  destruct (repaint_no_parent (StepOps := Demo.ops 25 50) (U := Demo.util)
              Demo.host (TimeAxis [] [] false None))
    as (s' & Hrun & Hf & _ & _ & Hfc & _).
  - reflexivity.
  - reflexivity.
  - exists s'. now repeat split.
Defined.

Lemma repaint_no_container_witness :
  exists s',
    repaint (StepOps := Demo.ops 25 50) (U := Demo.util) bare_host (Demo.axis None)
    = Throw (Error "Cannot repaint time axis: parent has no container element") s' /\
    frame s' = Some 0 /\ containerChildren s' = [].
Proof.
  destruct (repaint_no_container (StepOps := Demo.ops 25 50) (U := Demo.util)
              bare_host (Demo.axis None))
    as (s' & Hrun & Hf & _ & _ & _ & Hcc & _).
  - reflexivity.
  - reflexivity.
  - reflexivity.
  - exists s'. now repeat split.
Defined.

Lemma repaint_recovers_witness :
  exists s1 s2 s3,
    repaint (StepOps := Demo.ops 25 50) (U := Demo.util) Demo.host (Demo.axis None)
      = Throw (Error "No range configured") s1 /\
    setRange (Demo.between 1000 1100) s1 = Ok tt s2 /\
    repaint (StepOps := Demo.ops 25 50) (U := Demo.util) Demo.host s2 = Ok tt s3.
Proof.
  apply (repaint_recovers (StepOps := Demo.ops 25 50) (U := Demo.util)
           Demo.host (Demo.axis None) (Demo.between 1000 1100)).
  - apply wf_TimeAxis, NoDup_nil_2.
  - reflexivity.
  - reflexivity.
  - reflexivity.
  - intros _. reflexivity.
  - right. split; reflexivity.
Defined.

(** ** What a completed repaint leaves behind *)

Section Aftermath.

Context {Step : Type} `{StepOps : TimeStepOps Step} `{U : Util}.

Implicit Types (s : State Step) (m : mark) (k : kind) (h : handle) (d : Dom).

Lemma place_retired o m k s :
  retired k (dom (place o m s)) =
  if kind_eqb (kind_of m) k then tail (retired k (dom s)) else retired k (dom s).
Proof.
  unfold place. destruct (retired (kind_of m) (dom s)) eqn:Er; fields;
    rewrite retired_set_active, ?retired_set_retired;
    destruct (kind_eqb (kind_of m) k) eqn:Ek;
    try (apply kind_eqb_eq in Ek; subst k; rewrite Er); reflexivity.
Qed.

(** Placing marks takes the retired elements of a kind in order, from the
    front, and creates elements only when they run out. *)
Lemma places_reuse o ms k : forall s,
  exists created,
    active k (dom (places o ms s)) =
      active k (dom s) ++ take (length (of_kind k ms)) (retired k (dom s)) ++ created /\
    length created = length (of_kind k ms) - length (retired k (dom s)) /\
    Forall (fun h => length (elems s) <= h) created.
Proof.
  induction ms as [| m ms IH]; intros s.
  - exists []. cbn. rewrite take_0, !app_nil_r. now repeat split.
  - rewrite places_cons. destruct (IH (place o m s)) as (cr & Ha & Hl & Hf).
    pose proof (place_length o m s) as Hlen.
    assert (Hf' : Forall (fun h => length (elems s) <= h) cr)
      by (apply (Forall_impl _ _ _ Hf); intros h Hh; lia).
    rewrite place_active, place_retired in Ha. rewrite place_retired in Hl.
    unfold of_kind. cbn [List.filter]. fold (of_kind k ms).
    destruct (kind_eqb (kind_of m) k) eqn:Ek.
    + apply kind_eqb_eq in Ek. subst k.
      destruct (retired (kind_of m) (dom s)) as [| h r] eqn:Er; cbn [tail length] in *.
      * exists (length (elems s) :: cr). rewrite take_nil in *. cbn [app] in *.
        split; [now rewrite <- app_assoc in Ha |].
        split; [cbn [length]; lia |]. now constructor.
      * exists cr. cbn [take]. split; [now rewrite <- app_assoc in Ha |].
        split; [lia | exact Hf'].
    + exists cr. rewrite app_nil_r in Ha. now repeat split.
Qed.

Lemma repainted_fields host r s :
  let p := prepared host s in
  let s' := repainted host r s in
  options s' = options p /\ props s' = props p /\ width s' = width p /\
  height s' = height p /\ frame s' = frame p /\
  (forall k, active k (dom s') = active k (dom (relabelled r p))) /\
  containerChildren s' =
    restored (fst (framed s))
      (containerChildren (attached host (fst (framed s)) (snd (framed s)))).
Proof.
  intros p s'. unfold s', repainted. fold p.
  set (f := fst (framed s)).
  set (b := nextSibling f _).
  destruct (online_fields f b (relined (relabelled r p))) as (_ & _ & Hd_o & Hf_o).
  destruct (online_more f b (relined (relabelled r p)))
    as (Hc_o & Ho_o & Hpr_o & Hw_o & Hh_o & _).
  destruct (relined_fields (relabelled r p)) as (Hf_u & Hc_u & Ha_u & _ & Ho_u & _).
  destruct (relined_more (relabelled r p)) as (Hpr_u & Hw_u & Hh_u & _).
  destruct (relabelled_fields r p) as (Hf_t & _ & Ho_t & _ & Hc_t & _ & Hpr_t & Hw_t & Hh_t).
  split; [congruence |]. split; [congruence |]. split; [congruence |].
  split; [congruence |]. split; [congruence |].
  split; [intros k; now rewrite Hd_o, Ha_u |].
  rewrite Hc_o, Hc_u, Hc_t. unfold p. rewrite prepared_container. reflexivity.
Qed.

Lemma relined_line_kept s l0 :
  line (dom s) = Some l0 -> line (dom (relined s)) = Some l0.
Proof.
  intros Hl. unfold relined.
  destruct (shows showMinorLabels s || shows showMajorLabels s); [| exact Hl].
  rewrite Hl. exact Hl.
Qed.

Lemma repainted_line_kept host r s l0 :
  wf s -> line (dom s) = Some l0 -> line (dom (repainted host r s)) = Some l0.
Proof.
  intros Hwf Hl. unfold repainted.
  set (f := fst (framed s)). set (b := nextSibling f _).
  destruct (online_fields f b (relined (relabelled r (prepared host s))))
    as (_ & _ & Hd & _).
  rewrite Hd. apply relined_line_kept.
  destruct (relabelled_fields r (prepared host s)) as (_ & Hlt & _).
  now rewrite Hlt, (ready_dom _ _ _ (prepared_ready host s Hwf)).
Qed.

Lemma completed_repainted host s r s' :
  wf s -> range s = Some r -> repaint host s = Ok tt s' ->
  s' = repainted host r s /\ settled host r s' /\ wf s'.
Proof.
  intros Hwf Hr Hrun.
  destruct (repaint_completed host s tt s' Hwf Hrun) as ((Hatt & Hp) & _ & Hhide).
  destruct (repaint_completes host s r Hwf Hatt Hp Hr Hhide) as (Hrun' & Hwf' & _).
  assert (E : s' = repainted host r s) by congruence.
  subst s'. split; [reflexivity |]. split; [| exact Hwf'].
  now apply repainted_settled.
Qed.

(** X6: a completed repaint reuses the elements of each pool in order, from
    the front: the pool of a kind afterwards starts with the first [n]
    elements it held before, [n] being the number of marks of that kind in
    the cycle, and continues with elements created in this cycle, which
    exist only when the old pool was too short. *)
Theorem repaint_reuses host s r s' :
  wf s -> range s = Some r -> repaint host s = Ok tt s' ->
  forall k,
    let n := length (of_kind k (cycle_marks r (prepared host s))) in
    exists created,
      active k (dom s') = take n (active k (dom s)) ++ created /\
      length created = n - length (active k (dom s)) /\
      (forall h, h ∈ created -> h ∉ frameChildren s).
Proof.
  intros Hwf Hr Hrun k n.
  destruct (completed_repainted host s r s' Hwf Hr Hrun) as (-> & _ & _).
  pose proof (prepared_ready host s Hwf) as Hready.
  destruct (repainted_fields host r s) as (_ & _ & _ & _ & _ & Ha & _).
  rewrite Ha. unfold relabelled. rewrite sweep_active.
  set (p := prepared host s) in *.
  set (q := set_step _ (set_dom (retire (dom p)) _)).
  destruct (places_reuse (option_of orientation (options p)) (cycle_marks r p) k q)
    as (created & Hact & Hlen & Hnew).
  replace (active k (dom q)) with (@nil handle) in Hact
    by (unfold q; fields; now rewrite active_retire).
  replace (retired k (dom q)) with (active k (dom s)) in Hact, Hlen
    by (unfold q; fields; now rewrite retired_retire, (ready_dom _ _ _ Hready)).
  exists created. split; [exact Hact |]. split; [exact Hlen |].
  intros h Hin Hch. rewrite Forall_forall in Hnew. specialize (Hnew h Hin).
  rewrite <- (ready_frameChildren _ _ _ Hready) in Hch.
  apply (pool_child_lt p h (ready_pool _ _ _ Hready)) in Hch.
  unfold q in Hnew. fields in Hnew. lia.
Qed.

(** X7: after a completed repaint the pool of each kind holds, in order, the
    elements of the marks of that kind: the i-th element carries the text,
    the left position, the height and the top or bottom that the painter of
    the kind assigns for the i-th mark (assigning them again changes
    nothing). *)
Theorem repaint_paints host s r s' :
  wf s -> range s = Some r -> repaint host s = Ok tt s' ->
  forall k,
    Forall2 (dressed (option_of orientation (options s)) s')
      (active k (dom s')) (of_kind k (cycle_marks r (prepared host s))).
Proof.
  intros Hwf Hr Hrun k.
  destruct (completed_repainted host s r s' Hwf Hr Hrun) as (E & Hs & _).
  pose proof (settled_painted host r s' Hs k) as Hp.
  destruct (repainted_fields host r s) as (Ho & Hpr & Hw & _).
  rewrite <- E in Ho, Hpr, Hw.
  rewrite (cycle_marks_ext r (prepared host s) s' Hw Hpr Ho) in Hp.
  now rewrite Ho, (ready_options _ _ _ (prepared_ready host s Hwf)) in Hp.
Qed.

(** X8: with at least one kind of labels shown, a completed repaint leaves
    the axis line as the last child of the frame; it is the line of the
    earlier repaints when there was one, carries the class of the line, and
    is anchored at the height of the axis: [top] under the orientation
    [top], [bottom] otherwise, the other one cleared. *)
Theorem repaint_axis_line host s r s' :
  wf s -> range s = Some r -> repaint host s = Ok tt s' ->
  shows showMinorLabels s || shows showMajorLabels s = true ->
  exists l X e,
    line (dom s') = Some l /\
    (forall l0, line (dom s) = Some l0 -> l = l0) /\
    frameChildren s' = X ++ [l] /\ (l ∉ X) /\
    elems s' !! l = Some e /\ className e = line_cls /\
    Style.top (style e) =
      (if is_top (option_of orientation (options s)) then px (height s') else css_empty) /\
    Style.bottom (style e) =
      (if is_top (option_of orientation (options s)) then css_empty else px (height s')).
Proof.
  intros Hwf Hr Hrun Hshow.
  destruct (completed_repainted host s r s' Hwf Hr Hrun) as (E & Hs & Hwf').
  pose proof (prepared_ready host s Hwf) as Hready.
  destruct (repainted_fields host r s) as (Ho & _).
  rewrite <- E, (ready_options _ _ _ Hready) in Ho.
  pose proof (settled_line host r s' Hs) as Hl.
  unfold shows in Hl, Hshow. rewrite Ho, Hshow in Hl.
  destruct Hl as (l & X & e & H1 & H2 & H3 & H4 & H5).
  exists l, X, e. split; [exact H1 |]. split.
  { intros l0 Hl0.
    pose proof (repainted_line_kept host r s l0 Hwf Hl0) as Hk.
    rewrite <- E, H1 in Hk. now injection Hk. }
  split; [exact H2 |]. split; [exact H3 |]. split; [exact H4 |].
  pose proof (pool_line s' (wf_pool s' Hwf') l H1) as Hc.
  unfold class_of in Hc. rewrite H4 in Hc. cbn in Hc. injection Hc as Hc.
  split; [exact Hc |].
  rewrite <- H5. unfold line_style, anchored. rewrite Ho.
  destruct (is_top (option_of orientation (options s))); now split.
Qed.

(** X9: the sizes a completed repaint leaves: a hidden kind of labels takes
    no height, a shown kind the height of its glyphs; the axis is as high as
    both together; a minor gridline is as high as the parent plus the minor
    labels, a major gridline as high as the parent plus the axis; both are
    one pixel wide. *)
Theorem repaint_sizes host s r s' :
  wf s -> range s = Some r -> repaint host s = Ok tt s' ->
  let p := props s' in
  minorLabelHeight p = (if shows showMinorLabels s then minorCharHeight p else Some 0%Q) /\
  majorLabelHeight p = (if shows showMajorLabels s then majorCharHeight p else Some 0%Q) /\
  height s' = num_add (minorLabelHeight p) (majorLabelHeight p) /\
  minorLineHeight p = num_add (Some (parentHeight host)) (minorLabelHeight p) /\
  majorLineHeight p = num_add (Some (parentHeight host)) (height s') /\
  minorLineWidth p = Some 1%Q /\ majorLineWidth p = Some 1%Q /\
  is_Some (minorCharHeight p) /\ is_Some (majorCharHeight p).
Proof.
  intros Hwf Hr Hrun p.
  destruct (completed_repainted host s r s' Hwf Hr Hrun) as (E & Hs & _).
  destruct (repainted_fields host r s) as (Ho & _).
  rewrite <- E, (ready_options _ _ _ (prepared_ready host s Hwf)) in Ho.
  destruct (settled_sized host r s' Hs) as (Hp & Hh).
  destruct (settled_measured host r s' Hs) as (Hm & HM).
  assert (Hsm : shows showMinorLabels s' = shows showMinorLabels s)
    by (unfold shows; now rewrite Ho).
  assert (HsM : shows showMajorLabels s' = shows showMajorLabels s)
    by (unfold shows; now rewrite Ho).
  assert (H1 : minorLabelHeight p =
               if shows showMinorLabels s then minorCharHeight p else Some 0%Q).
  { rewrite <- Hsm. exact (f_equal minorLabelHeight Hp). }
  assert (H2 : majorLabelHeight p =
               if shows showMajorLabels s then majorCharHeight p else Some 0%Q).
  { rewrite <- HsM. exact (f_equal majorLabelHeight Hp). }
  assert (H3 : height s' = num_add (minorLabelHeight p) (majorLabelHeight p)).
  { rewrite H1, H2, <- Hsm, <- HsM. exact Hh. }
  split; [exact H1 |]. split; [exact H2 |]. split; [exact H3 |].
  split; [rewrite H1, <- Hsm; exact (f_equal minorLineHeight Hp) |].
  split; [rewrite H3, H1, H2, <- Hsm, <- HsM; exact (f_equal majorLineHeight Hp) |].
  split; [exact (f_equal minorLineWidth Hp) |].
  split; [exact (f_equal majorLineWidth Hp) |].
  now split.
Qed.

(** X10: a completed repaint puts the frame back where it was among the
    children of the container: their order is as before; a frame that was
    not in the container yet has become its last child. *)
Theorem repaint_container host s r s' :
  wf s -> range s = Some r -> repaint host s = Ok tt s' ->
  let f := fst (framed s) in
  frame s' = Some f /\
  (forall f0, frame s = Some f0 -> f = f0) /\
  containerChildren s' =
    if member f (containerChildren s) then containerChildren s
    else containerChildren s ++ [f].
Proof.
  intros Hwf Hr Hrun f.
  destruct (completed_repainted host s r s' Hwf Hr Hrun) as (E & _ & _).
  pose proof (prepared_ready host s Hwf) as Hready.
  destruct (repainted_fields host r s) as (_ & _ & _ & _ & Hf & _ & Hc).
  rewrite <- E in Hf, Hc. fold f in Hc.
  split; [now rewrite Hf, (ready_frame _ _ _ Hready) |].
  split; [intros f0 Hf0; unfold f, framed; now rewrite Hf0 |].
  destruct (framed_fields s) as (_ & Hcc & _).
  assert (Hn : NoDup (containerChildren (attached host f (snd (framed s)))))
    by (apply attached_NoDup; rewrite Hcc; apply (wf_container s Hwf)).
  rewrite Hc, restored_same; [| exact Hn | apply member_true, attached_member].
  unfold attached. fields. rewrite Hcc.
  destruct (member f (containerChildren s)) eqn:Em; fields; rewrite ?Hcc;
    [reflexivity |].
  apply appended_absent. now apply member_false.
Qed.

(** X11: after a completed repaint [toScreen] and [toTime] succeed, and
    leave the state alone; they use the conversion the range gives for the
    width read from the frame at the start of that repaint: the one of the
    range's own [conversion] method when it has one, of [Range.conversion]
    on its start and end otherwise. *)
Theorem conversion_after_repaint host s r s' :
  wf s -> range s = Some r -> repaint host s = Ok tt s' ->
  let c := match conversion_method r with
           | Some conversion => conversion (Some (offsetWidth host))
           | None => Range_conversion (prop RangeObj.start r) (prop RangeObj.end_ r)
                       (Some (offsetWidth host))
           end in
  conversion s' = Some c /\
  (forall time, toScreen time s' = Ok ((valueOf time - offset c) * scale c)%Q s') /\
  (forall x, toTime x s' = Ok (Date_new (x / scale c + offset c)) s').
Proof.
  intros Hwf Hr Hrun c.
  destruct (completed_repainted host s r s' Hwf Hr Hrun) as (_ & Hs & _).
  assert (Hc : conversion s' = Some c).
  { rewrite (settled_conversion host r s' Hs). unfold converted.
    now rewrite (settled_width host r s' Hs). }
  split; [exact Hc |].
  split; [intros time; now apply toScreen_Ok | intros x; now apply toTime_Ok].
Qed.

(** X12: after a completed repaint [snap] succeeds and leaves the state
    alone: it asks the tick-step generator of that repaint, which stands
    where the loop over the ticks left it. *)
Theorem snap_after_repaint host s r s' date :
  wf s -> range s = Some r -> repaint host s = Ok tt s' ->
  step s' = Some (stopped 1000 (cursor r (prepared host s))) /\
  snap date s' = Ok (snapTo (stopped 1000 (cursor r (prepared host s))) date) s'.
Proof.
  intros Hwf Hr Hrun.
  destruct (completed_repainted host s r s' Hwf Hr Hrun) as (E & Hs & _).
  destruct (repainted_fields host r s) as (_ & Hpr & Hw & _).
  rewrite <- E in Hpr, Hw.
  assert (Hst : step s' = Some (stopped 1000 (cursor r (prepared host s)))).
  { rewrite (settled_step host r s' Hs).
    now rewrite (cursor_ext r (prepared host s) s' Hw Hpr). }
  split; [exact Hst |].
  unfold snap. run. now rewrite Hst.
Qed.

(** *** Labels, tick by tick *)

Lemma tick_marks_minor_text minor major c st :
  of_kind MinorText (tick_marks minor major c st) =
  if minor
  then [MinorTextAt ((valueOf (getCurrent st) - offset c) * scale c) (getLabelMinor st)]
  else [].
Proof.
  unfold tick_marks. rewrite of_kind_app.
  destruct minor, (isMajor st && major); try destruct (Qlt_bool 0 _); reflexivity.
Qed.

Lemma loop_marks_minor_texts minor major c steps :
  of_kind MinorText (loop_marks minor major c steps) =
  if minor
  then map (fun st => MinorTextAt ((valueOf (getCurrent st) - offset c) * scale c)
                        (getLabelMinor st)) steps
  else [].
Proof.
  induction steps as [| st steps IH]; [now destruct minor |].
  rewrite loop_marks_cons, of_kind_app, IH, tick_marks_minor_text.
  now destruct minor.
Qed.

Lemma left_marks_minor_text major c p st xFirst :
  of_kind MinorText (left_marks major c p st xFirst) = [].
Proof. unfold left_marks. now destruct (major && left_fits _ _). Qed.

(** The marks of a kind of labels that is hidden. *)
Lemma loop_marks_major_hidden minor c steps :
  of_kind MajorText (loop_marks minor false c steps) = [] /\
  of_kind MajorLine (loop_marks minor false c steps) = [].
Proof.
  induction steps as [| st steps [IH1 IH2]]; [now split |].
  rewrite loop_marks_cons, !of_kind_app, IH1, IH2.
  unfold tick_marks. rewrite andb_false_r. now destruct minor.
Qed.

Lemma Forall2_map_r {A B C} (P : A -> B -> Prop) (g : C -> B) (l : list A) :
  forall cs : list C, Forall2 P l (map g cs) -> Forall2 (fun x y => P x (g y)) l cs.
Proof.
  induction l as [| a l IH]; intros [| c cs] H; inversion H; subst; constructor; auto.
Qed.

Lemma repainted_painted host r s :
  wf s -> can_attach host s -> parent s = true -> range s = Some r -> can_hide s ->
  forall k,
    Forall2 (dressed (option_of orientation (options s)) (repainted host r s))
      (active k (dom (repainted host r s))) (of_kind k (cycle_marks r (prepared host s))).
Proof.
  intros Hwf Hatt Hp Hr Hhide k.
  pose proof (repainted_settled host r s Hwf Hatt Hp Hr Hhide) as Hs.
  pose proof (settled_painted host r _ Hs k) as Hpaint.
  destruct (repainted_fields host r s) as (Ho & Hpr & Hw & _).
  rewrite (cycle_marks_ext r (prepared host s) _ Hw Hpr Ho) in Hpaint.
  now rewrite Ho, (ready_options _ _ _ (prepared_ready host s Hwf)) in Hpaint.
Qed.

(** X18: with minor labels shown, a completed repaint leaves one minor
    label for every tick the loop visited, in the order of the ticks: the
    label of a tick carries the minor text the generator gives for it and
    sits at the pixel [toScreen] gives for its instant under the conversion
    in effect after the repaint. *)
Theorem repaint_minor_labels host s r s' :
  wf s -> range s = Some r -> repaint host s = Ok tt s' ->
  shows showMinorLabels s = true ->
  exists c,
    conversion s' = Some c /\
    Forall2 (fun h st =>
               text_of s' h = Some (getLabelMinor st) /\
               left_of s' h =
                 Some (css_px ((valueOf (getCurrent st) - offset c) * scale c)))
      (active MinorText (dom s')) (cycle_ticks r (prepared host s)).
Proof.
  intros Hwf Hr Hrun Hshow.
  destruct (repaint_completed host s tt s' Hwf Hrun) as ((Hatt & Hp) & _ & Hhide).
  destruct (completed_repainted host s r s' Hwf Hr Hrun) as (E & Hs & _).
  pose proof (repainted_painted host r s Hwf Hatt Hp Hr Hhide MinorText) as Hpaint.
  rewrite <- E in Hpaint.
  destruct (repainted_fields host r s) as (_ & _ & Hw & _). rewrite <- E in Hw.
  exists (converted r (prepared host s)).
  split; [rewrite (settled_conversion host r s' Hs); f_equal; now apply converted_ext |].
  unfold cycle_marks, cycle_loop_marks, cycle_left_marks in Hpaint.
  rewrite of_kind_app, left_marks_minor_text, app_nil_r, loop_marks_minor_texts in Hpaint.
  rewrite (prepared_shows host s showMinorLabels Hwf), Hshow in Hpaint.
  apply Forall2_map_r in Hpaint.
  apply (Forall2_impl _ _ _ _ Hpaint).
  intros h st Hd. apply dressed_MinorText in Hd. now destruct Hd.
Qed.

(** X19: a kind of labels that is hidden has no elements after a completed
    repaint: without minor labels no minor label is left in the frame;
    without major labels neither a major label nor a major gridline is. *)
Theorem repaint_hides host s r s' :
  wf s -> range s = Some r -> repaint host s = Ok tt s' ->
  (shows showMinorLabels s = false ->
   active MinorText (dom s') = [] /\ live MinorText s' = []) /\
  (shows showMajorLabels s = false ->
   active MajorText (dom s') = [] /\ live MajorText s' = [] /\
   active MajorLine (dom s') = [] /\ live MajorLine s' = []).
Proof.
  intros Hwf Hr Hrun.
  destruct (repaint_completed host s tt s' Hwf Hrun) as ((Hatt & Hp) & _ & Hhide).
  destruct (completed_repainted host s r s' Hwf Hr Hrun) as (E & Hs & Hwf').
  pose proof (repainted_painted host r s Hwf Hatt Hp Hr Hhide) as Hpaint.
  rewrite <- E in Hpaint.
  assert (Hlive : forall k, active k (dom s') = [] -> live k s' = []).
  { intros k Hk.
    pose proof (live_active s' k (wf_pool s' Hwf') (wf_retired s' Hwf')) as Hl.
    rewrite Hk in Hl. now apply Permutation_nil_r in Hl. }
  split.
  - intros Hshow.
    assert (Ha : active MinorText (dom s') = []).
    { specialize (Hpaint MinorText).
      unfold cycle_marks, cycle_loop_marks, cycle_left_marks in Hpaint.
      rewrite of_kind_app, left_marks_minor_text, app_nil_r, loop_marks_minor_texts
        in Hpaint.
      rewrite (prepared_shows host s showMinorLabels Hwf), Hshow in Hpaint.
      now apply Forall2_nil_inv_r in Hpaint. }
    split; [exact Ha | now apply Hlive].
  - intros Hshow.
    assert (Ha : forall k, k = MajorText \/ k = MajorLine -> active k (dom s') = []).
    { intros k Hk. specialize (Hpaint k).
      unfold cycle_marks, cycle_loop_marks, cycle_left_marks in Hpaint.
      rewrite (prepared_shows host s showMajorLabels Hwf), Hshow in Hpaint.
      rewrite of_kind_app in Hpaint.
      destruct (loop_marks_major_hidden (shows showMinorLabels (prepared host s))
                  (converted r (prepared host s)) (cycle_ticks r (prepared host s)))
        as (HT & HL).
      unfold left_marks in Hpaint. cbn [andb] in Hpaint.
      destruct Hk as [-> | ->]; rewrite ?HT, ?HL in Hpaint;
        now apply Forall2_nil_inv_r in Hpaint. }
    split; [apply Ha; now left |]. split; [apply Hlive, Ha; now left |].
    split; [apply Ha; now right | apply Hlive, Ha; now right].
Qed.

(** X20: after a completed repaint the frame is an element of class
    [axis] among the children of the container, and its style is rewritten
    in full from the orientation, the [width] option and the height of the
    axis. *)
Theorem repaint_frame host s r s' :
  wf s -> range s = Some r -> repaint host s = Ok tt s' ->
  exists f e,
    frame s' = Some f /\ f ∈ containerChildren s' /\
    elems s' !! f = Some e /\ className e = "axis"%string /\
    style e =
      (if is_top (option_of orientation (options s))
       then {| Style.top := css_lit "0"; Style.bottom := css_empty;
               Style.left := css_lit "0";
               Style.width := asSize (optWidth (options s)) "100%";
               Style.height := px (height s') |}
       else {| Style.top := css_empty; Style.bottom := css_lit "0";
               Style.left := css_lit "0";
               Style.width := asSize (optWidth (options s)) "100%";
               Style.height := px (height s') |}).
Proof.
  intros Hwf Hr Hrun.
  destruct (completed_repainted host s r s' Hwf Hr Hrun) as (E & Hs & _).
  destruct (repainted_fields host r s) as (Ho & _).
  rewrite <- E, (ready_options _ _ _ (prepared_ready host s Hwf)) in Ho.
  destruct (settled_frame host r s' Hs) as (f & e & Hf & Hm & He & Hc & Hst).
  exists f, e. split; [exact Hf |]. split; [now apply member_true |].
  split; [exact He |]. split; [exact Hc |].
  rewrite Hst. unfold frame_style. now rewrite Ho.
Qed.

(** *** Elements that are not the axis's *)

Lemma places_foreign o ms : forall s h,
  pool_ok s -> h < length (elems s) -> h ∉ frameChildren s ->
  elems (places o ms s) !! h = elems s !! h.
Proof.
  induction ms as [| m ms IH]; intros s h Hok Hlt Hout; [reflexivity |].
  assert (Hne : h <> chosen m s).
  { unfold chosen. destruct (retired (kind_of m) (dom s)) as [| h' r] eqn:Er; [lia |].
    intros ->. apply Hout. apply (pool_member s (kind_of m)); [exact Hok |].
    apply elem_of_app. right. rewrite Er. left. }
  rewrite places_cons, IH.
  - now apply place_other.
  - now apply place_pool_ok.
  - pose proof (place_length o m s). lia.
  - unfold place. destruct (retired (kind_of m) (dom s)); fields; [| exact Hout].
    rewrite appended_absent by now apply pool_fresh.
    intros Hin. apply elem_of_app in Hin as [Hin | Hin]; [now apply Hout |].
    apply list_elem_of_singleton in Hin. lia.
Qed.

Lemma prepared_foreign host s h :
  wf s -> h < length (elems s) -> frame s <> Some h ->
  elems (prepared host s) !! h = elems s !! h.
Proof.
  intros Hwf Hlt Hnf.
  assert (Hne : fst (framed s) <> h).
  { unfold framed. destruct (frame s) as [f0 |] eqn:Ef; cbn [fst]; [congruence | lia]. }
  assert (H0 : elems (snd (framed s)) !! h = elems s !! h)
    by (unfold framed; destruct (frame s); [reflexivity | now apply lookup_app_l]).
  assert (Hlt0 : h < length (elems (snd (framed s))))
    by (apply lookup_lt_is_Some; rewrite H0; now apply lookup_lt_is_Some).
  unfold prepared. destruct (framed s) as [f s0]. cbn [fst snd] in *.
  unfold offline, sized. fields.
  rewrite list_lookup_alter_ne by exact Hne.
  rewrite measured_lookup
    by (rewrite attached_elems, length_alter; exact Hlt0).
  rewrite attached_elems, list_lookup_alter_ne by exact Hne.
  exact H0.
Qed.

(** X21: a completed repaint touches no element that is not the axis's: an
    element of the document that is neither the frame nor a child of the
    frame is after the repaint what it was before. *)
Theorem repaint_leaves_others host s r s' :
  wf s -> range s = Some r -> repaint host s = Ok tt s' ->
  forall h,
    h < length (elems s) -> h ∉ frameChildren s -> frame s <> Some h ->
    elems s' !! h = elems s !! h.
Proof.
  intros Hwf Hr Hrun h Hlt Hout Hnf.
  destruct (completed_repainted host s r s' Hwf Hr Hrun) as (-> & _ & _).
  pose proof (prepared_ready host s Hwf) as Hready.
  pose proof (prepared_foreign host s h Hwf Hlt Hnf) as Hp.
  assert (Hltp : h < length (elems (prepared host s)))
    by (apply lookup_lt_is_Some; rewrite Hp; now apply lookup_lt_is_Some).
  unfold repainted.
  set (p := prepared host s) in *.
  set (f := fst (framed s)). set (b := nextSibling f _).
  destruct (online_fields f b (relined (relabelled r p))) as (He & _).
  rewrite He, <- Hp.
  destruct (relabelled_pool p r (ready_pool _ _ _ Hready) (ready_retired _ _ _ Hready))
    as (Hok_t & _ & _).
  assert (Ht : elems (relabelled r p) !! h = elems p !! h).
  { unfold relabelled. rewrite sweep_elems, places_foreign; [reflexivity | | exact Hltp |].
    - apply (pool_ok_ext (set_dom (retire (dom p)) p)); try reflexivity.
      now apply retire_pool_ok; [apply (ready_pool _ _ _ Hready)
                                | apply (ready_retired _ _ _ Hready)].
    - fields. now rewrite (ready_frameChildren _ _ _ Hready). }
  rewrite <- Ht. unfold relined.
  destruct (shows showMinorLabels (relabelled r p) || shows showMajorLabels (relabelled r p));
    [| reflexivity].
  destruct (relabelled_fields r p) as (_ & Hl & _).
  destruct (line (dom (relabelled r p))) as [l |] eqn:El; fields.
  - apply list_lookup_alter_ne. intros ->. apply Hout.
    rewrite <- (ready_frameChildren _ _ _ Hready).
    apply (pool_line_member p); [apply (ready_pool _ _ _ Hready) | now rewrite <- Hl].
  - apply lookup_app_l. apply lookup_lt_is_Some. rewrite Ht.
    now apply lookup_lt_is_Some.
Qed.

End Aftermath.

(** ** Measuring, snapping and converting *)

Section Measuring.

Context {Step : Type} `{StepOps : TimeStepOps Step} `{U : Util}.

Implicit Types (s : State Step) (m : mark) (k : kind) (h : handle) (d : Dom).

Lemma measured_props host s :
  let p := props (measured host s) in
  minorCharHeight p =
    Some (default (clientHeight host "text minor measure") (minorCharHeight (props s))) /\
  majorCharHeight p =
    Some (default (clientHeight host "text major measure") (majorCharHeight (props s))) /\
  minorCharWidth p =
    match minorCharHeight (props s) with
    | Some _ => minorCharWidth (props s)
    | None => Some (clientWidth host "text minor measure")
    end /\
  majorCharWidth p =
    match majorCharHeight (props s) with
    | Some _ => majorCharWidth (props s)
    | None => Some (clientWidth host "text major measure")
    end.
Proof.
  unfold measured.
  destruct (minorCharHeight (props s)) eqn:Em; fields;
    destruct (majorCharHeight (props s)) eqn:EM; fields;
    rewrite ?Em, ?EM; now repeat split.
Qed.

Lemma measured_again host host' s : measured host' (measured host s) = measured host s.
Proof.
  destruct (measured_sizes host s) as [[a Ha] [b Hb]].
  unfold measured at 1. now rewrite Ha, Hb.
Qed.

(** X13: [_calculateCharSize] measures once.  With a frame to measure in,
    it succeeds; a glyph height that is known is kept, with the width
    stored beside it, and one that is not is read from the host together
    with the width; the probes it adds to the frame are taken out again, so
    the children of the frame and the pools are as before; and a later call
    changes nothing, whatever the host reports by then. *)
Theorem _calculateCharSize_once host s f :
  frame s = Some f -> pool_ok s ->
  exists s',
    _calculateCharSize host s = Ok tt s' /\
    minorCharHeight (props s') =
      Some (default (clientHeight host "text minor measure") (minorCharHeight (props s))) /\
    majorCharHeight (props s') =
      Some (default (clientHeight host "text major measure") (majorCharHeight (props s))) /\
    minorCharWidth (props s') =
      match minorCharHeight (props s) with
      | Some _ => minorCharWidth (props s)
      | None => Some (clientWidth host "text minor measure")
      end /\
    majorCharWidth (props s') =
      match majorCharHeight (props s) with
      | Some _ => majorCharWidth (props s)
      | None => Some (clientWidth host "text major measure")
      end /\
    frameChildren s' = frameChildren s /\ dom s' = dom s /\
    forall host', _calculateCharSize host' s' = Ok tt s'.
Proof.
  intros Hf Hok. exists (measured host s).
  split; [now apply (_calculateCharSize_measured host s f) |].
  destruct (measured_props host s) as (Hm & HM & Hmw & HMw).
  split; [exact Hm |]. split; [exact HM |]. split; [exact Hmw |]. split; [exact HMw |].
  split; [now apply measured_frameChildren |].
  split; [apply measured_dom |].
  intros host'.
  rewrite (_calculateCharSize_measured host' _ f) by (now rewrite measured_frame).
  now rewrite measured_again.
Qed.

Lemma unpainted_step s : unpainted s -> step s = None.
Proof.
  induction 1 as [| s range _ IH | s o _ IH]; try assumption; try reflexivity.
  unfold setRange. destruct (_ && _); assumption.
Qed.

(** X14: before any repaint [snap] has no tick-step generator to ask: it
    fails with the TypeError of reading a property of [undefined], and
    leaves the state alone. *)
Theorem snap_before_repaint s date :
  unpainted s ->
  snap date s = Throw (TypeError "Cannot read property 'snap' of undefined") s.
Proof.
  intros Hs. apply unpainted_step in Hs. unfold snap. run. now rewrite Hs.
Qed.

(** X15: [setRange] accepts every instance of [Range], whatever its fields,
    and any other argument exactly when it is an object whose [start] and
    [end] are both truthy.  An accepted range replaces the stored one and
    nothing else changes; a rejected one raises the TypeError and changes
    nothing. *)
Theorem setRange_accepts_iff (range0 : arg) s :
  let accepted :=
    instanceof_Range range0 = true \/
    (truthy (prop RangeObj.start range0) = true /\
     truthy (prop RangeObj.end_ range0) = true) in
  (accepted -> setRange range0 s = Ok tt (set_range (Some range0) s)) /\
  (~ accepted ->
   setRange range0 s =
   Throw (TypeError
     "Range must be an instance of Range, or an object containing start and end.") s).
Proof.
  intros accepted. split; [apply setRange_ok |].
  intros Hno. unfold setRange.
  destruct (instanceof_Range range0) eqn:Ei; [exfalso; apply Hno; now left |].
  destruct (truthy (prop RangeObj.start range0)) eqn:Es;
    [| cbn [negb andb orb]; now rewrite orb_true_r].
  destruct (truthy (prop RangeObj.end_ range0)) eqn:Ee;
    [exfalso; apply Hno; right; now split |].
  cbn [negb andb orb]. now rewrite orb_true_r.
Qed.

(** X16: [setRange] does not touch the conversion: until the next repaint
    [toScreen] and [toTime] answer for the range painted last. *)
Theorem setRange_keeps_conversion (range0 : arg) s s' :
  setRange range0 s = Ok tt s' ->
  conversion s' = conversion s /\
  (forall time, toScreen time s' =
                match toScreen time s with
                | Ok x _ => Ok x s'
                | Throw e _ => Throw e s'
                end) /\
  (forall x, toTime x s' =
             match toTime x s with
             | Ok t _ => Ok t s'
             | Throw e _ => Throw e s'
             end).
Proof.
  intros Hrun. unfold setRange in Hrun.
  destruct (_ && _) in Hrun; [discriminate |].
  injection Hrun as <-.
  split; [reflexivity |].
  unfold toScreen, toTime. split; intros; run;
    destruct (conversion s); reflexivity.
Qed.

End Measuring.

(** ** The properties at work on concrete axes *)

Lemma wf_three_ticks : wf three_ticks.
Proof.
  apply wf_setRange.
  destruct (repaint_completes (StepOps := Demo.ops 25 50) (U := Demo.util)
              Demo.host five_ticks (Demo.between 1000 1100))
    as (Hrun & Hwf & _).
  - apply wf_setRange, wf_TimeAxis, NoDup_nil_2.
  - right. split; reflexivity.
  - reflexivity.
  - reflexivity.
  - intros H. discriminate H.
  - unfold five_ticks_painted. rewrite Hrun. exact Hwf.
Qed.

Lemma wf_minor_hidden : wf minor_hidden.
Proof.
  apply wf_set_options.
  destruct (repaint_completes (StepOps := Demo.ops 25 50) (U := Demo.util)
              Demo.host five_ticks (Demo.between 1000 1100))
    as (Hrun & Hwf & _).
  - apply wf_setRange, wf_TimeAxis, NoDup_nil_2.
  - right. split; reflexivity.
  - reflexivity.
  - reflexivity.
  - intros H. discriminate H.
  - unfold five_ticks_painted. rewrite Hrun. exact Hwf.
Qed.

Lemma minor_hidden_range : range minor_hidden = Some (Demo.between 1000 1100).
Proof. vm_compute. reflexivity. Qed.

Lemma minor_hidden_run :
  repaint (StepOps := Demo.ops 25 50) (U := Demo.util) Demo.host minor_hidden
  = Ok tt minor_hidden_painted.
Proof. vm_compute. reflexivity. Qed.

Lemma three_ticks_range : range three_ticks = Some (Demo.between 1000 1050).
Proof. vm_compute. reflexivity. Qed.

Lemma three_ticks_run :
  repaint (StepOps := Demo.ops 25 50) (U := Demo.util) Demo.host three_ticks
  = Ok tt three_ticks_painted.
Proof. vm_compute. reflexivity. Qed.

Lemma repaint_reuses_witness :
  exists created,
    active MinorText (dom three_ticks_painted)
      = take 3 (active MinorText (dom three_ticks)) ++ created /\
    length created = 3 - length (active MinorText (dom three_ticks)).
Proof.
  destruct (repaint_reuses (StepOps := Demo.ops 25 50) (U := Demo.util)
              Demo.host three_ticks (Demo.between 1000 1050) three_ticks_painted
              wf_three_ticks three_ticks_range three_ticks_run MinorText)
    as (created & Ha & Hl & _).
  assert (Hn : length (of_kind MinorText
                 (cycle_marks (StepOps := Demo.ops 25 50) (U := Demo.util)
                    (Demo.between 1000 1050)
                    (prepared (U := Demo.util) Demo.host three_ticks))) = 3)
    by (vm_compute; reflexivity).
  rewrite Hn in Ha, Hl. exists created. split; [exact Ha | exact Hl].
Defined.

Lemma repaint_paints_witness :
  Forall2 (dressed (option_of orientation (options three_ticks)) three_ticks_painted)
    (active MajorText (dom three_ticks_painted))
    (of_kind MajorText
       (cycle_marks (StepOps := Demo.ops 25 50) (U := Demo.util)
          (Demo.between 1000 1050)
          (prepared (U := Demo.util) Demo.host three_ticks))).
Proof.
  apply (repaint_paints (StepOps := Demo.ops 25 50) (U := Demo.util)
           Demo.host three_ticks (Demo.between 1000 1050) three_ticks_painted
           wf_three_ticks three_ticks_range three_ticks_run).
Defined.

Lemma repaint_axis_line_witness :
  exists X e,
    line (dom three_ticks_painted) = Some 16 /\
    frameChildren three_ticks_painted = X ++ [16] /\
    elems three_ticks_painted !! 16 = Some e /\ className e = line_cls.
Proof.
  destruct (repaint_axis_line (StepOps := Demo.ops 25 50) (U := Demo.util)
              Demo.host three_ticks (Demo.between 1000 1050) three_ticks_painted
              wf_three_ticks three_ticks_range three_ticks_run)
    as (l & X & e & H1 & H2 & H3 & _ & H5 & H6 & _).
  - vm_compute. reflexivity.
  - assert (E : l = 16) by (apply H2; vm_compute; reflexivity).
    subst l. exists X, e.
    split; [exact H1 |]. split; [exact H3 |]. split; [exact H5 | exact H6].
Defined.

Lemma repaint_sizes_witness :
  height three_ticks_painted =
    num_add (minorLabelHeight (props three_ticks_painted))
            (majorLabelHeight (props three_ticks_painted)) /\
  minorLineWidth (props three_ticks_painted) = Some 1%Q.
Proof.
  destruct (repaint_sizes (StepOps := Demo.ops 25 50) (U := Demo.util)
              Demo.host three_ticks (Demo.between 1000 1050) three_ticks_painted
              wf_three_ticks three_ticks_range three_ticks_run)
    as (_ & _ & H3 & _ & _ & H6 & _).
  split; [exact H3 | exact H6].
Defined.

Lemma repaint_container_witness :
  frame three_ticks_painted = Some 0 /\
  containerChildren three_ticks_painted = containerChildren three_ticks.
Proof.
  destruct (repaint_container (StepOps := Demo.ops 25 50) (U := Demo.util)
              Demo.host three_ticks (Demo.between 1000 1050) three_ticks_painted
              wf_three_ticks three_ticks_range three_ticks_run)
    as (Hf & _ & Hc).
  assert (E : fst (framed three_ticks) = 0) by (vm_compute; reflexivity).
  rewrite E in Hf, Hc. split; [exact Hf |].
  assert (Em : member 0 (containerChildren three_ticks) = true)
    by (vm_compute; reflexivity).
  rewrite Em in Hc. exact Hc.
Defined.

Lemma conversion_after_repaint_witness :
  conversion three_ticks_painted = Some {| scale := 1000 # 50; offset := 1000 |}.
Proof.
  destruct (conversion_after_repaint (StepOps := Demo.ops 25 50) (U := Demo.util)
              Demo.host three_ticks (Demo.between 1000 1050) three_ticks_painted
              wf_three_ticks three_ticks_range three_ticks_run)
    as (Hc & _).
  rewrite Hc. vm_compute. reflexivity.
Defined.

Lemma snap_after_repaint_witness :
  exists st,
    step three_ticks_painted = Some st /\
    snap (StepOps := Demo.ops 25 50) 1234%Z three_ticks_painted
    = Ok (snapTo (TimeStepOps := Demo.ops 25 50) st 1234%Z) three_ticks_painted.
Proof.
  destruct (snap_after_repaint (StepOps := Demo.ops 25 50) (U := Demo.util)
              Demo.host three_ticks (Demo.between 1000 1050) three_ticks_painted
              1234%Z wf_three_ticks three_ticks_range three_ticks_run)
    as (Hst & Hsnap).
  eexists. split; [exact Hst | exact Hsnap].
Defined.

Lemma _calculateCharSize_once_witness :
  exists s',
    _calculateCharSize Demo.host (entered Demo.host (Demo.axis None)) = Ok tt s' /\
    minorCharHeight (props s') = Some 14%Q /\
    _calculateCharSize bare_host s' = Ok tt s'.
Proof.
  destruct (_calculateCharSize_once Demo.host (entered Demo.host (Demo.axis None)) 0)
    as (s' & Hrun & Hm & _ & _ & _ & _ & _ & Hagain).
  - reflexivity.
  - apply wf_pool, wf_entered, wf_TimeAxis, NoDup_nil_2.
  - exists s'. split; [exact Hrun |]. split; [exact Hm | apply Hagain].
Defined.

Lemma snap_before_repaint_witness :
  snap (StepOps := Demo.ops 25 50) 1234%Z five_ticks
  = Throw (TypeError "Cannot read property 'snap' of undefined") five_ticks.
Proof.
  apply (snap_before_repaint (StepOps := Demo.ops 25 50) five_ticks 1234%Z).
  apply unpainted_setRange, unpainted_new.
Defined.

Lemma setRange_keeps_conversion_witness :
  conversion three_ticks = conversion five_ticks_painted.
Proof.
  destruct (setRange_keeps_conversion (Demo.between 1000 1050)
              five_ticks_painted three_ticks) as (Hc & _).
  - vm_compute. reflexivity.
  - exact Hc.
Defined.

Lemma setRange_accepts_iff_witness :
  setRange (Demo.between 1000 1050) five_ticks_painted
    = Ok tt (set_range (Some (Demo.between 1000 1050)) five_ticks_painted) /\
  setRange (Demo.between 0 1050) five_ticks_painted
    = Throw (TypeError
        "Range must be an instance of Range, or an object containing start and end.")
        five_ticks_painted.
Proof.
  split.
  - apply (setRange_accepts_iff (Demo.between 1000 1050) five_ticks_painted).
    right. split; reflexivity.
  - apply (setRange_accepts_iff (Demo.between 0 1050) five_ticks_painted).
    intros [H | [H _]]; discriminate H.
Defined.

Lemma repaint_minor_labels_witness :
  exists c,
    conversion three_ticks_painted = Some c /\
    Forall2 (fun h st =>
               text_of three_ticks_painted h
                 = Some (getLabelMinor (TimeStepOps := Demo.ops 25 50) st) /\
               left_of three_ticks_painted h =
                 Some (css_px ((valueOf (getCurrent (TimeStepOps := Demo.ops 25 50) st)
                                - offset c) * scale c)))
      (active MinorText (dom three_ticks_painted))
      (cycle_ticks (StepOps := Demo.ops 25 50) (U := Demo.util)
         (Demo.between 1000 1050) (prepared (U := Demo.util) Demo.host three_ticks)).
Proof.
  apply (repaint_minor_labels (StepOps := Demo.ops 25 50) (U := Demo.util)
           Demo.host three_ticks (Demo.between 1000 1050) three_ticks_painted
           wf_three_ticks three_ticks_range three_ticks_run).
  vm_compute. reflexivity.
Defined.

Lemma repaint_hides_witness :
  active MinorText (dom minor_hidden_painted) = [] /\
  live MinorText minor_hidden_painted = [].
Proof.
  destruct (repaint_hides (StepOps := Demo.ops 25 50) (U := Demo.util)
              Demo.host minor_hidden (Demo.between 1000 1100) minor_hidden_painted
              wf_minor_hidden minor_hidden_range minor_hidden_run)
    as (Hminor & _).
  apply Hminor. vm_compute. reflexivity.
Defined.

Lemma repaint_frame_witness :
  exists f e,
    frame three_ticks_painted = Some f /\ f ∈ containerChildren three_ticks_painted /\
    elems three_ticks_painted !! f = Some e /\ className e = "axis"%string.
Proof.
  destruct (repaint_frame (StepOps := Demo.ops 25 50) (U := Demo.util)
              Demo.host three_ticks (Demo.between 1000 1050) three_ticks_painted
              wf_three_ticks three_ticks_range three_ticks_run)
    as (f & e & H1 & H2 & H3 & H4 & _).
  exists f, e. split; [exact H1 |]. split; [exact H2 |]. split; [exact H3 | exact H4].
Defined.

Lemma repaint_leaves_others_witness :
  elems three_ticks_painted !! 1 = elems three_ticks !! 1.
Proof.
  apply (repaint_leaves_others (StepOps := Demo.ops 25 50) (U := Demo.util)
           Demo.host three_ticks (Demo.between 1000 1050) three_ticks_painted
           wf_three_ticks three_ticks_range three_ticks_run 1).
  - vm_compute. lia.
  - apply member_false. vm_compute. reflexivity.
  - intros H. vm_compute in H. discriminate H.
Defined.
